(** * cNMF_torch: consensus non-negative matrix factorisation

    A shallow embedding of the numeric core of [src/cnmf/cnmf.py]:

    - [fit_H_online]            the chunked multiplicative-update NNLS refit,
    - [efficient_ols_all_cols]  the batched normal-equation OLS solver,
    - [cNMF.consensus]          the replicate-consensus pipeline,
    - [worker_filter], [cNMF.get_nmf_iter_params], [cNMF.factorize],
      [cNMF.combine_nmf], [cNMF.combine], [cNMF.k_selection_plot]
                                the replicate ledger and its jobs.

    Scalars are real numbers ([R]): the embedding is the exact-arithmetic
    reading of the float32/float64 code.  Arrays are row-major lists of
    rows.  Library routines that the source only calls (k-means, the
    silhouette score, the least-squares solver, plotting, ...) are
    parameters: the fields of [Consensus.routines]. *)

From Stdlib Require Import Reals List Lra Lia ZArith Bool Arith.
From Stdlib Require Import Permutation Sorted.
From Stdlib Require String.
Import ListNotations.
Local Open Scope R_scope.

(** ** Scalars *)

Definition vec := list R.
Definition matrix := list vec.

(** [a < b] as the boolean the source branches on. *)
Definition Rltb (a b : R) : bool := if Rlt_dec a b then true else false.

(** ** Tensor operations (the numpy / torch primitives the source uses) *)

Module Tensor.

Fixpoint map2 {A B C} (f : A -> B -> C) (a : list A) (b : list B) : list C :=
  match a, b with
  | x :: a', y :: b' => f x y :: map2 f a' b'
  | _, _ => []
  end.

Fixpoint dot (a b : vec) : R :=
  match a, b with
  | x :: a', y :: b' => x * y + dot a' b'
  | _, _ => 0
  end.

Definition vsum (v : vec) : R := fold_right Rplus 0 v.

Definition nrows (M : matrix) : nat := length M.

Definition ncols (M : matrix) : nat :=
  match M with
  | [] => O
  | r :: _ => length r
  end.

Definition entry (M : matrix) (i j : nat) : R := nth j (nth i M []) 0.

Definition col (j : nat) (M : matrix) : vec := map (fun r => nth j r 0) M.

(** [M.T] *)
Definition transpose (M : matrix) : matrix :=
  map (fun j => col j M) (seq 0 (ncols M)).

(** [A @ B] *)
Definition matmul (A B : matrix) : matrix :=
  map (fun a => map (fun j => dot a (col j B)) (seq 0 (ncols B))) A.

Definition madd (A B : matrix) : matrix := map2 (map2 Rplus) A B.
Definition msub (A B : matrix) : matrix := map2 (map2 Rminus) A B.
Definition mmul (A B : matrix) : matrix := map2 (map2 Rmult) A B.
Definition mdiv (A B : matrix) : matrix := map2 (map2 Rdiv) A B.
Definition mscale (c : R) (A : matrix) : matrix := map (map (Rmult c)) A.
Definition msub_scalar (A : matrix) (c : R) : matrix :=
  map (map (fun a => a - c)) A.

(** [A.clamp(min=0.0)] *)
Definition clamp0 (a : R) : R := if Rltb a 0 then 0 else a.
Definition clamp_min0 (A : matrix) : matrix := map (map clamp0) A.

(** [rates[mask < eps] = 0.0] *)
Definition zero_where_below (eps : R) (rates mask : matrix) : matrix :=
  map2 (map2 (fun r d => if Rltb d eps then 0 else r)) rates mask.

Definition sumsq (A : matrix) : R := vsum (map (fun r => dot r r) A).

(** [torch.norm(A)]: the Frobenius norm *)
Definition norm (A : matrix) : R := sqrt (sumsq A).

(** [A[a:b]] on rows *)
Definition slice {T} (a b : nat) (l : list T) : list T :=
  firstn (b - a) (skipn a l).

(** [A[a:b] = h] on rows *)
Definition assign_slice {T} (a b : nat) (l h : list T) : list T :=
  firstn a l ++ h ++ skipn b l.

Definition nonneg (v : vec) : Prop := Forall (fun a => 0 <= a) v.
Definition mnonneg (M : matrix) : Prop := Forall nonneg M.

(** Every row of [M] has [c] entries. *)
Definition has_cols (c : nat) (M : matrix) : Prop :=
  Forall (fun r => length r = c) M.

End Tensor.
Import Tensor.

(** ** [fit_H_online] *)

Module FitH.

Record params := {
  chunk_size : nat;
  chunk_max_iter : nat;
  h_tol : R;
  l1_reg_H : R;
  l2_reg_H : R;
  epsilon : R
}.

Section Fit.

Variable p : params.
(** The basis, [W_t] in the source (components x features). *)
Variable W : matrix.

(** [WWT = W_t @ W_t.T] *)
Definition WWT : matrix := matmul W (transpose W).

(** The numerator of the update for the chunk rows [x]. *)
Definition mu_numer (x : matrix) : matrix :=
  let xWT := matmul x (transpose W) in
  if Rltb 0 (l1_reg_H p)
  then clamp_min0 (msub_scalar xWT (l1_reg_H p))
  else xWT.

Definition mu_denom (h : matrix) : matrix :=
  let denom := matmul h WWT in
  if Rltb 0 (l2_reg_H p)
  then madd denom (mscale (l2_reg_H p) h)
  else denom.

Definition mu_rates (numer h : matrix) : matrix :=
  let denom := mu_denom h in
  zero_where_below (epsilon p) (mdiv numer denom) denom.

(** One pass of the body of the inner loop: [h_new]. *)
Definition mu_update (numer h : matrix) : matrix :=
  mmul h (mu_rates numer h).

(** [rel = torch.norm(h_new - h) / (torch.norm(h) + epsilon)] *)
Definition rel_change (h_new h : matrix) : R :=
  norm (msub h_new h) / (norm h + epsilon p).

(** [for _ in range(chunk_max_iter): ... if rel < h_tol: break] *)
Fixpoint mu_loop (iters : nat) (numer h : matrix) : matrix :=
  match iters with
  | O => h
  | S m =>
      let h_new := mu_update numer h in
      if Rltb (rel_change h_new h) (h_tol p)
      then h_new
      else mu_loop m numer h_new
  end.

(** The work done for the chunk that starts at row [idx]. *)
Definition fit_chunk (X_t H_t : matrix) (idx : nat) : matrix :=
  let x := slice idx (idx + chunk_size p) X_t in
  let h := slice idx (idx + chunk_size p) H_t in
  let numer := mu_numer x in
  let h := mu_loop (chunk_max_iter p) numer h in
  assign_slice idx (idx + chunk_size p) H_t h.

(** [while idx < n: ...; idx += chunk_size].  The loop does not end when
    [chunk_size] is [0]; [fuel] bounds the number of chunks. *)
Fixpoint chunk_loop (fuel : nat) (X_t H_t : matrix) (idx : nat)
  : option matrix :=
  if (nrows X_t <=? idx)%nat then Some H_t
  else
    match fuel with
    | O => None
    | S fuel' =>
        chunk_loop fuel' X_t (fit_chunk X_t H_t idx) (idx + chunk_size p)
    end.

(** [H_init] is clamped at zero; when it is [None] the source draws
    [torch.rand((n, k))], here the argument [rnd]. *)
Definition init_H (H_init : option matrix) (rnd : matrix) : matrix :=
  match H_init with
  | None => rnd
  | Some H0 => clamp_min0 H0
  end.

Definition fit_H_online (fuel : nat) (X : matrix) (H_init : option matrix)
  (rnd : matrix) : option matrix :=
  chunk_loop fuel X (init_H H_init rnd) 0.

End Fit.

End FitH.


(** ** The update of one entry over floating-point values

    The model above computes with real numbers, where a quotient is
    always a number.  To speak of [inf] and [nan], this module reads
    lines 370-372 of the source, for a single entry, over the values a
    float can take: a finite number or one of the three special values
    (rounding and the sign of zero are left out). *)

Module IEEE.

Inductive fl : Type :=
| Fin (x : R)
| PInf
| NInf
| NaN.

(** [a / b] *)
Definition fdiv (a b : fl) : fl :=
  match a, b with
  | NaN, _ | _, NaN => NaN
  | Fin x, Fin y =>
      if Rltb 0 y then Fin (x / y)
      else if Rltb y 0 then Fin (x / y)
      else if Rltb 0 x then PInf
      else if Rltb x 0 then NInf
      else NaN
  | Fin _, (PInf | NInf) => Fin 0
  | PInf, Fin y => if Rltb y 0 then NInf else PInf
  | NInf, Fin y => if Rltb y 0 then PInf else NInf
  | (PInf | NInf), (PInf | NInf) => NaN
  end.

(** [a * b] *)
Definition fmul (a b : fl) : fl :=
  match a, b with
  | NaN, _ | _, NaN => NaN
  | Fin x, Fin y => Fin (x * y)
  | Fin x, PInf | PInf, Fin x =>
      if Rltb 0 x then PInf else if Rltb x 0 then NInf else NaN
  | Fin x, NInf | NInf, Fin x =>
      if Rltb 0 x then NInf else if Rltb x 0 then PInf else NaN
  | PInf, PInf | NInf, NInf => PInf
  | PInf, NInf | NInf, PInf => NInf
  end.

(** [a < b]; a comparison with [nan] is false. *)
Definition flt (a b : fl) : bool :=
  match a, b with
  | NaN, _ | _, NaN => false
  | Fin x, Fin y => Rltb x y
  | NInf, (Fin _ | PInf) => true
  | Fin _, PInf => true
  | _, _ => false
  end.

(** [rates = numer / denom; rates[denom < epsilon] = 0.0; h_new = h * rates]
    at one entry: the ratio and the new coefficient. *)
Definition mu_entry (epsilon : R) (numer denom h : fl) : fl * fl :=
  let rate := fdiv numer denom in
  let rate := if flt denom (Fin epsilon) then Fin 0 else rate in
  (rate, fmul h rate).

End IEEE.

(** ** [efficient_ols_all_cols] *)

Module OLS.

Inductive error : Type :=
| RowsMismatch      (* "X and Y must have the same number of rows." *)
| RangeStepZero.    (* [range()] with a step of zero *)

Inductive result (A : Type) : Type :=
| Ok (a : A)
| Raise (e : error).
Arguments Ok {A} a.
Arguments Raise {A} e.

(** [range(0, stop, step)]: nothing for a negative step, an error for a
    zero step. *)
Definition py_range (stop : nat) (step : Z) : result (list nat) :=
  if (step =? 0)%Z then Raise RangeStepZero
  else if (step <? 0)%Z then Ok []
  else
    let s := Z.to_nat step in
    Ok (map (fun i => (i * s)%nat) (seq 0 ((stop + s - 1) / s))).

(** [np.zeros((r, c))] *)
Definition zeros (r c : nat) : matrix := repeat (repeat 0 c) r.

(** [get_mean_var]: the mean and the (population) variance of every
    column, as [StandardScaler.fit] reports them. *)
Definition col_mean (Y : matrix) (j : nat) : R :=
  vsum (col j Y) / INR (nrows Y).

Definition col_var (Y : matrix) (j : nat) : R :=
  vsum (map (fun y => (y - col_mean Y j) * (y - col_mean Y j)) (col j Y))
  / INR (nrows Y).

Definition get_mean_var (Y : matrix) : vec * vec :=
  (map (col_mean Y) (seq 0 (ncols Y)), map (col_var Y) (seq 0 (ncols Y))).

(** [varY[varY < eps] = eps; stdY = np.sqrt(varY)] with [eps = 1e-12] *)
Definition var_floor : R := 1 / 1000000000000.

Definition std_of_var (varY : vec) : vec :=
  map sqrt (map (fun v => if Rltb v var_floor then var_floor else v) varY).

(** [(Y_batch - meanY) / stdY], broadcast over the rows *)
Definition standardize (meanY stdY : vec) (Y_batch : matrix) : matrix :=
  map (fun r => map2 Rdiv (map2 Rminus r meanY) stdY) Y_batch.

Section Solver.

(** [np.linalg.lstsq(A, B, rcond=None)[0]] *)
Variable lstsq : matrix -> matrix -> matrix.

Variables X Y : matrix.
Variable normalize_y : bool.

(** The body of the loop for the batch that starts at [start_row]. *)
Definition ols_step (batch_size : Z) (acc : matrix * matrix)
  (start_row : nat) : matrix * matrix :=
  let (XtX, XtY) := acc in
  let end_row := Nat.min (start_row + Z.to_nat batch_size) (nrows X) in
  let X_batch := slice start_row end_row X in
  let Y_batch := slice start_row end_row Y in
  let Y_batch :=
    if normalize_y
    then let (meanY, varY) := get_mean_var Y in
         standardize meanY (std_of_var varY) Y_batch
    else Y_batch in
  (madd XtX (matmul (transpose X_batch) X_batch),
   madd XtY (matmul (transpose X_batch) Y_batch)).

(** The accumulated [XtX] and [XtY]. *)
Definition ols_accumulate (batch_size : Z) : result (matrix * matrix) :=
  if negb (nrows X =? nrows Y)%nat then Raise RowsMismatch
  else
    match py_range (nrows X) batch_size with
    | Raise e => Raise e
    | Ok starts =>
        Ok (fold_left (ols_step batch_size) starts
              (zeros (ncols X) (ncols X), zeros (ncols X) (ncols Y)))
    end.

Definition efficient_ols_all_cols (batch_size : Z) : result matrix :=
  match ols_accumulate batch_size with
  | Raise e => Raise e
  | Ok (XtX, XtY) => Ok (lstsq XtX XtY)
  end.

End Solver.

End OLS.

(** ** [cNMF.consensus] *)

Module Consensus.

(** *** Saved artifacts

    The files the method reads and writes are slots named after the
    entries of [self.paths], keyed by [k] and, for the outputs, by the
    label made from the density threshold. *)

Inductive slot : Type :=
| local_density_cache
| consensus_spectra
| consensus_usages
| consensus_spectra__txt
| consensus_usages__txt
| gene_spectra_tpm
| gene_spectra_tpm__txt
| gene_spectra_score
| gene_spectra_score__txt
| clustering_plot.

Definition slot_eqb (a b : slot) : bool :=
  match a, b with
  | local_density_cache, local_density_cache
  | consensus_spectra, consensus_spectra
  | consensus_usages, consensus_usages
  | consensus_spectra__txt, consensus_spectra__txt
  | consensus_usages__txt, consensus_usages__txt
  | gene_spectra_tpm, gene_spectra_tpm
  | gene_spectra_tpm__txt, gene_spectra_tpm__txt
  | gene_spectra_score, gene_spectra_score
  | gene_spectra_score__txt, gene_spectra_score__txt
  | clustering_plot, clustering_plot => true
  | _, _ => false
  end.

Record path : Type := {
  path_slot : slot;
  path_k : nat;
  path_threshold : String.string
}.

Definition path_eqb (a b : path) : bool :=
  slot_eqb (path_slot a) (path_slot b)
  && (path_k a =? path_k b)%nat
  && String.eqb (path_threshold a) (path_threshold b).

(** The newest file of a path comes first. *)
Definition store : Type := list (path * matrix).

Definition save (f : path) (data : matrix) (st : store) : store :=
  (f, data) :: st.

Fixpoint load (f : path) (st : store) : option matrix :=
  match st with
  | [] => None
  | (g, data) :: st' => if path_eqb f g then Some data else load f st'
  end.

Definition cache_path (k : nat) : path :=
  {| path_slot := local_density_cache; path_k := k;
     path_threshold := String.EmptyString |}.

Definition out_path (s : slot) (k : nat) (label : String.string) : path :=
  {| path_slot := s; path_k := k; path_threshold := label |}.

(** [density_threshold_str.replace('.', '_')] *)
Fixpoint replace_dot (s : String.string) : String.string :=
  match s with
  | String.EmptyString => String.EmptyString
  | String.String c s' =>
      String.String
        (if Ascii.eqb c (Ascii.ascii_of_nat 46) (* '.' *)
         then Ascii.ascii_of_nat 95 (* '_' *) else c) (replace_dot s')
  end.

(** *** Outcomes *)

Inductive error : Type :=
| ZeroDivision      (* [ZeroDivisionError]: [k = 0] *)
| KthOutOfBounds    (* [ValueError] of [np.argpartition] *)
| Unalignable       (* [IndexingError]: a cached density of another length *)
| ZeroComponents    (* [RuntimeError]: "Zero components remain after
                       density filtering. ..." *)
| InvalidBetaLoss   (* [ValueError] of [refit_usage] *)
| OlsRowsMismatch   (* [ValueError] of [efficient_ols_all_cols] *)
| TooFewSamples     (* [ValueError] of [KMeans.fit]: fewer rows than
                       clusters *)
| SilhouetteLabels  (* [ValueError] of [silhouette_score]: one label, or
                       as many labels as rows *)
| NeverReturns.     (* not an exception: the refit loops for ever
                       ([online_chunk_size = 0]) *)

Inductive res (A : Type) : Type :=
| Ret (a : A)
| Err (e : error).
Arguments Ret {A} a.
Arguments Err {A} e.

Definition bind {A B} (m : res A * store) (f : A -> store -> res B * store)
  : res B * store :=
  match m with
  | (Ret a, st) => f a st
  | (Err e, st) => (Err e, st)
  end.

Notation "x <- m ;; f" := (bind m (fun x => f))
  (at level 61, m at next level, right associativity).

(** *** Stages 1 to 3: normalise, density, filter *)

(** [int(x)] on a float: truncation towards zero. *)
Definition py_int (x : R) : Z :=
  if Rltb x 0 then (- Int_part (- x))%Z else Int_part x.

(** [int(local_neighborhood_size * merged_spectra.shape[0] / k)] *)
Definition n_neighbors_of (local_neighborhood_size : R) (rows k : nat)
  : res Z :=
  if (k =? 0)%nat then Err ZeroDivision
  else Ret (py_int (local_neighborhood_size * INR rows / INR k)).

(** [(merged_spectra.T / np.sqrt((merged_spectra**2).sum(axis=1))).T] *)
Definition l2_normalize (M : matrix) : matrix :=
  map (fun r => map (fun a => a / sqrt (dot r r)) r) M.

Definition distance (a b : vec) : R :=
  let d := map2 Rminus a b in sqrt (dot d d).

(** [euclidean_distances(M)] *)
Definition euclidean_distances (M : matrix) : matrix :=
  map (fun a => map (fun b => distance a b) M) M.

Definition Rleb (a b : R) : bool := if Rle_dec a b then true else false.

Fixpoint insert_asc (a : R) (l : vec) : vec :=
  match l with
  | [] => [a]
  | b :: l' => if Rleb a b then a :: l else b :: insert_asc a l'
  end.

Definition sort_asc (l : vec) : vec := fold_right insert_asc [] l.

(** The number of columns [np.argpartition(a, kth)[:, :kth]] keeps of a
    row of length [len]: a negative [kth] counts from the end, in the
    partition and in the slice alike; [None] when [kth] is out of
    bounds. *)
Definition partition_count (len : nat) (kth : Z) : option nat :=
  let kth' := if (kth <? 0)%Z then (kth + Z.of_nat len)%Z else kth in
  if ((kth' <? 0) || (Z.of_nat len <=? kth'))%Z then None
  else Some (Z.to_nat kth').

(** The values at the first [m] positions of a row partitioned at [m]
    are its [m] smallest entries, in an order the library does not fix;
    their sum does not depend on that order. *)
Definition sum_smallest (m : nat) (row : vec) : R :=
  vsum (firstn m (sort_asc row)).

(** [distance_to_nearest_neighbors.sum(1) / n_neighbors], for
    [n_neighbors] other than zero.  With [n_neighbors = 0] the source
    divides [0.0] by zero: its densities are not real numbers (NaN: none
    compares below a threshold), a case the real quotient written here
    does not describe; what is proved of the densities is proved for
    [n_neighbors <> 0]. *)
Definition compute_local_density (topics_dist : matrix) (n_neighbors : Z)
  : res vec :=
  match partition_count (nrows topics_dist) (n_neighbors + 1) with
  | None => Err KthOutOfBounds
  | Some m =>
      Ret (map (fun row => sum_smallest m row / IZR n_neighbors) topics_dist)
  end.

(** [df.loc[mask, :]] *)
Definition select_rows (mask : list bool) (M : matrix) : matrix :=
  map snd (filter fst (combine mask M)).

(** What the later stages see of stages 1 to 3.  In evaluation mode the
    names [topics_dist], [density_filter] and [local_density] are never
    bound. *)
Record staged : Type := {
  l2_spectra : matrix;
  topics_dist : option matrix;
  density_filter : option (list bool);
  local_density : option vec
}.

Section Stages.

Variable k : nat.
Variable density_threshold : R.
Variable local_neighborhood_size : R.
Variable skip_density_and_return_after_stats : bool.
Variable merged_spectra : matrix.

(** Lines 1059-1075: the cached density when there is one, else the
    computed density, which is then cached. *)
Definition obtain_local_density (l2 : matrix) (n_neighbors : Z) (st : store)
  : res (option matrix * vec) * store :=
  match load (cache_path k) st with
  | Some cached => (Ret (None, col 0 cached), st)
  | None =>
      let dist := euclidean_distances l2 in
      match compute_local_density dist n_neighbors with
      | Err e => (Err e, st)
      | Ret density =>
          (Ret (Some dist, density),
           save (cache_path k) (map (fun d => [d]) density) st)
      end
  end.

(** Lines 1077-1080.  A density computed in this run carries the index
    of the spectra and is aligned with them row by row.  The rows of the
    frames carry no labels here: for a cached density the alignment of
    line 1078 is by label in the source and by position and length in
    this definition, so that what is proved of the filter is proved for
    a density computed in the run. *)
Definition apply_density_filter (l2 : matrix) (dist : option matrix)
  (density : vec) (st : store) : res staged * store :=
  let mask := map (fun d => Rltb d density_threshold) density in
  if negb (length mask =? nrows l2)%nat then (Err Unalignable, st)
  else
    let kept := select_rows mask l2 in
    if (nrows kept =? 0)%nat then (Err ZeroComponents, st)
    else (Ret {| l2_spectra := kept; topics_dist := dist;
                 density_filter := Some mask;
                 local_density := Some density |}, st).

(** Lines 1053-1080. *)
Definition spectra_for_clustering (st : store) : res staged * store :=
  n_neighbors <- (n_neighbors_of local_neighborhood_size
                    (nrows merged_spectra) k, st) ;;
  fun st =>
  let l2 := l2_normalize merged_spectra in
  if skip_density_and_return_after_stats
  then (Ret {| l2_spectra := l2; topics_dist := None;
               density_filter := None; local_density := None |}, st)
  else
    dd <- obtain_local_density l2 n_neighbors st ;;
    fun st => apply_density_filter l2 (fst dd) (snd dd) st.

End Stages.

(** *** Stage 4 onwards *)

(** [beta_loss] of the saved run parameters. *)
Inductive beta_loss : Type :=
| frobenius
| kullback_leibler
| itakura_saito
| numeric (b : R)
| other_value.

(** What the method loads besides the merged spectra. *)
Record inputs : Type := {
  merged_spectra : matrix;        (* replicate programs x genes *)
  norm_counts : matrix;           (* cells x high-variance genes *)
  tpm : matrix;                   (* cells x genes *)
  tpm_std : vec;                  (* [tpm_stats['__std']], per gene *)
  hvgs : list nat;                (* columns of the high-variance genes *)
  run_beta_loss : beta_loss;
  online_chunk_size : nat;
  online_chunk_max_iter : nat;
  l1_ratio_H : R
}.

Record ConsensusStats : Type := {
  stats_k : nat;
  stats_local_density_threshold : R;
  stats_silhouette : R;
  stats_prediction_error : R
}.

(** [M.div(M.sum(axis=1), axis=0)] *)
Definition row_normalize (M : matrix) : matrix :=
  map (fun r => map (fun a => a / vsum r) r) M.

(** [M.sum(axis=0)] *)
Definition col_sums (M : matrix) : vec :=
  map (fun j => vsum (col j M)) (seq 0 (ncols M)).

(** [M.loc[:, order]] and [M.loc[order, :]] *)
Definition take_cols (order : list nat) (M : matrix) : matrix :=
  map (fun r => map (fun j => nth j r 0) order) M.
Definition take_rows (order : list nat) (M : matrix) : matrix :=
  map (fun i => nth i M []) order.

(** [M[mask, :][:, mask]] *)
Definition select_rows_cols (mask : list bool) (M : matrix) : matrix :=
  map (fun r => map snd (filter fst (combine mask r))) (select_rows mask M).

(** The distinct labels, [le.classes_] in [silhouette_score]. *)
Fixpoint classes (labels : list nat) : list nat :=
  match labels with
  | [] => []
  | x :: labels' =>
      if existsb (Nat.eqb x) labels' then classes labels'
      else x :: classes labels'
  end.

(** [check_number_of_labels]: [1 < n_labels < n_samples]. *)
Definition silhouette_defined (l2 : matrix) (labels : list nat) : bool :=
  let n_labels := length (classes labels) in
  ((1 <? n_labels) && (n_labels <? nrows l2))%nat.

(** The library routines the method calls. *)
Record routines : Type := {
  float_str : R -> String.string;            (* [str(x)] *)
  kmeans : nat -> matrix -> list nat;        (* [KMeans(...).labels_ + 1] *)
  groupby_median : list nat -> matrix -> matrix;
  silhouette_score : matrix -> list nat -> R;  (* for labels it accepts *)
  torch_rand : nat -> nat -> nat -> matrix;  (* draw number, rows, columns *)
  order_desc : vec -> list nat;              (* [sort_values(ascending=False).index] *)
  lstsq : matrix -> matrix -> matrix;
  scale_columns : matrix -> matrix;          (* division by the column deviations *)
  clustergram : matrix -> list nat -> vec -> R -> matrix;
  build_reference : nat -> R -> store -> store
}.

(** The arguments of [consensus]. *)
Record arguments : Type := {
  k : nat;
  density_threshold : R;
  local_neighborhood_size : R;
  show_clustering : bool;
  build_ref : bool;
  skip_density_and_return_after_stats : bool;
  refit_usage_flag : bool;                   (* [refit_usage] *)
  normalize_tpm_spectra : bool
}.

Section Pipeline.

Variable lib : routines.
Variable inp : inputs.

Definition refit_params : FitH.params :=
  {| FitH.chunk_size := online_chunk_size inp;
     FitH.chunk_max_iter := online_chunk_max_iter inp;
     FitH.h_tol := 5 / 100;
     FitH.l1_reg_H := l1_ratio_H inp;
     FitH.l2_reg_H := 0;
     FitH.epsilon := 1 / 10000000000000000 |}.

(** [refit_usage(X, spectra)]; [draw] numbers the random initial [H]. *)
Definition refit_usage (draw : nat) (X spectra : matrix) : res matrix :=
  match run_beta_loss inp with
  | other_value => Err InvalidBetaLoss
  | _ =>
      match FitH.fit_H_online refit_params spectra (nrows X) X None
              (torch_rand lib draw (nrows X) (nrows spectra)) with
      | Some H => Ret H
      | None => Err NeverReturns
      end
  end.

(** [refit_spectra(X, usage)] *)
Definition refit_spectra (draw : nat) (X usage : matrix) : res matrix :=
  match refit_usage draw (transpose X) (transpose usage) with
  | Ret spectra => Ret (transpose spectra)
  | Err e => Err e
  end.

Variable a : arguments.

(** Lines 1097-1110. *)
Definition consensus_stats (l2 : matrix) (labels : list nat)
  (rf_usages median : matrix) : ConsensusStats :=
  {| stats_k := k a;
     stats_local_density_threshold := density_threshold a;
     stats_silhouette := silhouette_score lib l2 labels;
     stats_prediction_error :=
       sumsq (msub (norm_counts inp) (matmul rf_usages median)) |}.

Definition density_threshold_repl : String.string :=
  replace_dot (if skip_density_and_return_after_stats a
               then String.String (Ascii.ascii_of_nat 50) String.EmptyString
               else float_str lib (density_threshold a)).

Definition out (s : slot) : path := out_path s (k a) density_threshold_repl.

(** Lines 1112-1256: reorder, TPM conversion, z-scores, final refit,
    and the saved files. *)
Definition finish (sg : staged) (labels : list nat)
  (median_spectra rf_usages : matrix) (st : store)
  : res (option ConsensusStats) * store :=
  let norm_usages := row_normalize rf_usages in
  let reorder := order_desc lib (col_sums norm_usages) in
  let rf_usages := take_cols reorder rf_usages in
  let norm_usages := take_cols reorder norm_usages in
  let median_spectra := take_rows reorder median_spectra in
  spectra_tpm <- (refit_spectra 1 (tpm inp) norm_usages, st) ;;
  fun st =>
  let spectra_tpm :=
    if normalize_tpm_spectra a
    then map (map (fun x => x * 1000000)) (row_normalize spectra_tpm)
    else spectra_tpm in
  usage_coef <-
    (match OLS.efficient_ols_all_cols (lstsq lib) rf_usages (tpm inp)
             true 1024 with
     | OLS.Ok B => Ret B
     | OLS.Raise _ => Err OlsRowsMismatch
     end, st) ;;
  fun st =>
  rf_usages <-
    (if refit_usage_flag a
     then
       let norm_tpm := scale_columns lib (take_cols (hvgs inp) (tpm inp)) in
       let stds := map (fun j => nth j (tpm_std inp) 0) (hvgs inp) in
       let spectra_tpm_rf :=
         map (fun r => map2 Rdiv r stds) (take_cols (hvgs inp) spectra_tpm) in
       refit_usage 2 norm_tpm spectra_tpm_rf
     else Ret rf_usages, st) ;;
  fun st =>
  let st := save (out consensus_spectra) median_spectra st in
  let st := save (out consensus_usages) rf_usages st in
  let st := save (out consensus_spectra__txt) median_spectra st in
  let st := save (out consensus_usages__txt) rf_usages st in
  let st := save (out gene_spectra_tpm) spectra_tpm st in
  let st := save (out gene_spectra_tpm__txt) spectra_tpm st in
  let st := save (out gene_spectra_score) usage_coef st in
  let st := save (out gene_spectra_score__txt) usage_coef st in
  let st :=
    if show_clustering a
    then
      let mask :=
        match density_filter sg with Some m => m | None => [] end in
      let dist :=
        match topics_dist sg with
        | None => euclidean_distances (l2_spectra sg)
        | Some d => select_rows_cols mask d
        end in
      let density :=
        match local_density sg with Some d => d | None => [] end in
      save (out clustering_plot)
           (clustergram lib dist labels density (density_threshold a)) st
    else st in
  let st :=
    if build_ref a
    then build_reference lib (k a) (density_threshold a) st
    else st in
  (Ret None, st).

(** Lines 1082-1110, then [finish].  [KMeans.fit] raises for fewer rows
    than clusters, and [silhouette_score] unless the number of distinct
    labels is above 1 and below the number of rows. *)
Definition cluster_and_fit (sg : staged) (st : store)
  : res (option ConsensusStats) * store :=
  let l2 := l2_spectra sg in
  if (nrows l2 <? k a)%nat then (Err TooFewSamples, st)
  else
  let labels := kmeans lib (k a) l2 in
  let median_spectra := row_normalize (groupby_median lib labels l2) in
  rf_usages <- (refit_usage 0 (norm_counts inp) median_spectra, st) ;;
  fun st =>
  if skip_density_and_return_after_stats a
  then
    if silhouette_defined l2 labels
    then (Ret (Some (consensus_stats l2 labels rf_usages median_spectra)), st)
    else (Err SilhouetteLabels, st)
  else finish sg labels median_spectra rf_usages st.

Definition consensus (st : store) : res (option ConsensusStats) * store :=
  sg <- spectra_for_clustering (k a) (density_threshold a)
          (local_neighborhood_size a)
          (skip_density_and_return_after_stats a) (merged_spectra inp) st ;;
  cluster_and_fit sg.

End Pipeline.

End Consensus.
(** ** The replicate ledger: [worker_filter], [get_nmf_iter_params],
    [factorize], [combine_nmf], [combine], [k_selection_plot] *)

Module Jobs.
Import Consensus.

Inductive error : Type :=
| ZeroDivisionError   (* [%] with [total_workers = 0] *)
| IndexError          (* a position past the end of an array or a frame *)
| FileNotFoundError.  (* a missing [iter_spectra] file *)

Inductive result (A : Type) : Type :=
| Done (a : A)
| Fail (e : error).
Arguments Done {A} a.
Arguments Fail {A} e.

(** *** [worker_filter]

    [(p for i, p in enumerate(iterable)
      if (i - worker_index) % total_workers == 0)].
    [%] on Python integers takes the sign of the divisor, as [Z.modulo]
    does.  [worker_filter_from i] is the generator from position [i]
    on, for a divisor that is not zero. *)
Fixpoint worker_filter_from {A} (i : Z) (iterable : list A)
  (worker_index total_workers : Z) : list A :=
  match iterable with
  | [] => []
  | p :: rest =>
      if ((i - worker_index) mod total_workers =? 0)%Z
      then p :: worker_filter_from (i + 1) rest worker_index total_workers
      else worker_filter_from (i + 1) rest worker_index total_workers
  end.

(** The generator run to its end.  A divisor of zero raises at the first
    element, so before any element has been passed on; nothing is
    computed for an empty [iterable]. *)
Definition worker_filter {A} (iterable : list A)
  (worker_index total_workers : Z) : result (list A) :=
  match iterable with
  | [] => Done []
  | _ :: _ =>
      if (total_workers =? 0)%Z then Fail ZeroDivisionError
      else Done (worker_filter_from 0 iterable worker_index total_workers)
  end.

(** *** The ledger and the replicate files *)

(** A row of [nmf_replicate_parameters]. *)
Record replicate : Type := {
  n_components : nat;
  iter : nat;
  nmf_seed : Z;
  completed : bool
}.

(** The files [iter_spectra % (k, iter)]; the newest comes first. *)
Definition files : Type := list ((nat * nat) * matrix).

Definition save_iter (k r : nat) (spectra : matrix) (fs : files) : files :=
  ((k, r), spectra) :: fs.

Fixpoint load_iter (k r : nat) (fs : files) : option matrix :=
  match fs with
  | [] => None
  | ((k', r'), spectra) :: fs' =>
      if ((k =? k') && (r =? r'))%nat then Some spectra
      else load_iter k r fs'
  end.

(** [os.path.exists(self.paths['iter_spectra'] % (k, r))] *)
Definition exists_iter (k r : nat) (fs : files) : bool :=
  match load_iter k r fs with
  | Some _ => true
  | None => false
  end.

(** *** [get_nmf_iter_params] *)

(** [ks]: an integer or a list of integers. *)
Inductive ks_arg : Type :=
| one_k (k : nat)
| many_k (ks : list nat).

(** [if type(ks) is int: ks = [ks]] *)
Definition ks_list (ks : ks_arg) : list nat :=
  match ks with
  | one_k k => [k]
  | many_k l => l
  end.

Fixpoint insert_uniq (k : nat) (l : list nat) : list nat :=
  match l with
  | [] => [k]
  | x :: l' =>
      if (k <? x)%nat then k :: l
      else if (k =? x)%nat then l
      else x :: insert_uniq k l'
  end.

(** [sorted(set(list(ks)))] *)
Definition sorted_set (ks : list nat) : list nat :=
  fold_right insert_uniq [] ks.

(** The rows appended for [enumerate(...)] from position [i] on;
    [nmf_seeds[i]] raises past the end of the array. *)
Fixpoint replicate_rows (fs : files) (nmf_seeds : list Z) (i : nat)
  (jobs : list (nat * nat)) : result (list replicate) :=
  match jobs with
  | [] => Done []
  | (k, r) :: jobs' =>
      match nth_error nmf_seeds i with
      | None => Fail IndexError
      | Some seed =>
          match replicate_rows fs nmf_seeds (S i) jobs' with
          | Fail e => Fail e
          | Done rows =>
              Done ({| n_components := k; iter := r; nmf_seed := seed;
                       completed := exists_iter k r fs |} :: rows)
          end
      end
  end.

(** The entries of [_nmf_kwargs] that are numbers, flags or the loss. *)
Record nmf_kwargs : Type := {
  alpha_W : R;
  alpha_H : R;
  kw_l1_ratio_H : R;
  kw_l1_ratio_W : R;
  kw_beta_loss : beta_loss;
  tol : R;
  kw_online_chunk_max_iter : nat;
  kw_online_chunk_size : nat;
  n_jobs : Z;
  use_gpu : bool
}.

(** The arguments besides [ks] and [n_iter]. *)
Record prepare_args : Type := {
  arg_beta_loss : beta_loss;
  alpha_usage : R;
  alpha_spectra : R;
  arg_total_workers : Z;
  arg_use_gpu : bool;
  batch_size : nat;
  max_iter : nat
}.

(** [randint n] is [np.random.randint(low=1, high=(2**31)-1, size=n)]
    under the chosen seed. *)
Definition get_nmf_iter_params (fs : files) (randint : nat -> list Z)
  (ks : ks_arg) (n_iter : nat) (args : prepare_args)
  : result (list replicate * nmf_kwargs) :=
  let ks := ks_list ks in
  let k_list := sorted_set ks in
  let n_runs := (length ks * n_iter)%nat in
  let nmf_seeds := randint n_runs in
  match replicate_rows fs nmf_seeds 0
          (list_prod k_list (seq 0 n_iter)) with
  | Fail e => Fail e
  | Done replicate_params =>
      Done (replicate_params,
            {| alpha_W := alpha_spectra args;
               alpha_H := alpha_usage args;
               kw_l1_ratio_H := 0;
               kw_l1_ratio_W := 0;
               kw_beta_loss := arg_beta_loss args;
               tol := 1 / 10000;
               kw_online_chunk_max_iter := max_iter args;
               kw_online_chunk_size := batch_size args;
               n_jobs := arg_total_workers args;
               use_gpu := arg_use_gpu args |})
  end.

(** [update_nmf_iter_params]: the ledger with [completed] set from the
    files that exist. *)
Definition update_nmf_iter_params (fs : files)
  (replicate_params : list replicate) : list replicate :=
  map (fun p => {| n_components := n_components p; iter := iter p;
                   nmf_seed := nmf_seed p;
                   completed := exists_iter (n_components p) (iter p) fs |})
      replicate_params.

(** *** [factorize] *)

Section Factorize.

(** The spectra [self._nmf(norm_counts.X, _nmf_kwargs)] returns for
    [n_components] and [random_state]. *)
Variable run_nmf : nat -> Z -> matrix.

Variable run_params : list replicate.

(** The body of the loop for the job [idx]; [iloc] raises past the end
    of the frame. *)
Definition run_job (fs : files) (idx : nat) : result files :=
  match nth_error run_params idx with
  | None => Fail IndexError
  | Some p =>
      Done (save_iter (n_components p) (iter p)
              (run_nmf (n_components p) (nmf_seed p)) fs)
  end.

Fixpoint run_jobs (fs : files) (jobs : list nat) : result files :=
  match jobs with
  | [] => Done fs
  | idx :: jobs' =>
      match run_job fs idx with
      | Fail e => Fail e
      | Done fs' => run_jobs fs' jobs'
      end
  end.

(** [run_params.index[run_params['completed'] == False]] *)
Definition incomplete : list nat :=
  filter (fun i => match nth_error run_params i with
                   | Some p => negb (completed p)
                   | None => false
                   end)
         (seq 0 (length run_params)).

Definition factorize (worker_i total_workers : Z)
  (skip_completed_runs : bool) (fs : files) : result files :=
  let jobs :=
    if skip_completed_runs then incomplete
    else seq 0 (length run_params) in
  match worker_filter jobs worker_i total_workers with
  | Fail e => Fail e
  | Done jobs_for_this_worker => run_jobs fs jobs_for_this_worker
  end.

End Factorize.

(** *** [combine_nmf] *)

Fixpoint insert_by_iter (p : replicate) (l : list replicate)
  : list replicate :=
  match l with
  | [] => [p]
  | q :: l' =>
      if (iter p <=? iter q)%nat then p :: l
      else q :: insert_by_iter p l'
  end.

(** [sort_values('iter')]; rows with the same [iter] keep their order
    here, which pandas does not promise. *)
Definition sort_by_iter (l : list replicate) : list replicate :=
  fold_right insert_by_iter [] l.

(** The loop over the rows of the subset. *)
Fixpoint collect_spectra (fs : files) (skip_missing_files : bool)
  (rows : list replicate) : result (list matrix) :=
  match rows with
  | [] => Done []
  | p :: rows' =>
      match load_iter (n_components p) (iter p) fs with
      | None =>
          if skip_missing_files
          then collect_spectra fs skip_missing_files rows'
          else Fail FileNotFoundError
      | Some spectra =>
          match collect_spectra fs skip_missing_files rows' with
          | Fail e => Fail e
          | Done combined => Done (spectra :: combined)
          end
      end
  end.

(** The result is what is saved as [merged_spectra % k]: nothing when
    no spectra were found. *)
Definition combine_nmf (run_params : list replicate) (fs : files)
  (k : nat) (skip_missing_files : bool) : result (option matrix) :=
  let run_params_subset :=
    sort_by_iter (filter (fun p => (n_components p =? k)%nat) run_params) in
  match collect_spectra fs skip_missing_files run_params_subset with
  | Fail e => Fail e
  | Done [] => Done None
  | Done combined_spectra => Done (Some (concat combined_spectra))
  end.

(** *** [combine] *)

(** The files [merged_spectra % k]; the newest comes first. *)
Definition merged_files : Type := list (nat * matrix).

Fixpoint load_merged (k : nat) (ms : merged_files) : option matrix :=
  match ms with
  | [] => None
  | (k', m) :: ms' => if (k =? k')%nat then Some m else load_merged k ms'
  end.

(** [components]: [None], an integer or a list. *)
Inductive components_arg : Type :=
| all_components
| one_component (k : nat)
| component_list (ks : list nat).

(** The loop [for k in ks: self.combine_nmf(k, ...)]: it stops at the
    first error, and what was merged before stays. *)
Fixpoint combine_each (run_params : list replicate) (fs : files)
  (skip_missing_files : bool) (ks : list nat) (ms : merged_files)
  : option error * merged_files :=
  match ks with
  | [] => (None, ms)
  | k :: ks' =>
      match combine_nmf run_params fs k skip_missing_files with
      | Fail e => (Some e, ms)
      | Done None =>
          combine_each run_params fs skip_missing_files ks' ms
      | Done (Some merged) =>
          combine_each run_params fs skip_missing_files ks'
            ((k, merged) :: ms)
      end
  end.

Definition combine (run_params : list replicate) (fs : files)
  (components : components_arg) (skip_missing_files : bool)
  (ms : merged_files) : option error * merged_files :=
  let ks :=
    match components with
    | one_component k => [k]
    | all_components => sorted_set (map n_components run_params)
    | component_list ks => ks
    end in
  combine_each run_params fs skip_missing_files ks ms.

(** *** [k_selection_plot] *)

(** [self.consensus(k, skip_density_and_return_after_stats=True,
    show_clustering=False, ...)] with the other defaults. *)
Definition stats_arguments (k : nat) : arguments :=
  {| Consensus.k := k;
     density_threshold := 1 / 2;
     local_neighborhood_size := 3 / 10;
     show_clustering := false;
     build_ref := true;
     skip_density_and_return_after_stats := true;
     refit_usage_flag := true;
     normalize_tpm_spectra := false |}.

Inductive stats_outcome : Type :=
| Stats (rows : list ConsensusStats)
| Raised (e : Consensus.error)
| AttributeError.     (* [.stats] of [None] *)

(** The loop over the values of [k]; [inp_of k] is what [consensus]
    loads for [k]. *)
Fixpoint collect_stats (lib : routines) (inp_of : nat -> inputs)
  (ks : list nat) (st : store) : stats_outcome * store :=
  match ks with
  | [] => (Stats [], st)
  | k :: ks' =>
      match consensus lib (inp_of k) (stats_arguments k) st with
      | (Err e, st') => (Raised e, st')
      | (Ret None, st') => (AttributeError, st')
      | (Ret (Some row), st') =>
          match collect_stats lib inp_of ks' st' with
          | (Stats rows, st'') => (Stats (row :: rows), st'')
          | other => other
          end
      end
  end.

(** The statistics saved as [k_selection_stats]. *)
Definition k_selection_plot (lib : routines) (inp_of : nat -> inputs)
  (run_params : list replicate) (st : store) : stats_outcome * store :=
  collect_stats lib inp_of (sorted_set (map n_components run_params)) st.

End Jobs.

(** * Auxiliary definitions used to state the properties *)

(** ** The refit seen one row at a time

    Every tensor operation in the body of the inner loop acts on each row
    of the chunk separately; these are the one-row readings of
    [mu_numer], [mu_denom], [mu_rates] and [mu_update].  Lemmas
    [mu_numer_rowwise] and [mu_update_rowwise] below tie them to the
    chunk-level definitions. *)

Module FitRows.
Import FitH.

Section Rows.

Variable p : params.
Variable W : matrix.

Definition row_matmul (a : vec) (B : matrix) : vec :=
  map (fun j => dot a (col j B)) (seq 0 (ncols B)).

Definition row_numer (x : vec) : vec :=
  let xWT := row_matmul x (transpose W) in
  if Rltb 0 (l1_reg_H p)
  then map clamp0 (map (fun a => a - l1_reg_H p) xWT)
  else xWT.

Definition row_denom (h : vec) : vec :=
  let denom := row_matmul h (WWT W) in
  if Rltb 0 (l2_reg_H p)
  then map2 Rplus denom (map (Rmult (l2_reg_H p)) h)
  else denom.

Definition row_rates (numer h : vec) : vec :=
  map2 (fun r d => if Rltb d (epsilon p) then 0 else r)
       (map2 Rdiv numer (row_denom h)) (row_denom h).

Definition row_update (numer h : vec) : vec :=
  map2 Rmult h (row_rates numer h).

(** The row [h] after [t] updates against the data row [x]. *)
Definition row_iter (t : nat) (x h : vec) : vec :=
  Nat.iter t (row_update (row_numer x)) h.

(** The number of updates [mu_loop] applies before it stops. *)
Fixpoint mu_steps (iters : nat) (numer h : matrix) : nat :=
  match iters with
  | O => O
  | S m =>
      let h_new := mu_update p W numer h in
      if Rltb (rel_change p h_new h) (h_tol p)
      then 1%nat
      else S (mu_steps m numer h_new)
  end.

End Rows.

(** The state of the chunk loop when it stands at row [idx]: rows below
    [idx] are done, each after a number of updates allowed by [T]; the
    others still hold their initial value. *)
Definition chunk_inv (p : params) (W X H0 : matrix) (T : nat -> Prop)
  (idx : nat) (H_t : matrix) : Prop :=
  nrows H_t = nrows X
  /\ (forall i, (i < idx)%nat -> (i < nrows X)%nat ->
        exists t, T t /\ nth i H_t [] = row_iter p W t (nth i X []) (nth i H0 []))
  /\ (forall i, (idx <= i)%nat -> nth i H_t [] = nth i H0 []).

(** [p] with another chunk size. *)
Definition with_chunk_size (p : params) (c : nat) : params :=
  {| chunk_size := c;
     chunk_max_iter := chunk_max_iter p;
     h_tol := h_tol p;
     l1_reg_H := l1_reg_H p;
     l2_reg_H := l2_reg_H p;
     epsilon := epsilon p |}.

End FitRows.

(** ** A refit whose result depends on the chunk size

    Two data rows over the basis [W = [[1, 1], [0, 1]]], with the default
    tolerance, iteration budget and epsilon of the source.  Row 0 needs a
    second iteration, row 1 meets the tolerance after the first one. *)

Module ExChunk.
Import FitH.

Definition prm (c : nat) : params :=
  {| chunk_size := c;
     chunk_max_iter := 200;
     h_tol := 5 / 100;
     l1_reg_H := 0;
     l2_reg_H := 0;
     epsilon := 1 / 10000000000000000 |}.

Definition W : matrix := [[1; 1]; [0; 1]].
Definition X : matrix := [[0; 0]; [51 / 50; 2]].
Definition H_init : matrix := [[1; 1]; [1; 1]].

(** The result with one row per chunk, and with both rows in one chunk. *)
Definition H_by_row : matrix := [[0; 0]; [151 / 150; 1]].
Definition H_one_chunk : matrix :=
  [[0; 0]; [151 / 150 * (453 / 452); 300 / 301]].

End ExChunk.

(** ** An update that raises the reconstruction error

    One row, one component, [W = [[1]]]: the coefficient [h] reproduces
    [x] exactly, but its denominator is below [epsilon]. *)

Module ExFloor.
Import FitH.

Definition prm : params :=
  {| chunk_size := 5000;
     chunk_max_iter := 200;
     h_tol := 5 / 100;
     l1_reg_H := 0;
     l2_reg_H := 0;
     epsilon := 1 / 10000000000000000 |}.

Definition W : matrix := [[1]].
Definition x : matrix := [[1 / 20000000000000000]].
Definition h : matrix := [[1 / 20000000000000000]].

End ExFloor.

(** The same with regularisation: [h = x] reproduces the data exactly,
    and the regularised update moves away from it. *)

Module ExReg.
Import FitH.

Definition prm (l1 l2 : R) : params :=
  {| chunk_size := 5000;
     chunk_max_iter := 200;
     h_tol := 5 / 100;
     l1_reg_H := l1;
     l2_reg_H := l2;
     epsilon := 1 / 10000000000000000 |}.

Definition W : matrix := [[1]].
Definition x : matrix := [[1]].
Definition h : matrix := [[1]].

End ExReg.

(** The reconstruction error of a chunk: the Frobenius norm of
    [X_chunk - h @ W]. *)
Definition recon_error (W x h : matrix) : R := norm (msub x (matmul h W)).

(** The squared reconstruction error of one row. *)
Definition row_err (W : matrix) (x h : vec) : R :=
  let d := map2 Rminus x (FitRows.row_matmul h W) in dot d d.

(** [F 0 + ... + F (n - 1)] *)
Fixpoint bigsum (n : nat) (F : nat -> R) : R :=
  match n with
  | O => 0
  | S m => bigsum m F + F m
  end.

(** ** The solver's accumulators in closed form *)

Import OLS.

(** [A.T @ C] with the two column counts given. *)
Definition gram (p t : nat) (A C : matrix) : matrix :=
  map (fun i => map (fun j => dot (col i A) (col j C)) (seq 0 t)) (seq 0 p).

(** [Y] as the batches see it. *)
Definition ols_targets (normalize_y : bool) (Y : matrix) : matrix :=
  if normalize_y
  then let (meanY, varY) := get_mean_var Y in
       standardize meanY (std_of_var varY) Y
  else Y.


(** ** Local density in the words of the specification *)

Import Consensus.

(** The distances from row [i] of [M] to the other rows. *)
Definition distances_to_others (i : nat) (M : matrix) : vec :=
  map (distance (nth i M [])) (firstn i M ++ skipn (S i) M).

(** The mean distance from row [i] to its [n] nearest other rows. *)
Definition mean_nearest (n i : nat) (M : matrix) : R :=
  vsum (firstn n (sort_asc (distances_to_others i M))) / INR n.


(** ** The unfiltered case

    The pipeline with no filtering at all: stages 1 and 2 as in the
    source, every row kept, then the same later stages. *)

Definition keep_all_rows (l2 : matrix) (dist : option matrix)
  (density : vec) (st : store) : res staged * store :=
  (Ret {| l2_spectra := l2; topics_dist := dist;
          density_filter := Some (map (fun _ => true) density);
          local_density := Some density |}, st).



(** ** Three replicate programs, one of them far from the others

    The rows have unit norm; the third is at distance 6/5 from the two
    others.  With [k = 1] and [local_neighborhood_size = 0.4] the
    neighbourhood has one row. *)

Module ExDensity.

Definition merged : matrix := [[1; 0]; [1; 0]; [7 / 25; 24 / 25]].
Definition dist : matrix :=
  [[0; 0; 6 / 5]; [0; 0; 6 / 5]; [6 / 5; 6 / 5; 0]].
Definition density : vec := [0; 0; 6 / 5].

End ExDensity.


(** ** A small run of the pipeline

    Stand-ins for the library routines, and inputs over the three
    programs of [ExDensity]. *)

Module ExPipeline.

Definition lib : routines :=
  {| float_str := fun _ => String.EmptyString;
     kmeans := fun _ M => map (fun _ => 1%nat) M;
     groupby_median := fun _ M => firstn 1 M;
     silhouette_score := fun _ _ => 0;
     torch_rand := fun _ r c => repeat (repeat 1 c) r;
     order_desc := fun v => seq 0 (length v);
     lstsq := fun _ B => B;
     scale_columns := fun M => M;
     clustergram := fun D _ _ _ => D;
     build_reference := fun _ _ st => st |}.

Definition inp : inputs :=
  {| merged_spectra := ExDensity.merged;
     norm_counts := [[1; 1]];
     tpm := [[1; 1]];
     tpm_std := [1; 1];
     hvgs := [0%nat; 1%nat];
     run_beta_loss := frobenius;
     online_chunk_size := 5000;
     online_chunk_max_iter := 0;
     l1_ratio_H := 0 |}.

Definition args (skip : bool) (thr : R) : arguments :=
  {| k := 1;
     density_threshold := thr;
     local_neighborhood_size := 4 / 10;
     show_clustering := true;
     build_ref := true;
     skip_density_and_return_after_stats := skip;
     refit_usage_flag := true;
     normalize_tpm_spectra := false |}.

End ExPipeline.


(** ** Rescaled rows *)

(** What the rescaled rows of non-negative spectra have in common:
    [f] entries, none negative, and norm 1. *)
Definition unit_row (f : nat) (u : vec) : Prop :=
  length u = f /\ nonneg u /\ dot u u = 1.

(** ** The replicate files after a run of every job *)

(** The spectra of the job of row [p]. *)
Definition spectra_of (run_nmf : nat -> Z -> matrix) (p : Jobs.replicate)
  : matrix :=
  run_nmf (Jobs.n_components p) (Jobs.nmf_seed p).

(** The files after the job of row [p]. *)
Definition save_row (run_nmf : nat -> Z -> matrix) (fs : Jobs.files)
  (p : Jobs.replicate) : Jobs.files :=
  Jobs.save_iter (Jobs.n_components p) (Jobs.iter p) (spectra_of run_nmf p) fs.

(** ** A stationary point

    One row, one component: [h = 2] solves [x = h W] for [x = 2] and
    [W = [[1]]], and its denominator is above the floor. *)

Module ExStationary.
Import FitH.

Definition prm (iters : nat) : params :=
  {| chunk_size := 1;
     chunk_max_iter := iters;
     h_tol := 5 / 100;
     l1_reg_H := 0;
     l2_reg_H := 0;
     epsilon := 1 / 100 |}.

Definition W : matrix := [[1]].
Definition X : matrix := [[2]].
Definition H : matrix := [[2]].

End ExStationary.

(** ** A small ledger

    Two values of [k], one of them given twice, and two iterations: four
    replicates, for a draw of six seeds. *)

Module ExLedger.
Import Jobs.

Definition randint (n : nat) : list Z := repeat 7%Z n.

Definition ks : ks_arg := many_k [2%nat; 2%nat; 1%nat].

Definition args : prepare_args :=
  {| arg_beta_loss := frobenius;
     alpha_usage := 0;
     alpha_spectra := 0;
     arg_total_workers := (-1)%Z;
     arg_use_gpu := false;
     batch_size := 5000;
     max_iter := 1000 |}.

(** A stand-in for the factorisation: one row that records [k]. *)
Definition run_nmf (k : nat) (seed : Z) : matrix := [[INR k; IZR seed]].

Definition row (k r : nat) : replicate :=
  {| n_components := k; iter := r; nmf_seed := 7%Z; completed := false |}.

Definition rows : list replicate :=
  [row 1 0; row 1 1; row 2 0; row 2 1].

End ExLedger.

(** ** A normal-mode run without the reference spectra *)

Module ExOutputs.

Definition args : arguments :=
  {| k := 1;
     density_threshold := 1;
     local_neighborhood_size := 4 / 10;
     show_clustering := true;
     build_ref := false;
     skip_density_and_return_after_stats := false;
     refit_usage_flag := true;
     normalize_tpm_spectra := false |}.

(** The inputs of [ExPipeline] for a run with another loss. *)
Definition inp_kl : inputs :=
  {| merged_spectra := ExDensity.merged;
     norm_counts := [[1; 1]];
     tpm := [[1; 1]];
     tpm_std := [1; 1];
     hvgs := [0%nat; 1%nat];
     run_beta_loss := kullback_leibler;
     online_chunk_size := 5000;
     online_chunk_max_iter := 0;
     l1_ratio_H := 0 |}.

End ExOutputs.


(** ** An evaluation run with two clusters

    The three programs of [ExDensity] in two clusters: the two equal
    programs, and the third alone. *)

Module ExStats.

Definition lib : routines :=
  {| float_str := fun _ => String.EmptyString;
     kmeans := fun _ M =>
       map (fun i => if (i <? 2)%nat then 1%nat else 2%nat)
         (seq 0 (length M));
     groupby_median := fun _ M => [nth 0 M []; nth 2 M []];
     silhouette_score := fun _ _ => 2 / 3;
     torch_rand := fun _ r c => repeat (repeat 1 c) r;
     order_desc := fun v => seq 0 (length v);
     lstsq := fun _ B => B;
     scale_columns := fun M => M;
     clustergram := fun D _ _ _ => D;
     build_reference := fun _ _ st => st |}.

Definition args : arguments :=
  {| k := 2;
     density_threshold := 1 / 2;
     local_neighborhood_size := 4 / 10;
     show_clustering := false;
     build_ref := false;
     skip_density_and_return_after_stats := true;
     refit_usage_flag := true;
     normalize_tpm_spectra := false |}.

End ExStats.
(** * Properties *)

(** ** Scalars and lists *)

Lemma Rltb_true a b : a < b -> Rltb a b = true.
Proof. unfold Rltb; destruct (Rlt_dec a b); [reflexivity | contradiction]. Qed.

Lemma Rltb_false a b : b <= a -> Rltb a b = false.
Proof. unfold Rltb; destruct (Rlt_dec a b); [lra | reflexivity]. Qed.

Lemma Rltb_spec a b : Rltb a b = true <-> a < b.
Proof.
  unfold Rltb; destruct (Rlt_dec a b); split; intro H;
    try reflexivity; try assumption; try discriminate; contradiction.
Qed.


Lemma clamp0_nonneg a : 0 <= clamp0 a.
Proof.
  unfold clamp0, Rltb. destruct (Rlt_dec a 0); lra.
Qed.

Lemma clamp0_id a : 0 <= a -> clamp0 a = a.
Proof. intro H. unfold clamp0. now rewrite Rltb_false. Qed.

Section ListFacts.

Context {A B C : Type}.

Lemma map2_length (f : A -> B -> C) a b :
  length (map2 f a b) = Nat.min (length a) (length b).
Proof.
  revert b; induction a as [|x a IH]; intros [|y b]; simpl; auto.
Qed.

Lemma map2_length_same (f : A -> B -> C) a b :
  length a = length b -> length (map2 f a b) = length a.
Proof. intro H. rewrite map2_length, <- H. apply Nat.min_id. Qed.

Lemma Forall_map2 (P : A -> Prop) (Q : B -> Prop) (S : C -> Prop)
      (f : A -> B -> C) a b :
  (forall x y, P x -> Q y -> S (f x y)) ->
  Forall P a -> Forall Q b -> Forall S (map2 f a b).
Proof.
  intros Hf Ha; revert b.
  induction Ha as [|x a Hx Ha IH]; intros b Hb; simpl; [constructor|].
  destruct Hb as [|y b Hy Hb]; constructor; auto.
Qed.

Lemma Forall_map2_l (P : A -> Prop) (S : C -> Prop) (f : A -> B -> C) a b :
  (forall x y, P x -> S (f x y)) -> Forall P a -> Forall S (map2 f a b).
Proof.
  intros Hf Ha; revert b.
  induction Ha as [|x a Hx Ha IH]; intros [|y b]; simpl; constructor; auto.
Qed.

Lemma map2_app (f : A -> B -> C) a1 a2 b1 b2 :
  length a1 = length b1 ->
  map2 f (a1 ++ a2) (b1 ++ b2) = map2 f a1 b1 ++ map2 f a2 b2.
Proof.
  revert b1; induction a1 as [|x a1 IH]; intros [|y b1] H; simpl in *;
    try discriminate; [reflexivity|].
  f_equal. apply IH. now injection H.
Qed.

Lemma nth_map2 (f : A -> B -> C) a b i da db dc :
  (i < length a)%nat -> (i < length b)%nat ->
  nth i (map2 f a b) dc = f (nth i a da) (nth i b db).
Proof.
  revert a b; induction i as [|i IH]; intros [|x a] [|y b] Ha Hb;
    simpl in *; try lia; [reflexivity|].
  apply IH; lia.
Qed.

End ListFacts.

Lemma Forall_firstn {T} (P : T -> Prop) n l : Forall P l -> Forall P (firstn n l).
Proof.
  intro H; revert n; induction H; intros [|n]; simpl; constructor; auto.
Qed.

Lemma Forall_skipn {T} (P : T -> Prop) n l : Forall P l -> Forall P (skipn n l).
Proof.
  intro H; revert n; induction H; intros [|n]; simpl; auto.
Qed.

Lemma Forall_slice {T} (P : T -> Prop) a b l : Forall P l -> Forall P (slice a b l).
Proof. intro H. unfold slice. now apply Forall_firstn, Forall_skipn. Qed.

Lemma Forall_assign_slice {T} (P : T -> Prop) a b l h :
  Forall P l -> Forall P h -> Forall P (assign_slice a b l h).
Proof.
  intros Hl Hh. unfold assign_slice.
  apply Forall_app; split; [now apply Forall_firstn|].
  apply Forall_app; split; [assumption | now apply Forall_skipn].
Qed.

Lemma slice_length {T} a b (l : list T) :
  length (slice a b l) = Nat.min (b - a) (length l - a).
Proof. unfold slice. now rewrite length_firstn, length_skipn. Qed.

Lemma assign_slice_length {T} a b (l h : list T) :
  length h = length (slice a b l) -> (a <= b)%nat ->
  length (assign_slice a b l h) = length l.
Proof.
  intros Hh Hab. unfold assign_slice.
  rewrite !length_app, length_firstn, length_skipn, Hh, slice_length. lia.
Qed.

(** ** Non-negativity of the tensor operations *)

Lemma dot_nonneg a b : nonneg a -> nonneg b -> 0 <= dot a b.
Proof.
  intros Ha; revert b.
  induction Ha as [|x a Hx Ha IH]; intros b Hb; simpl; [lra|].
  destruct Hb as [|y b Hy Hb]; [lra|].
  specialize (IH b Hb). nra.
Qed.

Lemma dot_self_nonneg a : 0 <= dot a a.
Proof. induction a as [|x a IH]; simpl; [lra | nra]. Qed.

Lemma nth_nonneg v j : nonneg v -> 0 <= nth j v 0.
Proof.
  intro H; revert j; induction H; intros [|j]; simpl; auto; lra.
Qed.

Lemma col_nonneg j M : mnonneg M -> nonneg (col j M).
Proof.
  intro H. unfold col, nonneg. apply Forall_map.
  eapply Forall_impl; [|exact H]. intros r Hr. now apply nth_nonneg.
Qed.

Lemma transpose_nonneg M : mnonneg M -> mnonneg (transpose M).
Proof.
  intro H. unfold transpose, mnonneg. apply Forall_map, Forall_forall.
  intros j _. now apply col_nonneg.
Qed.

Lemma matmul_nonneg A B : mnonneg A -> mnonneg B -> mnonneg (matmul A B).
Proof.
  intros HA HB. unfold matmul, mnonneg. apply Forall_map.
  eapply Forall_impl; [|exact HA]. intros a Ha.
  apply Forall_map, Forall_forall. intros j _.
  apply dot_nonneg; [assumption | now apply col_nonneg].
Qed.

Lemma clamp_min0_nonneg A : mnonneg (clamp_min0 A).
Proof.
  unfold clamp_min0, mnonneg, nonneg.
  apply Forall_map, Forall_forall; intros r _.
  apply Forall_map, Forall_forall; intros a _. apply clamp0_nonneg.
Qed.

Lemma madd_nonneg A B : mnonneg A -> mnonneg B -> mnonneg (madd A B).
Proof.
  intros HA HB. unfold madd.
  eapply Forall_map2; [|exact HA|exact HB]. intros a b Ha Hb.
  eapply Forall_map2; [|exact Ha|exact Hb]. simpl; intros; lra.
Qed.

Lemma mmul_nonneg A B : mnonneg A -> mnonneg B -> mnonneg (mmul A B).
Proof.
  intros HA HB. unfold mmul.
  eapply Forall_map2; [|exact HA|exact HB]. intros a b Ha Hb.
  eapply Forall_map2; [|exact Ha|exact Hb]. simpl; intros; nra.
Qed.

Lemma mscale_nonneg c A : 0 <= c -> mnonneg A -> mnonneg (mscale c A).
Proof.
  intros Hc HA. unfold mscale, mnonneg, nonneg. apply Forall_map.
  eapply Forall_impl; [|exact HA]. intros r Hr. apply Forall_map.
  eapply Forall_impl; [|exact Hr]. simpl; intros; nra.
Qed.

Lemma vsum_nonneg v : nonneg v -> 0 <= vsum v.
Proof. induction 1; simpl; lra. Qed.

Lemma sumsq_nonneg A : 0 <= sumsq A.
Proof.
  unfold sumsq. apply vsum_nonneg, Forall_map, Forall_forall.
  intros r _. apply dot_self_nonneg.
Qed.

Lemma norm_nonneg A : 0 <= norm A.
Proof. apply sqrt_pos. Qed.

(** ** Row slices *)

Lemma nth_slice {T} a b (l : list T) j d :
  (j < b - a)%nat -> nth j (slice a b l) d = nth (a + j) l d.
Proof.
  intro Hj. unfold slice. rewrite nth_firstn.
  destruct (j <? b - a)%nat eqn:E; [apply nth_skipn|].
  apply Nat.ltb_ge in E. lia.
Qed.

Lemma nth_assign_slice {T} a b (l h : list T) i d :
  (a <= b)%nat -> (a <= length l)%nat -> length h = length (slice a b l) ->
  nth i (assign_slice a b l h) d
  = if (i <? a)%nat then nth i l d
    else if (i <? a + length h)%nat then nth (i - a) h d
    else nth i l d.
Proof.
  intros Hab Hal Hh. unfold assign_slice.
  assert (Hf : length (firstn a l) = a) by (rewrite length_firstn; lia).
  rewrite slice_length in Hh.
  destruct (i <? a)%nat eqn:E1.
  - apply Nat.ltb_lt in E1. rewrite app_nth1 by lia.
    rewrite nth_firstn. apply Nat.ltb_lt in E1. now rewrite E1.
  - apply Nat.ltb_ge in E1. rewrite app_nth2 by lia. rewrite Hf.
    destruct (i <? a + length h)%nat eqn:E2.
    + apply Nat.ltb_lt in E2. now rewrite app_nth1 by lia.
    + apply Nat.ltb_ge in E2. rewrite app_nth2 by lia.
      rewrite nth_skipn.
      destruct (Nat.le_gt_cases (length l) i) as [Hi|Hi].
      * rewrite !nth_overflow by lia. reflexivity.
      * f_equal. lia.
Qed.

(** ** Entries *)

Lemma nth_map2_mult_zero_l a b j :
  nth j a 0 = 0 -> nth j (map2 Rmult a b) 0 = 0.
Proof.
  revert a b; induction j as [|j IH]; intros [|x a] [|y b] H; simpl in *;
    try reflexivity.
  - subst; lra.
  - now apply IH.
Qed.

Lemma nth_map2_mult_zero_r a b j :
  nth j b 0 = 0 -> nth j (map2 Rmult a b) 0 = 0.
Proof.
  revert a b; induction j as [|j IH]; intros [|x a] [|y b] H; simpl in *;
    try reflexivity.
  - subst; lra.
  - now apply IH.
Qed.

Lemma entry_map2_rows (f : vec -> vec -> vec) A B i j :
  f [] [] = [] ->
  (forall a, nth j (f a []) 0 = 0) -> (forall b, nth j (f [] b) 0 = 0) ->
  entry (map2 f A B) i j = nth j (f (nth i A []) (nth i B [])) 0.
Proof.
  intros Hf Ha Hb. unfold entry.
  revert A B; induction i as [|i IH]; intros [|a A] [|b B]; simpl;
    rewrite ?Hf, ?Ha, ?Hb; try reflexivity; try (now destruct j).
Qed.

Lemma entry_map2_rows_in (f : vec -> vec -> vec) A B i j :
  entry (map2 f A B) i j
  = if ((i <? length A) && (i <? length B))%nat
    then nth j (f (nth i A []) (nth i B [])) 0
    else 0.
Proof.
  unfold entry.
  revert A B; induction i as [|i IH]; intros [|a A] [|b B]; simpl;
    rewrite ?andb_false_r; try (now destruct j).
Qed.

(** ** [fit_H_online]: the result is entrywise non-negative *)

Module FitHFacts.
Import FitH.

Section Nonneg.

Variable p : params.
Variable W : matrix.
Hypothesis eps_pos : 0 < epsilon p.
Hypothesis W_nonneg : mnonneg W.

Lemma WWT_nonneg : mnonneg (WWT W).
Proof. apply matmul_nonneg; [|apply transpose_nonneg]; assumption. Qed.

Lemma mu_numer_nonneg x : mnonneg x -> mnonneg (mu_numer p W x).
Proof.
  intro Hx. unfold mu_numer.
  destruct (Rltb 0 (l1_reg_H p)); [apply clamp_min0_nonneg|].
  apply matmul_nonneg; [|apply transpose_nonneg]; assumption.
Qed.

Lemma mu_denom_nonneg h : mnonneg h -> mnonneg (mu_denom p W h).
Proof.
  intro Hh. unfold mu_denom.
  pose proof (matmul_nonneg h (WWT W) Hh WWT_nonneg) as Hd.
  destruct (Rltb 0 (l2_reg_H p)) eqn:E; [|exact Hd].
  apply madd_nonneg; [exact Hd|].
  apply mscale_nonneg; [|exact Hh].
  apply Rltb_spec in E. lra.
Qed.

(** A ratio that is kept has a denominator of at least [epsilon], so it
    is the quotient of a non-negative by a positive number. *)
Lemma mu_rates_nonneg numer h :
  mnonneg numer -> mnonneg h -> mnonneg (mu_rates p W numer h).
Proof.
  intros Hn Hh. unfold mu_rates, zero_where_below, mdiv.
  pose proof (mu_denom_nonneg h Hh) as Hd.
  revert Hn Hd. generalize (mu_denom p W h) as denom. intros denom Hn.
  revert denom. induction Hn as [|n numer Hn0 Hn IH]; intros [|d denom] Hd;
    simpl; try constructor.
  - inversion Hd as [|? ? Hd0 Hd']; subst. clear IH Hd Hd' Hn.
    revert d Hd0. induction Hn0 as [|a n Ha Hn0 IH]; intros [|b d] Hd;
      simpl; constructor.
    + inversion Hd; subst. destruct (Rltb b (epsilon p)) eqn:E; [lra|].
      assert (epsilon p <= b).
      { unfold Rltb in E. destruct (Rlt_dec b (epsilon p)); [discriminate|lra]. }
      apply Rmult_le_pos; [assumption|].
      left. apply Rinv_0_lt_compat. lra.
    + apply IH. now inversion Hd.
  - apply IH. now inversion Hd.
Qed.

Lemma mu_update_nonneg numer h :
  mnonneg numer -> mnonneg h -> mnonneg (mu_update p W numer h).
Proof.
  intros Hn Hh. unfold mu_update.
  apply mmul_nonneg; [assumption | now apply mu_rates_nonneg].
Qed.

Lemma mu_loop_nonneg iters numer h :
  mnonneg numer -> mnonneg h -> mnonneg (mu_loop p W iters numer h).
Proof.
  intro Hn. revert h. induction iters as [|m IH]; intros h Hh; simpl; auto.
  pose proof (mu_update_nonneg numer h Hn Hh).
  destruct (Rltb _ _); auto.
Qed.

Lemma fit_chunk_nonneg X_t H_t idx :
  mnonneg X_t -> mnonneg H_t -> mnonneg (fit_chunk p W X_t H_t idx).
Proof.
  intros HX HH. unfold fit_chunk.
  apply Forall_assign_slice; [assumption|].
  apply mu_loop_nonneg.
  - apply mu_numer_nonneg. now apply Forall_slice.
  - now apply Forall_slice.
Qed.

Lemma chunk_loop_nonneg fuel X_t H_t idx H :
  mnonneg X_t -> mnonneg H_t ->
  chunk_loop p W fuel X_t H_t idx = Some H -> mnonneg H.
Proof.
  intro HX. revert H_t idx.
  induction fuel as [|fuel IH]; intros H_t idx HH; simpl;
    destruct (nrows X_t <=? idx)%nat; intro E; try discriminate;
    try (injection E as <-; assumption).
  eapply IH; [|exact E]. now apply fit_chunk_nonneg.
Qed.

End Nonneg.

(** The chunk loop ends: each pass advances [idx] by [chunk_size >= 1]. *)
Lemma chunk_loop_terminates p W fuel X_t H_t idx :
  (0 < chunk_size p)%nat -> (nrows X_t - idx <= fuel)%nat ->
  exists H, chunk_loop p W fuel X_t H_t idx = Some H.
Proof.
  intro Hc. revert H_t idx.
  induction fuel as [|fuel IH]; intros H_t idx Hf; simpl;
    destruct (nrows X_t <=? idx)%nat eqn:E; eauto.
  - apply Nat.leb_gt in E. lia.
  - apply IH. apply Nat.leb_gt in E. lia.
Qed.

End FitHFacts.

(** ** The inner loop acts row by row *)

Module FitRowsFacts.
Import FitH FitRows.

Section Rowwise.

Variable p : params.
Variable W : matrix.

Lemma matmul_rowwise A B : matmul A B = map (fun a => row_matmul a B) A.
Proof. reflexivity. Qed.

Lemma mu_numer_rowwise x : mu_numer p W x = map (row_numer p W) x.
Proof.
  unfold mu_numer, row_numer, clamp_min0, msub_scalar.
  rewrite matmul_rowwise.
  destruct (Rltb 0 (l1_reg_H p)); [|reflexivity].
  now rewrite !map_map.
Qed.

Lemma mu_denom_rowwise h : mu_denom p W h = map (row_denom p W) h.
Proof.
  unfold mu_denom, row_denom, madd, mscale. rewrite matmul_rowwise.
  destruct (Rltb 0 (l2_reg_H p)); [|reflexivity].
  induction h as [|r h IH]; simpl; [reflexivity | now rewrite IH].
Qed.

Lemma mu_update_rowwise numer h :
  mu_update p W numer h = map2 (row_update p W) numer h.
Proof.
  unfold mu_update, mu_rates, mmul, zero_where_below, mdiv.
  rewrite mu_denom_rowwise.
  revert numer; induction h as [|r h IH]; intros [|n numer]; simpl;
    try reflexivity.
  now rewrite IH.
Qed.

Lemma mu_loop_steps iters numer h :
  mu_loop p W iters numer h
  = Nat.iter (mu_steps p W iters numer h) (mu_update p W numer) h.
Proof.
  revert h; induction iters as [|m IH]; intro h; simpl; [reflexivity|].
  destruct (Rltb _ _); [reflexivity|].
  rewrite IH. now rewrite <- Nat.iter_succ_r.
Qed.

Lemma mu_steps_le iters numer h : (mu_steps p W iters numer h <= iters)%nat.
Proof.
  revert h; induction iters as [|m IH]; intro h; simpl; [lia|].
  destruct (Rltb _ _); [lia|]. specialize (IH (mu_update p W numer h)). lia.
Qed.

(** With a positive [epsilon] the relative change is never negative, so a
    tolerance [h_tol <= 0] never stops the loop early. *)
Lemma rel_change_nonneg h_new h : 0 < epsilon p -> 0 <= rel_change p h_new h.
Proof.
  intro He. unfold rel_change.
  pose proof (norm_nonneg (msub h_new h)). pose proof (norm_nonneg h).
  apply Rmult_le_pos; [assumption|].
  left; apply Rinv_0_lt_compat; lra.
Qed.

Lemma mu_steps_no_stop iters numer h :
  0 < epsilon p -> h_tol p <= 0 -> mu_steps p W iters numer h = iters.
Proof.
  intros He Ht. revert h; induction iters as [|m IH]; intro h; simpl;
    [reflexivity|].
  rewrite Rltb_false; [now rewrite IH|].
  pose proof (rel_change_nonneg (mu_update p W numer h) h He). lra.
Qed.

Lemma iter_update_rowwise t numer h :
  length numer = length h ->
  Nat.iter t (mu_update p W numer) h
  = map2 (fun n r => Nat.iter t (row_update p W n) r) numer h.
Proof.
  intro Hl. induction t as [|t IH]; simpl.
  - revert numer Hl; induction h as [|r h IH]; intros [|n numer] Hl;
      simpl in *; try discriminate; [reflexivity|].
    f_equal. apply IH. now injection Hl.
  - rewrite IH, mu_update_rowwise. clear IH.
    revert numer Hl; induction h as [|r h IH]; intros [|n numer] Hl;
      simpl in *; try discriminate; [reflexivity|].
    f_equal. apply IH. now injection Hl.
Qed.

(** What [mu_loop] returns for a chunk: every row has been updated the
    same number of times, against its own data row only. *)
Lemma mu_loop_rowwise iters x h :
  length x = length h ->
  mu_loop p W iters (mu_numer p W x) h
  = map2 (row_iter p W (mu_steps p W iters (mu_numer p W x) h)) x h.
Proof.
  intro Hl. rewrite mu_loop_steps, iter_update_rowwise.
  - rewrite mu_numer_rowwise. unfold row_iter.
    generalize (mu_steps p W iters (map (row_numer p W) x) h) as t. intro t.
    revert h Hl; induction x as [|a x IH]; intros [|r h] Hl; simpl in *;
      try discriminate; [reflexivity|].
    f_equal. apply IH. now injection Hl.
  - rewrite mu_numer_rowwise, length_map. exact Hl.
Qed.

End Rowwise.

End FitRowsFacts.

(** ** The chunk loop, row by row *)

Module ChunkFacts.
Import FitH FitRows FitRowsFacts.

Section Chunks.

Variable p : params.
Variable W : matrix.
Variables X H0 : matrix.
Hypothesis rows_agree : nrows H0 = nrows X.
Hypothesis chunk_pos : (0 < chunk_size p)%nat.

(** [T t] holds of every iteration count the inner loop can stop at. *)
Variable T : nat -> Prop.
Hypothesis T_steps :
  forall numer h, T (mu_steps p W (chunk_max_iter p) numer h).

Lemma chunk_inv_init : chunk_inv p W X H0 T 0 H0.
Proof. repeat split; auto. intros i Hi; lia. Qed.

Lemma fit_chunk_inv idx H_t :
  (idx < nrows X)%nat -> chunk_inv p W X H0 T idx H_t ->
  chunk_inv p W X H0 T (idx + chunk_size p) (fit_chunk p W X H_t idx).
Proof.
  intros Hidx (Hlen & Hdone & Htodo). unfold chunk_inv, nrows in *.
  unfold fit_chunk.
  set (b := (idx + chunk_size p)%nat).
  set (x := slice idx b X). set (h := slice idx b H_t).
  assert (Hxh : length x = length h).
  { unfold x, h. rewrite !slice_length. lia. }
  rewrite (mu_loop_rowwise p W _ x h Hxh).
  set (t := mu_steps p W (chunk_max_iter p) (mu_numer p W x) h).
  set (h' := map2 (row_iter p W t) x h).
  assert (Hh' : length h' = length (slice idx b H_t)).
  { unfold h'. rewrite map2_length_same by exact Hxh. exact Hxh. }
  assert (Hlh : length h' = Nat.min (chunk_size p) (length X - idx)).
  { rewrite Hh', slice_length. unfold b. lia. }
  assert (Hnth : forall i,
    nth i (assign_slice idx b H_t h') []
    = if (i <? idx)%nat then nth i H_t []
      else if (i <? idx + length h')%nat then nth (i - idx) h' []
      else nth i H_t []).
  { intro i. apply nth_assign_slice; unfold b; try lia. exact Hh'. }
  split; [|split].
  - rewrite assign_slice_length; unfold b; try lia. exact Hh'.
  - intros i Hib Hin. rewrite Hnth.
    destruct (i <? idx)%nat eqn:E1.
    + apply Nat.ltb_lt in E1. now apply Hdone.
    + apply Nat.ltb_ge in E1.
      assert (E2 : (i <? idx + length h')%nat = true).
      { apply Nat.ltb_lt. unfold b in Hib. lia. }
      rewrite E2. exists t. split; [apply T_steps|].
      unfold h'.
      rewrite (nth_map2 (row_iter p W t) x h (i - idx) [] [] []).
      * unfold x, h. rewrite !nth_slice by (unfold b; lia).
        replace (idx + (i - idx))%nat with i by lia.
        now rewrite (Htodo i E1).
      * unfold x. rewrite slice_length. unfold b. lia.
      * rewrite <- Hxh. unfold x. rewrite slice_length. unfold b. lia.
  - intros i Hi. rewrite Hnth.
    assert (E1 : (i <? idx)%nat = false) by (apply Nat.ltb_ge; unfold b in Hi; lia).
    rewrite E1.
    destruct (i <? idx + length h')%nat eqn:E2.
    + apply Nat.ltb_lt in E2. unfold b in Hi. lia.
    + apply Htodo. lia.
Qed.

Lemma chunk_loop_inv fuel idx H_t :
  (nrows X - idx <= fuel)%nat -> chunk_inv p W X H0 T idx H_t ->
  exists H, chunk_loop p W fuel X H_t idx = Some H
            /\ exists idx', (nrows X <= idx')%nat /\ chunk_inv p W X H0 T idx' H.
Proof.
  revert idx H_t. induction fuel as [|fuel IH]; intros idx H_t Hf Hinv; simpl;
    destruct (nrows X <=? idx)%nat eqn:E.
  - apply Nat.leb_le in E. eauto.
  - apply Nat.leb_gt in E. lia.
  - apply Nat.leb_le in E. eauto.
  - apply Nat.leb_gt in E. apply IH; [lia|]. now apply fit_chunk_inv.
Qed.

(** The refit returns, and row [i] of the result is row [i] of the
    initial [H] after [t] updates against row [i] of [X], for an
    admissible [t]. *)
Lemma chunk_loop_rows fuel :
  (nrows X <= fuel)%nat ->
  exists H, chunk_loop p W fuel X H0 0 = Some H
    /\ nrows H = nrows X
    /\ forall i, (i < nrows X)%nat ->
         exists t, T t /\ nth i H [] = row_iter p W t (nth i X []) (nth i H0 []).
Proof.
  intro Hf.
  destruct (chunk_loop_inv fuel 0 H0) as (H & E & idx' & Hi & Hlen & Hdone & _).
  - lia.
  - apply chunk_inv_init.
  - exists H. repeat split; auto. intros i Hin. apply Hdone; lia.
Qed.

End Chunks.

End ChunkFacts.

(** ** Entries of one update *)

Module FitEntryFacts.
Import FitH FitRows FitHFacts FitRowsFacts ChunkFacts.

Lemma row_update_zero p W numer h j :
  nth j h 0 = 0 -> nth j (row_update p W numer h) 0 = 0.
Proof. intro H. unfold row_update. now apply nth_map2_mult_zero_l. Qed.

Lemma row_iter_zero p W t x h j :
  nth j h 0 = 0 -> nth j (row_iter p W t x h) 0 = 0.
Proof.
  intro H. unfold row_iter. induction t as [|t IH]; simpl; [assumption|].
  now apply row_update_zero.
Qed.

Lemma row_iter_add p W s t x h :
  row_iter p W (s + t) x h = row_iter p W s x (row_iter p W t x h).
Proof. unfold row_iter. apply Nat.iter_add. Qed.

Lemma entry_mu_update p W numer h i j :
  entry (mu_update p W numer h) i j
  = nth j (row_update p W (nth i numer []) (nth i h [])) 0.
Proof.
  rewrite mu_update_rowwise. apply entry_map2_rows.
  - reflexivity.
  - intro a. unfold row_update. simpl. now destruct j.
  - intro b. unfold row_update, row_rates. simpl. destruct b; now destruct j.
Qed.

Lemma mu_update_zero p W numer h i j :
  entry h i j = 0 -> entry (mu_update p W numer h) i j = 0.
Proof. intro H. rewrite entry_mu_update. now apply row_update_zero. Qed.

Lemma mu_loop_zero p W iters numer h i j :
  entry h i j = 0 -> entry (mu_loop p W iters numer h) i j = 0.
Proof.
  revert h; induction iters as [|m IH]; intros h H; simpl; [assumption|].
  pose proof (mu_update_zero p W numer h i j H).
  destruct (Rltb _ _); auto.
Qed.

Lemma nth_masked_ratio eps numer denom j :
  nth j denom 0 < eps ->
  nth j (map2 (fun r d => if Rltb d eps then 0 else r)
              (map2 Rdiv numer denom) denom) 0 = 0.
Proof.
  revert numer denom; induction j as [|j IH]; intros [|n numer] [|d denom] H;
    simpl in *; try reflexivity.
  - now rewrite Rltb_true.
  - now apply IH.
Qed.

Lemma nth_zero_numer_ratio eps numer denom j :
  nth j numer 0 = 0 ->
  nth j (map2 (fun r d => if Rltb d eps then 0 else r)
              (map2 Rdiv numer denom) denom) 0 = 0.
Proof.
  revert numer denom; induction j as [|j IH]; intros [|n numer] [|d denom] H;
    simpl in *; try reflexivity.
  - subst. destruct (Rltb d eps); [reflexivity | unfold Rdiv; lra].
  - now apply IH.
Qed.

Lemma mu_rates_rowwise p W numer h :
  mu_rates p W numer h = map2 (row_rates p W) numer h.
Proof.
  unfold mu_rates, zero_where_below, mdiv. rewrite mu_denom_rowwise.
  revert numer; induction h as [|r h IH]; intros [|n numer]; simpl;
    try reflexivity.
  now rewrite IH.
Qed.

Lemma entry_mu_denom p W h i j :
  (i < nrows h)%nat ->
  entry (mu_denom p W h) i j = nth j (row_denom p W (nth i h [])) 0.
Proof.
  intro Hi. rewrite mu_denom_rowwise. unfold entry.
  rewrite (nth_indep _ [] (row_denom p W [])) by (now rewrite length_map).
  now rewrite map_nth.
Qed.

Lemma mu_rates_floor p W numer h i j :
  entry (mu_denom p W h) i j < epsilon p ->
  entry (mu_rates p W numer h) i j = 0.
Proof.
  intro Hd. rewrite mu_rates_rowwise, entry_map2_rows_in.
  destruct ((i <? length numer) && (i <? length h))%nat eqn:E;
    [|reflexivity].
  apply andb_prop in E. destruct E as [_ E]. apply Nat.ltb_lt in E.
  unfold row_rates. apply nth_masked_ratio.
  now rewrite <- entry_mu_denom.
Qed.

Lemma mmul_zero_r h rates i j :
  entry rates i j = 0 -> entry (mmul h rates) i j = 0.
Proof.
  unfold mmul, entry. revert h rates. induction i as [|i IH];
    intros [|r h] [|q rates] Hq; simpl in *; try (now destruct j).
  - now apply nth_map2_mult_zero_r.
  - now apply IH.
Qed.

Lemma mu_update_floor p W numer h i j :
  entry (mu_denom p W h) i j < epsilon p ->
  entry (mu_update p W numer h) i j = 0.
Proof.
  intro Hd. unfold mu_update. now apply mmul_zero_r, mu_rates_floor.
Qed.

Lemma mu_update_zero_numer p W numer h i j :
  entry numer i j = 0 -> entry (mu_update p W numer h) i j = 0.
Proof.
  intro Hn. unfold mu_update. apply mmul_zero_r.
  rewrite mu_rates_rowwise, entry_map2_rows_in.
  destruct ((i <? length numer) && (i <? length h))%nat; [|reflexivity].
  unfold row_rates. now apply nth_zero_numer_ratio.
Qed.

(** The refit with its result described row by row. *)
Lemma fit_rows p W X H_init rnd fuel (T : nat -> Prop) :
  (0 < chunk_size p)%nat ->
  (nrows X <= fuel)%nat ->
  nrows (init_H H_init rnd) = nrows X ->
  (forall numer h, T (mu_steps p W (chunk_max_iter p) numer h)) ->
  exists H,
    fit_H_online p W fuel X H_init rnd = Some H
    /\ nrows H = nrows X
    /\ forall i, (i < nrows X)%nat ->
         exists t, T t
           /\ nth i H [] = row_iter p W t (nth i X []) (nth i (init_H H_init rnd) []).
Proof.
  intros Hc Hf Hrows HT. unfold fit_H_online.
  now apply chunk_loop_rows.
Qed.

End FitEntryFacts.

(** ** Finite sums *)

Module SumFacts.

Lemma bigsum_ext n F G :
  (forall i, (i < n)%nat -> F i = G i) -> bigsum n F = bigsum n G.
Proof.
  induction n as [|n IH]; intro H; simpl; [reflexivity|].
  rewrite IH, H by (intros; try apply H; lia). reflexivity.
Qed.

Lemma bigsum_plus n F G :
  bigsum n (fun i => F i + G i) = bigsum n F + bigsum n G.
Proof. induction n as [|n IH]; simpl; [lra | rewrite IH; lra]. Qed.

Lemma bigsum_minus n F G :
  bigsum n (fun i => F i - G i) = bigsum n F - bigsum n G.
Proof. induction n as [|n IH]; simpl; [lra | rewrite IH; lra]. Qed.

Lemma bigsum_scal n c F :
  bigsum n (fun i => c * F i) = c * bigsum n F.
Proof. induction n as [|n IH]; simpl; [lra | rewrite IH; lra]. Qed.

Lemma bigsum_scal_r n c F :
  bigsum n (fun i => F i * c) = bigsum n F * c.
Proof. induction n as [|n IH]; simpl; [lra | rewrite IH; lra]. Qed.

Lemma bigsum_zero n : bigsum n (fun _ => 0) = 0.
Proof. induction n as [|n IH]; simpl; [lra | rewrite IH; lra]. Qed.

Lemma bigsum_swap n m (F : nat -> nat -> R) :
  bigsum n (fun i => bigsum m (fun j => F i j))
  = bigsum m (fun j => bigsum n (fun i => F i j)).
Proof.
  induction n as [|n IH]; simpl.
  - now rewrite bigsum_zero.
  - now rewrite IH, bigsum_plus.
Qed.

Lemma bigsum_le n F G :
  (forall i, (i < n)%nat -> F i <= G i) -> bigsum n F <= bigsum n G.
Proof.
  induction n as [|n IH]; intro H; simpl; [lra|].
  assert (bigsum n F <= bigsum n G) by (apply IH; intros; apply H; lia).
  assert (F n <= G n) by (apply H; lia). lra.
Qed.

Lemma bigsum_nonpos n F :
  (forall i, (i < n)%nat -> F i <= 0) -> bigsum n F <= 0.
Proof.
  intro H. rewrite <- (bigsum_zero n). now apply bigsum_le.
Qed.

Lemma bigsum_shift n F :
  bigsum (S n) F = F O + bigsum n (fun i => F (S i)).
Proof.
  induction n as [|n IH]; simpl; [lra|].
  simpl in IH. rewrite IH. lra.
Qed.

Lemma bigsum_mult n m F G :
  bigsum n F * bigsum m G = bigsum n (fun i => bigsum m (fun j => F i * G j)).
Proof.
  induction n as [|n IH]; simpl; [lra|].
  rewrite <- IH, bigsum_scal. lra.
Qed.

Lemma dot_bigsum a b n :
  length a = n -> length b = n ->
  dot a b = bigsum n (fun i => nth i a 0 * nth i b 0).
Proof.
  revert a b; induction n as [|n IH]; intros [|x a] [|y b] Ha Hb;
    simpl in *; try discriminate; [reflexivity|].
  change (x * y + dot a b = bigsum (S n) (fun i => nth i (x :: a) 0 * nth i (y :: b) 0)).
  rewrite bigsum_shift. simpl. f_equal. apply IH; lia.
Qed.

Lemma nth_map_seq (F : nat -> R) n i :
  (i < n)%nat -> nth i (map F (seq 0 n)) 0 = F i.
Proof.
  intro Hi. rewrite (nth_indep _ 0 (F O)) by (now rewrite length_map, length_seq).
  rewrite (map_nth F (seq 0 n) O i). now rewrite seq_nth.
Qed.

Lemma nth_col g W l : nth l (col g W) 0 = nth g (nth l W []) 0.
Proof.
  unfold col. revert W; induction l as [|l IH]; intros [|r W]; simpl;
    try (now destruct g); auto.
Qed.

Lemma nth_map2_minus a b i :
  (i < length a)%nat -> (i < length b)%nat ->
  nth i (map2 Rminus a b) 0 = nth i a 0 - nth i b 0.
Proof. intros. now apply nth_map2. Qed.

End SumFacts.

Module Descent.
Import SumFacts.

Section Descent.

Variables k f : nat.
Variables x h u : nat -> R.
Variable Wf : nat -> nat -> R.

Hypothesis W_nonneg : forall l g, 0 <= Wf l g.
Hypothesis h_nonneg : forall l, 0 <= h l.

Let b (j : nat) : R := bigsum f (fun g => x g * Wf j g).
Let A (l j : nat) : R := bigsum f (fun g => Wf l g * Wf j g).
Let d (j : nat) : R := bigsum k (fun l => h l * A l j).

(** What the update rule gives: where [h j] is positive, the ratio
    [1 + u j] is [b j / d j]. *)
Hypothesis rate_eq :
  forall j, (j < k)%nat -> h j * (b j - d j) = h j * u j * d j.

Let hW (g : nat) : R := bigsum k (fun l => h l * Wf l g).
Let dW (g : nat) : R := bigsum k (fun l => h l * u l * Wf l g).
Let hW' (g : nat) : R := bigsum k (fun l => h l * (1 + u l) * Wf l g).

Lemma A_sym l j : A l j = A j l.
Proof. unfold A. apply bigsum_ext. intros; lra. Qed.

Lemma A_nonneg l j : 0 <= A l j.
Proof.
  unfold A. rewrite <- (bigsum_zero f). apply bigsum_le.
  intros g _. pose proof (W_nonneg l g). pose proof (W_nonneg j g). nra.
Qed.

Lemma hW'_split g : hW' g = hW g + dW g.
Proof.
  unfold hW', hW, dW. rewrite <- bigsum_plus. apply bigsum_ext.
  intros; lra.
Qed.

Lemma W_hW l : bigsum f (fun g => Wf l g * hW g) = d l.
Proof.
  unfold hW, d, A.
  transitivity (bigsum f (fun g => bigsum k (fun m => h m * (Wf m g * Wf l g)))).
  - apply bigsum_ext. intros g _. rewrite <- bigsum_scal.
    apply bigsum_ext. intros; lra.
  - rewrite bigsum_swap. apply bigsum_ext. intros m _.
    now rewrite bigsum_scal.
Qed.

Lemma cross_term :
  bigsum f (fun g => dW g * (x g - hW g))
  = bigsum k (fun l => bigsum k (fun m => h l * h m * A l m * (u l * u l))).
Proof.
  transitivity (bigsum k (fun l => u l * (h l * (b l - d l)))).
  - unfold dW.
    transitivity (bigsum f (fun g =>
       bigsum k (fun l => h l * u l * (Wf l g * (x g - hW g))))).
    { apply bigsum_ext. intros g _. rewrite <- bigsum_scal_r.
      apply bigsum_ext. intros; lra. }
    rewrite bigsum_swap. apply bigsum_ext. intros l _.
    rewrite bigsum_scal.
    replace (bigsum f (fun g => Wf l g * (x g - hW g))) with (b l - d l).
    + lra.
    + rewrite <- W_hW. unfold b. rewrite <- bigsum_minus.
      apply bigsum_ext. intros; lra.
  - apply bigsum_ext. intros l Hl. rewrite (rate_eq l Hl).
    unfold d. rewrite <- !bigsum_scal. apply bigsum_ext. intros m _.
    rewrite (A_sym m l). lra.
Qed.

Lemma cross_term' :
  bigsum f (fun g => dW g * (x g - hW g))
  = bigsum k (fun l => bigsum k (fun m => h l * h m * A l m * (u m * u m))).
Proof.
  rewrite cross_term, bigsum_swap. apply bigsum_ext. intros l _.
  apply bigsum_ext. intros m _. rewrite (A_sym m l). lra.
Qed.

Lemma square_term :
  bigsum f (fun g => dW g * dW g)
  = bigsum k (fun l => bigsum k (fun m => h l * h m * A l m * (u l * u m))).
Proof.
  transitivity (bigsum f (fun g => bigsum k (fun l => bigsum k (fun m =>
     h l * h m * (u l * u m) * (Wf l g * Wf m g))))).
  - apply bigsum_ext. intros g _. unfold dW. rewrite bigsum_mult.
    apply bigsum_ext. intros l _. apply bigsum_ext. intros; lra.
  - rewrite bigsum_swap. apply bigsum_ext. intros l _.
    rewrite bigsum_swap. apply bigsum_ext. intros m _.
    unfold A. rewrite bigsum_scal. lra.
Qed.

(** One multiplicative update does not increase the squared error of
    the row. *)
Lemma mu_descent :
  bigsum f (fun g => (x g - hW' g) * (x g - hW' g))
  <= bigsum f (fun g => (x g - hW g) * (x g - hW g)).
Proof.
  assert (E : bigsum f (fun g => (x g - hW' g) * (x g - hW' g))
            = bigsum f (fun g => (x g - hW g) * (x g - hW g))
              + (bigsum f (fun g => dW g * dW g)
                 - bigsum f (fun g => dW g * (x g - hW g))
                 - bigsum f (fun g => dW g * (x g - hW g)))).
  { rewrite <- !bigsum_minus, <- bigsum_plus. apply bigsum_ext.
    intros g _. rewrite hW'_split. lra. }
  rewrite E. rewrite cross_term at 1. rewrite cross_term', square_term.
  rewrite <- !bigsum_minus.
  assert (bigsum k (fun l =>
            bigsum k (fun m => h l * h m * A l m * (u l * u m))
            - bigsum k (fun m => h l * h m * A l m * (u l * u l))
            - bigsum k (fun m => h l * h m * A l m * (u m * u m))) <= 0);
    [|lra].
  apply bigsum_nonpos. intros l _. rewrite <- !bigsum_minus.
  apply bigsum_nonpos. intros m _.
  pose proof (h_nonneg l). pose proof (h_nonneg m).
  pose proof (A_nonneg l m).
  assert (0 <= h l * h m * A l m) by (repeat apply Rmult_le_pos; assumption).
  assert (u l * u m - u l * u l - u m * u m <= 0) by nra.
  nra.
Qed.

End Descent.
End Descent.

Module RowDescent.
Import SumFacts FitRows.

Lemma nth_map2_mult a b j :
  length a = length b ->
  nth j (map2 Rmult a b) 0 = nth j a 0 * nth j b 0.
Proof.
  revert a b; induction j as [|j IH]; intros [|x a] [|y b] H; simpl in *;
    try discriminate; try lra; auto.
Qed.

Lemma ncols_map (F : vec -> vec) (M : matrix) :
  (0 < length M)%nat -> ncols (map F M) = length (F (hd [] M)).
Proof. destruct M; simpl; [lia | reflexivity]. Qed.

Section Shapes.

Variable W : matrix.
Variables k f : nat.
Hypothesis W_rows : length W = k.
Hypothesis W_cols : has_cols f W.
Hypothesis k_pos : (0 < k)%nat.
Hypothesis f_pos : (0 < f)%nat.

Let Wf (l g : nat) : R := nth g (nth l W []) 0.

Lemma ncols_W : ncols W = f.
Proof.
  destruct W as [|r W']; simpl in *; [lia|]. now inversion W_cols.
Qed.

Lemma nth_row_length l : (l < k)%nat -> length (nth l W []) = f.
Proof.
  intro Hl. unfold has_cols in W_cols. rewrite Forall_forall in W_cols.
  apply W_cols, nth_In. lia.
Qed.

Lemma length_col g : length (col g W) = k.
Proof. unfold col. now rewrite length_map. Qed.

Lemma ncols_transpose : ncols (transpose W) = k.
Proof.
  unfold transpose. rewrite ncols_W.
  destruct f as [|f']; [lia|]. simpl. apply length_col.
Qed.

Lemma col_transpose j :
  col j (transpose W) = map (fun g => Wf j g) (seq 0 f).
Proof.
  unfold col at 1, transpose. rewrite ncols_W, map_map.
  apply map_ext. intro g. apply nth_col.
Qed.

(** [row @ W] *)
Lemma row_matmul_W (h : vec) :
  length h = k ->
  row_matmul h W
  = map (fun g => bigsum k (fun l => nth l h 0 * Wf l g)) (seq 0 f).
Proof.
  intro Hh. unfold row_matmul. rewrite ncols_W. apply map_ext. intro g.
  rewrite (dot_bigsum h (col g W) k Hh (length_col g)).
  apply bigsum_ext. intros l _. now rewrite nth_col.
Qed.

(** [row @ W.T] *)
Lemma row_matmul_WT (x : vec) :
  length x = f ->
  row_matmul x (transpose W)
  = map (fun j => bigsum f (fun g => nth g x 0 * Wf j g)) (seq 0 k).
Proof.
  intro Hx. unfold row_matmul. rewrite ncols_transpose. apply map_ext_in.
  intros j Hj. rewrite col_transpose.
  rewrite (dot_bigsum x _ f Hx) by (now rewrite length_map, length_seq).
  apply bigsum_ext. intros g Hg. now rewrite nth_map_seq.
Qed.

Lemma entry_WWT l j :
  (l < k)%nat -> (j < k)%nat ->
  nth j (nth l (FitH.WWT W) []) 0 = bigsum f (fun g => Wf l g * Wf j g).
Proof.
  intros Hl Hj. unfold FitH.WWT. rewrite FitRowsFacts.matmul_rowwise.
  rewrite (nth_indep _ [] (row_matmul [] (transpose W)))
    by (rewrite length_map; lia).
  rewrite (map_nth (fun a => row_matmul a (transpose W))).
  rewrite row_matmul_WT by (now apply nth_row_length).
  now rewrite nth_map_seq.
Qed.

Lemma WWT_rows : length (FitH.WWT W) = k.
Proof. unfold FitH.WWT, matmul. now rewrite length_map. Qed.

Lemma ncols_WWT : ncols (FitH.WWT W) = k.
Proof.
  unfold FitH.WWT, matmul. rewrite ncols_map by lia.
  rewrite length_map, length_seq. apply ncols_transpose.
Qed.

(** [row @ WWT] *)
Lemma row_matmul_WWT (h : vec) :
  length h = k ->
  row_matmul h (FitH.WWT W)
  = map (fun j => bigsum k (fun l =>
           nth l h 0 * bigsum f (fun g => Wf l g * Wf j g))) (seq 0 k).
Proof.
  intro Hh. unfold row_matmul. rewrite ncols_WWT. apply map_ext_in.
  intros j Hj. apply in_seq in Hj.
  rewrite (dot_bigsum h (col j (FitH.WWT W)) k Hh)
    by (unfold col; rewrite length_map; apply WWT_rows).
  apply bigsum_ext. intros l Hl. rewrite nth_col.
  rewrite entry_WWT by lia. reflexivity.
Qed.

End Shapes.

Section RowStep.

Variable p : FitH.params.
Variable W : matrix.
Variables k f : nat.
Variables x h : vec.
Hypothesis W_rows : length W = k.
Hypothesis W_cols : has_cols f W.
Hypothesis k_pos : (0 < k)%nat.
Hypothesis f_pos : (0 < f)%nat.
Hypothesis x_len : length x = f.
Hypothesis h_len : length h = k.
Hypothesis W_nonneg : mnonneg W.
Hypothesis h_nonneg : nonneg h.
Hypothesis no_l1 : FitH.l1_reg_H p <= 0.
Hypothesis no_l2 : FitH.l2_reg_H p <= 0.
Hypothesis eps_pos : 0 < FitH.epsilon p.
Hypothesis no_floor :
  forall j, (j < k)%nat -> 0 < nth j h 0 ->
            FitH.epsilon p <= nth j (row_denom p W h) 0.

Let Wf (l g : nat) : R := nth g (nth l W []) 0.
Let b (j : nat) : R := bigsum f (fun g => nth g x 0 * Wf j g).
Let d (j : nat) : R :=
  bigsum k (fun l => nth l h 0 * bigsum f (fun g => Wf l g * Wf j g)).

Lemma row_numer_sum : row_numer p W x = map b (seq 0 k).
Proof.
  unfold row_numer. rewrite Rltb_false by exact no_l1.
  now apply row_matmul_WT.
Qed.

Lemma row_denom_sum : row_denom p W h = map d (seq 0 k).
Proof.
  unfold row_denom. rewrite Rltb_false by exact no_l2.
  now apply row_matmul_WWT with (f := f).
Qed.

Lemma row_rates_length : length (row_rates p W (row_numer p W x) h) = k.
Proof.
  unfold row_rates. rewrite row_numer_sum, row_denom_sum.
  rewrite !map2_length, !length_map, !length_seq. lia.
Qed.

Lemma nth_row_rates j :
  (j < k)%nat ->
  nth j (row_rates p W (row_numer p W x) h) 0
  = if Rltb (d j) (FitH.epsilon p) then 0 else b j / d j.
Proof.
  intro Hj. unfold row_rates. rewrite row_numer_sum, row_denom_sum.
  rewrite (nth_map2 _ _ _ j 0 0 0).
  - rewrite (nth_map2 _ _ _ j 0 0 0)
      by (now rewrite length_map, length_seq).
    now rewrite !nth_map_seq.
  - rewrite map2_length, !length_map, !length_seq. lia.
  - now rewrite length_map, length_seq.
Qed.

Lemma nth_row_update j :
  nth j (row_update p W (row_numer p W x) h) 0
  = nth j h 0 * (1 + (nth j (row_rates p W (row_numer p W x) h) 0 - 1)).
Proof.
  unfold row_update. rewrite nth_map2_mult by (now rewrite row_rates_length).
  lra.
Qed.

Lemma row_update_length :
  length (row_update p W (row_numer p W x) h) = k.
Proof.
  unfold row_update. rewrite map2_length, row_rates_length. lia.
Qed.

Lemma row_err_sum (h1 : vec) :
  length h1 = k ->
  row_err W x h1
  = bigsum f (fun g =>
      (nth g x 0 - bigsum k (fun l => nth l h1 0 * Wf l g))
      * (nth g x 0 - bigsum k (fun l => nth l h1 0 * Wf l g))).
Proof.
  intro H1. unfold row_err. cbv zeta.
  rewrite (row_matmul_W W k f) by assumption.
  set (hW := fun g => bigsum k (fun l => nth l h1 0 * nth g (nth l W []) 0)).
  assert (Hl : length (map2 Rminus x (map hW (seq 0 f))) = f).
  { rewrite map2_length, length_map, length_seq. lia. }
  rewrite (dot_bigsum _ _ f Hl Hl). apply bigsum_ext. intros g Hg.
  rewrite (nth_map2 Rminus x (map hW (seq 0 f)) g 0 0 0)
    by (rewrite ?length_map, ?length_seq; lia).
  rewrite nth_map_seq by exact Hg. reflexivity.
Qed.

(** One update of a row none of whose positive entries is floored does
    not increase the squared error of the row. *)
Lemma row_descent :
  row_err W x (row_update p W (row_numer p W x) h) <= row_err W x h.
Proof.
  rewrite (row_err_sum _ row_update_length), (row_err_sum h h_len).
  set (u := fun j => nth j (row_rates p W (row_numer p W x) h) 0 - 1).
  pose proof (Descent.mu_descent k f (fun g => nth g x 0)
                (fun l => nth l h 0) u Wf) as D.
  cbv beta in D.
  assert (E : forall g,
    bigsum k (fun l => nth l (row_update p W (row_numer p W x) h) 0 * Wf l g)
    = bigsum k (fun l => nth l h 0 * (1 + u l) * Wf l g)).
  { intro g. apply bigsum_ext. intros l _. now rewrite nth_row_update. }
  erewrite bigsum_ext; [apply D|].
  - intros l g. unfold Wf. apply nth_nonneg.
    destruct (Nat.lt_ge_cases l (length W)) as [Hl|Hl].
    + unfold mnonneg in W_nonneg. rewrite Forall_forall in W_nonneg.
      now apply W_nonneg, nth_In.
    + rewrite nth_overflow by exact Hl. constructor.
  - intro l. now apply nth_nonneg.
  - intros j Hj. fold (b j) (d j).
    pose proof (nth_nonneg h j h_nonneg) as Hh.
    destruct (Req_dec (nth j h 0) 0) as [Hz|Hz]; [rewrite Hz; lra|].
    assert (Hd : FitH.epsilon p <= d j).
    { pose proof (no_floor j Hj) as Hf. rewrite row_denom_sum in Hf.
      rewrite nth_map_seq in Hf by exact Hj. apply Hf. lra. }
    unfold u. rewrite (nth_row_rates j Hj), Rltb_false by exact Hd.
    field. lra.
  - intros g _. cbv beta. now rewrite E.
Qed.

End RowStep.
End RowDescent.

Module ChunkDescent.
Import SumFacts FitRows FitRowsFacts RowDescent.

Lemma sumsq_recon W x h :
  sumsq (msub x (matmul h W)) = vsum (map2 (row_err W) x h).
Proof.
  unfold sumsq, msub. rewrite matmul_rowwise.
  revert h; induction x as [|a x IH]; intros [|r h]; simpl; try reflexivity.
  now rewrite IH.
Qed.

Lemma row_err_no_basis x h : row_err [] x h = 0.
Proof. unfold row_err, row_matmul. simpl. now destruct x. Qed.

Section Chunk.

Variable p : FitH.params.
Variable W : matrix.
Variables k f : nat.
Hypothesis W_rows : nrows W = k.
Hypothesis W_cols : has_cols f W.
Hypothesis f_pos : (0 < f)%nat.
Hypothesis W_nonneg : mnonneg W.
Hypothesis no_l1 : FitH.l1_reg_H p <= 0.
Hypothesis no_l2 : FitH.l2_reg_H p <= 0.
Hypothesis eps_pos : 0 < FitH.epsilon p.

Lemma row_descent_any x h :
  length x = f -> length h = k -> nonneg h ->
  (forall j, (j < k)%nat -> 0 < nth j h 0 ->
             FitH.epsilon p <= nth j (row_denom p W h) 0) ->
  row_err W x (row_update p W (row_numer p W x) h) <= row_err W x h.
Proof.
  intros Hx Hh Hn Hf. destruct (Nat.eq_0_gt_0_cases k) as [Hk|Hk].
  - unfold nrows in W_rows. rewrite Hk in W_rows.
    apply length_zero_iff_nil in W_rows. rewrite W_rows.
    rewrite !row_err_no_basis. lra.
  - now apply row_descent with (k := k) (f := f).
Qed.

Lemma chunk_descent x h :
  length h = length x ->
  has_cols f x -> has_cols k h -> mnonneg h ->
  Forall (fun r => forall j, (j < k)%nat -> 0 < nth j r 0 ->
                     FitH.epsilon p <= nth j (row_denom p W r) 0) h ->
  vsum (map2 (row_err W) x
          (map2 (row_update p W) (map (row_numer p W) x) h))
  <= vsum (map2 (row_err W) x h).
Proof.
  revert h; induction x as [|a x IH]; intros [|r h] Hl Hx Hh Hn Hf;
    simpl in *; try discriminate; try lra.
  assert (row_err W a (row_update p W (row_numer p W a) r) <= row_err W a r).
  { apply row_descent_any.
    - exact (Forall_inv Hx).
    - exact (Forall_inv Hh).
    - exact (Forall_inv Hn).
    - exact (Forall_inv Hf). }
  assert (vsum (map2 (row_err W) x
            (map2 (row_update p W) (map (row_numer p W) x) h))
          <= vsum (map2 (row_err W) x h)).
  { apply IH.
    - now injection Hl.
    - exact (Forall_inv_tail Hx).
    - exact (Forall_inv_tail Hh).
    - exact (Forall_inv_tail Hn).
    - exact (Forall_inv_tail Hf). }
  lra.
Qed.

End Chunk.
End ChunkDescent.


(** ** [efficient_ols_all_cols]: the batches add up *)

Module OLSFacts.

Lemma matmul_transpose_gram A C :
  matmul (transpose A) C = gram (ncols A) (ncols C) A C.
Proof. unfold matmul, transpose, gram. now rewrite map_map. Qed.

Lemma dot_app a1 a2 b1 b2 :
  length a1 = length b1 ->
  dot (a1 ++ a2) (b1 ++ b2) = dot a1 b1 + dot a2 b2.
Proof.
  revert b1; induction a1 as [|x a1 IH]; intros [|y b1] H; simpl in *;
    try discriminate; [lra|].
  rewrite IH by (now injection H). lra.
Qed.

Lemma col_app j A B : col j (A ++ B) = col j A ++ col j B.
Proof. unfold col. apply map_app. Qed.

Lemma col_length j A : length (col j A) = length A.
Proof. unfold col. apply length_map. Qed.

Lemma map2_map_seq {T U V} (f : T -> U -> V) (F : nat -> T) (G : nat -> U) l :
  map2 f (map F l) (map G l) = map (fun i => f (F i) (G i)) l.
Proof. induction l as [|i l IH]; simpl; [reflexivity | now rewrite IH]. Qed.

Lemma gram_app p t A B C D :
  length A = length C ->
  gram p t (A ++ B) (C ++ D) = madd (gram p t A C) (gram p t B D).
Proof.
  intro H. unfold gram, madd. rewrite map2_map_seq. apply map_ext.
  intro i. rewrite map2_map_seq. apply map_ext. intro j.
  rewrite !col_app. apply dot_app. now rewrite !col_length.
Qed.

Lemma gram_nil p t : gram p t [] [] = zeros p t.
Proof.
  unfold gram, zeros. simpl.
  assert (Hrow : forall n s, map (fun _ : nat => 0) (seq s n) = repeat 0 n).
  { induction n as [|n IH]; intro s; simpl; [reflexivity | now rewrite IH]. }
  rewrite Hrow. generalize (repeat 0 t) as r. intro r.
  generalize O as s. induction p as [|p IH]; intro s; simpl;
    [reflexivity | now rewrite IH].
Qed.

Lemma ncols_has_cols c M : has_cols c M -> (0 < length M)%nat -> ncols M = c.
Proof.
  intros H Hl. destruct M as [|r M]; simpl in *; [lia|].
  exact (Forall_inv H).
Qed.

Lemma firstn_add {T} a b (l : list T) :
  firstn (a + b) l = firstn a l ++ firstn b (skipn a l).
Proof.
  revert l; induction a as [|a IH]; intros [|x l]; simpl;
    try reflexivity.
  - now rewrite firstn_nil.
  - now rewrite IH.
Qed.

Lemma firstn_min_length {T} s (l : list T) :
  firstn (Nat.min s (length l)) l = firstn s l.
Proof.
  destruct (Nat.le_ge_cases s (length l)) as [H|H].
  - now rewrite Nat.min_l.
  - rewrite Nat.min_r by exact H. now rewrite !firstn_all2.
Qed.

Lemma slice_batch {T} a s (l : list T) :
  slice a (Nat.min (a + s) (length l)) l = firstn s (skipn a l).
Proof.
  unfold slice. rewrite <- (firstn_min_length s (skipn a l)).
  rewrite length_skipn. f_equal. lia.
Qed.

Lemma standardize_slice m sd a b Y :
  standardize m sd (slice a b Y) = slice a b (standardize m sd Y).
Proof.
  unfold standardize, slice. now rewrite skipn_map, firstn_map.
Qed.

Lemma standardize_length m sd Y : length (standardize m sd Y) = length Y.
Proof. unfold standardize. apply length_map. Qed.

Lemma standardize_has_cols t m sd Y :
  length m = t -> length sd = t -> has_cols t Y ->
  has_cols t (standardize m sd Y).
Proof.
  intros Hm Hsd HY. unfold standardize, has_cols. apply Forall_map.
  eapply Forall_impl; [|exact HY]. intros r Hr. cbv beta in *.
  rewrite !map2_length, Hr, Hm, Hsd. lia.
Qed.

Lemma ols_targets_length nz Y : length (ols_targets nz Y) = length Y.
Proof.
  unfold ols_targets. destruct nz; [|reflexivity].
  unfold get_mean_var. apply standardize_length.
Qed.

Lemma ols_targets_has_cols nz t Y :
  (0 < length Y)%nat -> has_cols t Y -> has_cols t (ols_targets nz Y).
Proof.
  intros Hl HY. unfold ols_targets. destruct nz; [|exact HY].
  unfold get_mean_var. apply standardize_has_cols; [| |exact HY].
  - rewrite length_map, length_seq. now apply ncols_has_cols.
  - unfold std_of_var. rewrite !length_map, length_seq.
    now apply ncols_has_cols.
Qed.

Section Batches.

Variables X Y : matrix.
Variable normalize_y : bool.
Variables p t s : nat.
Hypothesis rows_agree : nrows X = nrows Y.
Hypothesis X_cols : has_cols p X.
Hypothesis Y_cols : has_cols t Y.
Hypothesis s_pos : (0 < s)%nat.

Lemma ols_step_gram XtX XtY a :
  (a < nrows X)%nat ->
  ols_step X Y normalize_y (Z.of_nat s) (XtX, XtY) a
  = (madd XtX (gram p p (firstn s (skipn a X)) (firstn s (skipn a X))),
     madd XtY (gram p t (firstn s (skipn a X))
                 (firstn s (skipn a (ols_targets normalize_y Y))))).
Proof.
  intro Ha. unfold ols_step. rewrite Nat2Z.id.
  assert (HY0 : (0 < length Y)%nat) by (unfold nrows in *; lia).
  assert (HXb : slice a (Nat.min (a + s) (nrows X)) X = firstn s (skipn a X))
    by apply slice_batch.
  assert (HYb : forall Z : matrix, length Z = length Y ->
            slice a (Nat.min (a + s) (nrows X)) Z = firstn s (skipn a Z)).
  { intros Z HZ. unfold nrows in *. rewrite rows_agree, <- HZ.
    apply slice_batch. }
  rewrite HXb.
  assert (Hn : (0 < length (firstn s (skipn a X)))%nat).
  { rewrite length_firstn, length_skipn. unfold nrows in Ha. lia. }
  assert (HcX : ncols (firstn s (skipn a X)) = p).
  { apply ncols_has_cols; [|exact Hn].
    now apply Forall_firstn, Forall_skipn. }
  assert (HcY : ncols (firstn s (skipn a (ols_targets normalize_y Y))) = t).
  { apply ncols_has_cols.
    - apply Forall_firstn, Forall_skipn. now apply ols_targets_has_cols.
    - rewrite length_firstn, length_skipn, ols_targets_length.
      unfold nrows in *. lia. }
  assert (HYt :
    (if normalize_y
     then let (meanY, varY) := get_mean_var Y in
          standardize meanY (std_of_var varY)
            (slice a (Nat.min (a + s) (nrows X)) Y)
     else slice a (Nat.min (a + s) (nrows X)) Y)
    = firstn s (skipn a (ols_targets normalize_y Y))).
  { unfold ols_targets. destruct normalize_y.
    - unfold get_mean_var. rewrite standardize_slice.
      apply HYb, standardize_length.
    - now apply HYb. }
  rewrite HYt, !matmul_transpose_gram, HcX, HcY. reflexivity.
Qed.

Lemma ols_fold_gram c :
  (c * s < nrows X + s)%nat ->
  fold_left (ols_step X Y normalize_y (Z.of_nat s))
    (map (fun i => (i * s)%nat) (seq 0 c)) (zeros p p, zeros p t)
  = (gram p p (firstn (c * s) X) (firstn (c * s) X),
     gram p t (firstn (c * s) X)
       (firstn (c * s) (ols_targets normalize_y Y))).
Proof.
  induction c as [|c IH]; intro Hc.
  - simpl. now rewrite !gram_nil.
  - rewrite seq_S, map_app, fold_left_app, IH by lia.
    cbn [map fold_left Nat.add].
    rewrite ols_step_gram by lia.
    replace (S c * s)%nat with (c * s + s)%nat by lia.
    rewrite !firstn_add, !gram_app; try reflexivity.
    rewrite !length_firstn, ols_targets_length. unfold nrows in *. lia.
Qed.

Lemma ols_accumulate_gram :
  (0 < nrows X)%nat ->
  ols_accumulate X Y normalize_y (Z.of_nat s)
  = Ok (matmul (transpose X) X,
        matmul (transpose X) (ols_targets normalize_y Y)).
Proof.
  intro Hn. unfold ols_accumulate, py_range.
  rewrite rows_agree, Nat.eqb_refl. simpl negb. cbv iota.
  destruct (Z.eqb_spec (Z.of_nat s) 0) as [E|_]; [lia|].
  destruct (Z.ltb_spec (Z.of_nat s) 0) as [E|_]; [lia|].
  rewrite Nat2Z.id. rewrite <- rows_agree.
  set (c := ((nrows X + s - 1) / s)%nat).
  assert (Hdiv : (nrows X + s - 1 = s * c + (nrows X + s - 1) mod s)%nat)
    by apply Nat.div_mod_eq.
  assert (Hmod : ((nrows X + s - 1) mod s < s)%nat)
    by (apply Nat.mod_upper_bound; lia).
  assert (HX : ncols X = p) by (now apply ncols_has_cols).
  assert (HY : ncols Y = t)
    by (apply ncols_has_cols; [assumption | unfold nrows in *; lia]).
  rewrite HX, HY, ols_fold_gram by nia.
  rewrite !firstn_all2
    by (rewrite ?ols_targets_length; unfold nrows in *; nia).
  rewrite !matmul_transpose_gram, HX.
  replace (ncols (ols_targets normalize_y Y)) with t; [reflexivity|].
  symmetry. apply ncols_has_cols.
  - apply ols_targets_has_cols; [unfold nrows in *; lia | assumption].
  - rewrite ols_targets_length. unfold nrows in *. lia.
Qed.

End Batches.

End OLSFacts.

(** ** Sorting and local density *)

Module SortFacts.

Lemma Rleb_true a b : a <= b -> Rleb a b = true.
Proof. unfold Rleb. destruct (Rle_dec a b); [reflexivity | contradiction]. Qed.

Lemma Rleb_false a b : b < a -> Rleb a b = false.
Proof. unfold Rleb. destruct (Rle_dec a b); [lra | reflexivity]. Qed.

Lemma insert_asc_le a b l : a <= b -> insert_asc a (b :: l) = a :: b :: l.
Proof. intro H. simpl. now rewrite Rleb_true. Qed.

Lemma insert_asc_gt a b l :
  b < a -> insert_asc a (b :: l) = b :: insert_asc a l.
Proof. intro H. simpl. now rewrite Rleb_false. Qed.

Lemma insert_asc_comm a b l :
  insert_asc a (insert_asc b l) = insert_asc b (insert_asc a l).
Proof.
  induction l as [|c l IH]; simpl.
  - unfold Rleb. destruct (Rle_dec a b), (Rle_dec b a); try reflexivity.
    + assert (a = b) by lra. now subst.
    + lra.
  - unfold Rleb in *.
    destruct (Rle_dec b c), (Rle_dec a c); simpl; unfold Rleb;
      repeat match goal with
        | |- context [Rle_dec ?x ?y] => destruct (Rle_dec x y)
        end;
      try reflexivity; try lra;
      try (assert (a = b) by lra; now subst);
      try (now rewrite IH).
Qed.

Lemma sort_asc_perm l l' : Permutation l l' -> sort_asc l = sort_asc l'.
Proof.
  induction 1 as [|x l l' _ IH|x y l|l l' l'' _ IH1 _ IH2]; simpl.
  - reflexivity.
  - now rewrite IH.
  - apply insert_asc_comm.
  - now rewrite IH1.
Qed.

Lemma insert_asc_nonneg a l : 0 <= a -> nonneg l -> nonneg (insert_asc a l).
Proof.
  intros Ha Hl. induction Hl as [|b l Hb Hl IH]; simpl.
  - apply Forall_cons; [assumption | constructor].
  - destruct (Rleb a b).
    + apply Forall_cons; [assumption|]. now apply Forall_cons.
    + now apply Forall_cons.
Qed.

Lemma sort_asc_nonneg l : nonneg l -> nonneg (sort_asc l).
Proof.
  induction 1 as [|a l Ha Hl IH]; simpl; [constructor|].
  now apply insert_asc_nonneg.
Qed.

Lemma insert_asc_zero l : nonneg l -> insert_asc 0 l = 0 :: l.
Proof.
  intro H. destruct H as [|b l Hb Hl]; simpl; [reflexivity|].
  now rewrite Rleb_true.
Qed.

(** A zero among non-negative numbers sorts to the front. *)
Lemma sort_asc_zero l1 l2 :
  nonneg l1 -> nonneg l2 ->
  sort_asc (l1 ++ 0 :: l2) = 0 :: sort_asc (l1 ++ l2).
Proof.
  intros H1 H2.
  rewrite (sort_asc_perm (l1 ++ 0 :: l2) (0 :: l1 ++ l2))
    by (symmetry; apply Permutation_middle).
  simpl. apply insert_asc_zero, sort_asc_nonneg.
  apply Forall_app; split; assumption.
Qed.

Lemma insert_asc_length a l : length (insert_asc a l) = S (length l).
Proof.
  induction l as [|b l IH]; simpl; [reflexivity|].
  destruct (Rleb a b); simpl; [reflexivity | now rewrite IH].
Qed.

Lemma sort_asc_length l : length (sort_asc l) = length l.
Proof.
  induction l as [|a l IH]; simpl; [reflexivity|].
  now rewrite insert_asc_length, IH.
Qed.

End SortFacts.

Module DensityFacts.
Import SortFacts.

Lemma dot_diag_zero a :
  dot (map2 Rminus a a) (map2 Rminus a a) = 0.
Proof. induction a as [|x a IH]; simpl; [reflexivity | rewrite IH; lra]. Qed.

Lemma distance_self a : distance a a = 0.
Proof. unfold distance. cbv zeta. rewrite dot_diag_zero. apply sqrt_0. Qed.

Lemma distance_nonneg a b : 0 <= distance a b.
Proof. unfold distance. apply sqrt_pos. Qed.

Lemma distances_nonneg a M : nonneg (map (distance a) M).
Proof.
  apply Forall_map, Forall_forall. intros b _. apply distance_nonneg.
Qed.

Lemma nth_split_rows (M : matrix) i :
  (i < length M)%nat ->
  M = firstn i M ++ nth i M [] :: skipn (S i) M.
Proof.
  revert M; induction i as [|i IH]; intros [|r M] H; simpl in *; try lia.
  - reflexivity.
  - f_equal. apply IH. lia.
Qed.

Lemma euclidean_distances_row M i :
  (i < nrows M)%nat ->
  nth i (euclidean_distances M) [] = map (distance (nth i M [])) M.
Proof.
  intro Hi. unfold euclidean_distances.
  rewrite (nth_indep _ [] ((fun a => map (distance a) M) []))
    by (now rewrite length_map).
  now rewrite (map_nth (fun a => map (fun b => distance a b) M)).
Qed.

(** The [n + 1] smallest entries of row [i] of the distance matrix are
    the zero distance to itself and the [n] smallest distances to the
    other rows. *)
Lemma sum_smallest_row M i n :
  (i < nrows M)%nat ->
  sum_smallest (S n) (nth i (euclidean_distances M) [])
  = vsum (firstn n (sort_asc (distances_to_others i M))).
Proof.
  intro Hi. rewrite euclidean_distances_row by exact Hi.
  unfold sum_smallest, distances_to_others.
  rewrite (nth_split_rows M i Hi) at 2.
  rewrite map_app. cbn [map]. rewrite distance_self.
  rewrite sort_asc_zero by apply distances_nonneg.
  rewrite <- map_app. cbn [firstn vsum fold_right]. unfold vsum. lra.
Qed.

Lemma py_int_floor x (n : nat) :
  INR n <= x < INR n + 1 -> py_int x = Z.of_nat n.
Proof.
  intros [H1 H2]. unfold py_int.
  pose proof (pos_INR n) as Hn.
  rewrite Rltb_false by lra.
  symmetry. apply Int_part_spec. rewrite <- INR_IZR_INZ. lra.
Qed.

Lemma partition_count_ok len (m : nat) :
  (m < len)%nat -> partition_count len (Z.of_nat m) = Some m.
Proof.
  intro H. unfold partition_count.
  assert (E1 : (Z.of_nat m <? 0)%Z = false) by (apply Z.ltb_ge; lia).
  assert (E2 : (Z.of_nat len <=? Z.of_nat m)%Z = false)
    by (apply Z.leb_gt; lia).
  rewrite E1. cbv beta zeta iota. rewrite E1, E2. cbn [orb].
  now rewrite Nat2Z.id.
Qed.

Lemma euclidean_distances_rows M : nrows (euclidean_distances M) = nrows M.
Proof. unfold euclidean_distances, nrows. apply length_map. Qed.

Lemma compute_local_density_ok M (n : nat) :
  (n + 1 < nrows M)%nat ->
  compute_local_density (euclidean_distances M) (Z.of_nat n)
  = Ret (map (fun row => sum_smallest (S n) row / INR n)
           (euclidean_distances M)).
Proof.
  intro H. unfold compute_local_density.
  replace (Z.of_nat n + 1)%Z with (Z.of_nat (S n)) by lia.
  rewrite partition_count_ok by (rewrite euclidean_distances_rows; lia).
  now rewrite <- INR_IZR_INZ.
Qed.

End DensityFacts.


(** ** The density filter and the later stages *)

Module FilterFacts.

Lemma select_rows_all (density : vec) thr (M : matrix) :
  length density = length M ->
  Forall (fun d => d < thr) density ->
  map (fun d => Rltb d thr) density = map (fun _ => true) density
  /\ select_rows (map (fun d => Rltb d thr) density) M = M.
Proof.
  intros Hl Hd. revert M Hl.
  induction Hd as [|d density Hlt Hd IH]; intros [|r M] Hl; simpl in *;
    try discriminate; [now split|].
  destruct (IH M) as [E1 E2]; [now injection Hl|].
  rewrite (Rltb_true d thr Hlt). split; [now rewrite E1|].
  unfold select_rows in *. cbn [combine filter fst map snd].
  now rewrite E2.
Qed.


Lemma l2_normalize_rows M : nrows (l2_normalize M) = nrows M.
Proof. unfold l2_normalize, nrows. apply length_map. Qed.



Lemma apply_density_filter_all thr l2 dist density st :
  length density = nrows l2 -> (0 < nrows l2)%nat ->
  Forall (fun d => d < thr) density ->
  apply_density_filter thr l2 dist density st
  = keep_all_rows l2 dist density st.
Proof.
  intros Hl Hn Hd. unfold apply_density_filter, keep_all_rows.
  rewrite length_map, Hl, Nat.eqb_refl. cbn [negb].
  destruct (select_rows_all density thr l2 Hl Hd) as [E1 E2].
  cbv zeta. rewrite E2, E1.
  destruct (Nat.eqb_spec (nrows l2) 0) as [E|_]; [lia | reflexivity].
Qed.

End FilterFacts.

Module PipelineFacts.
Import FilterFacts.

Lemma refit_usage_error lib inp draw X spectra e :
  refit_usage lib inp draw X spectra = Err e ->
  e = InvalidBetaLoss \/ e = NeverReturns.
Proof.
  unfold refit_usage.
  destruct (run_beta_loss inp);
    try (destruct (FitH.fit_H_online _ _ _ _ _ _); intro E; inversion E; auto).
  intro E; inversion E; auto.
Qed.








(** [refit_usage] returns for a valid loss and a chunk size of at least
    one. *)
Lemma refit_usage_returns lib inp draw X spectra :
  run_beta_loss inp <> other_value ->
  (0 < online_chunk_size inp)%nat ->
  nrows (torch_rand lib draw (nrows X) (nrows spectra)) = nrows X ->
  exists H,
    refit_usage lib inp draw X spectra = Ret H /\ nrows H = nrows X.
Proof.
  intros Hb Hc Hrows.
  set (p := refit_params inp).
  set (rnd := torch_rand lib draw (nrows X) (nrows spectra)) in *.
  destruct (ChunkFacts.chunk_loop_rows p spectra X (FitH.init_H None rnd)
              Hrows Hc (fun _ => True) (fun _ _ => I) (nrows X)
              (Nat.le_refl _))
    as (H & E & Hn & _).
  exists H. split; [|exact Hn].
  unfold refit_usage. fold p. fold rnd. unfold FitH.fit_H_online.
  rewrite E.
  destruct (run_beta_loss inp); try reflexivity. now contradiction Hb.
Qed.

End PipelineFacts.


(** ** Deciding the convergence test on concrete chunks *)

Module RelFacts.
Import FitH.

Lemma sqrt_lt_of_sq x c : 0 <= x -> 0 < c -> x < c * c -> sqrt x < c.
Proof.
  intros Hx Hc H. rewrite <- (sqrt_square c) by lra.
  apply sqrt_lt_1; nra.
Qed.

Lemma sqrt_ge_of_sq x c : 0 <= c -> c * c <= x -> c <= sqrt x.
Proof.
  intros Hc H. rewrite <- (sqrt_square c) at 1 by lra.
  apply sqrt_le_1; nra.
Qed.

Lemma sqrt_le_of_sq x c : 0 <= x -> 0 <= c -> x <= c * c -> sqrt x <= c.
Proof.
  intros Hx Hc H. rewrite <- (sqrt_square c) by lra.
  apply sqrt_le_1; nra.
Qed.

(** The test fires: the change is small against [epsilon] alone, or
    against a lower bound [L] of [norm h]. *)
Lemma rel_change_lt_eps p h_new h :
  0 < h_tol p -> 0 < epsilon p ->
  sumsq (msub h_new h) < (h_tol p * epsilon p) * (h_tol p * epsilon p) ->
  Rltb (rel_change p h_new h) (h_tol p) = true.
Proof.
  intros Ht He Hd. apply Rltb_true. unfold rel_change.
  assert (Hn : norm (msub h_new h) < h_tol p * epsilon p).
  { apply sqrt_lt_of_sq; [apply sumsq_nonneg | nra | exact Hd]. }
  pose proof (norm_nonneg h) as H0.
  apply Rmult_lt_reg_r with (norm h + epsilon p); [lra|].
  unfold Rdiv. rewrite Rmult_assoc, Rinv_l by lra. nra.
Qed.

Lemma rel_change_lt_norm p h_new h L :
  0 < h_tol p -> 0 <= epsilon p -> 0 < L -> L * L <= sumsq h ->
  sumsq (msub h_new h) < (h_tol p * L) * (h_tol p * L) ->
  Rltb (rel_change p h_new h) (h_tol p) = true.
Proof.
  intros Ht He HL Hh Hd. apply Rltb_true. unfold rel_change.
  assert (Hn : norm (msub h_new h) < h_tol p * L).
  { apply sqrt_lt_of_sq; [apply sumsq_nonneg | nra | exact Hd]. }
  assert (Hm : L <= norm h) by (apply sqrt_ge_of_sq; lra).
  apply Rmult_lt_reg_r with (norm h + epsilon p); [lra|].
  unfold Rdiv. rewrite Rmult_assoc, Rinv_l by lra. nra.
Qed.

(** The test does not fire: the change is at least [a], the norm of [h]
    at most [b]. *)
Lemma rel_change_ge p h_new h a b :
  0 <= a -> 0 <= b -> 0 < epsilon p ->
  a * a <= sumsq (msub h_new h) -> sumsq h <= b * b ->
  h_tol p * (b + epsilon p) <= a ->
  Rltb (rel_change p h_new h) (h_tol p) = false.
Proof.
  intros Ha Hb He Hd Hh Hab. apply Rltb_false. unfold rel_change.
  assert (Hn : a <= norm (msub h_new h)) by (now apply sqrt_ge_of_sq).
  assert (Hm : norm h <= b).
  { apply sqrt_le_of_sq; [apply sumsq_nonneg | exact Hb | exact Hh]. }
  pose proof (norm_nonneg h) as H0.
  apply Rmult_le_reg_r with (norm h + epsilon p); [lra|].
  unfold Rdiv. rewrite Rmult_assoc, Rinv_l by lra.
  destruct (Rle_dec 0 (h_tol p)); nra.
Qed.

Lemma mu_loop_stop p W m numer h :
  Rltb (rel_change p (mu_update p W numer h) h) (h_tol p) = true ->
  mu_loop p W (S m) numer h = mu_update p W numer h.
Proof. intro E. unfold mu_loop. cbv zeta. now rewrite E. Qed.

Lemma mu_loop_go p W m numer h :
  Rltb (rel_change p (mu_update p W numer h) h) (h_tol p) = false ->
  mu_loop p W (S m) numer h = mu_loop p W m numer (mu_update p W numer h).
Proof. intro E. unfold mu_loop at 1. cbv zeta. rewrite E. reflexivity. Qed.

End RelFacts.

(** ** The two runs of [ExChunk] *)

Module ExChunkFacts.
Import FitH ExChunk RelFacts.

Local Arguments mu_loop : simpl never.
Local Arguments mu_numer : simpl never.
Local Arguments mu_update : simpl never.
Local Arguments rel_change : simpl never.

Ltac decide_Rltb :=
  repeat match goal with
    | |- context [Rltb ?a ?b] =>
        first [ rewrite (Rltb_true a b) by lra
              | rewrite (Rltb_false a b) by lra ]
    end.

Lemma WWT_W : WWT W = [[2; 1]; [1; 1]].
Proof.
  unfold WWT, W, matmul, transpose. simpl.
  repeat (f_equal; try lra).
Qed.

Lemma numer_row (c : nat) a b :
  mu_numer (prm c) W [[a; b]] = [[a + b; b]].
Proof.
  unfold mu_numer, W, matmul, transpose. simpl. decide_Rltb.
  repeat (f_equal; try lra).
Qed.

Lemma numer_rows (c : nat) a b a' b' :
  mu_numer (prm c) W [[a; b]; [a'; b']] = [[a + b; b]; [a' + b'; b']].
Proof.
  unfold mu_numer, W, matmul, transpose. simpl. decide_Rltb.
  repeat (f_equal; try lra).
Qed.

Lemma denom_row (c : nat) a b :
  mu_denom (prm c) W [[a; b]] = [[2 * a + b; a + b]].
Proof.
  unfold mu_denom. rewrite WWT_W. unfold matmul. simpl. decide_Rltb.
  repeat (f_equal; try lra).
Qed.

Lemma denom_rows (c : nat) a b a' b' :
  mu_denom (prm c) W [[a; b]; [a'; b']]
  = [[2 * a + b; a + b]; [2 * a' + b'; a' + b']].
Proof.
  unfold mu_denom. rewrite WWT_W. unfold matmul. simpl. decide_Rltb.
  repeat (f_equal; try lra).
Qed.

Ltac prm_lra := cbv [h_tol epsilon prm l1_reg_H l2_reg_H]; lra.

Ltac sumsq_calc :=
  cbv [sumsq msub map2 map dot vsum fold_right
       h_tol epsilon prm]; lra.

Lemma clamp_H_init : clamp_min0 H_init = H_init.
Proof. unfold clamp_min0, H_init, clamp0. simpl. decide_Rltb. reflexivity. Qed.

(** One update of a single row whose denominators are not floored. *)
Lemma update_row c n1 n2 a b :
  epsilon (prm c) <= 2 * a + b -> epsilon (prm c) <= a + b ->
  mu_update (prm c) W [[n1; n2]] [[a; b]]
  = [[a * (n1 / (2 * a + b)); b * (n2 / (a + b))]].
Proof.
  intros H1 H2. unfold mu_update, mu_rates. rewrite denom_row.
  unfold zero_where_below, mdiv, mmul. simpl.
  now rewrite !Rltb_false by assumption.
Qed.

Lemma update_row_floor c n1 n2 a b :
  2 * a + b < epsilon (prm c) -> a + b < epsilon (prm c) ->
  mu_update (prm c) W [[n1; n2]] [[a; b]] = [[a * 0; b * 0]].
Proof.
  intros H1 H2. unfold mu_update, mu_rates. rewrite denom_row.
  unfold zero_where_below, mdiv, mmul. simpl.
  now rewrite !Rltb_true by assumption.
Qed.

Lemma update_rows c n1 n2 a b n1' n2' a' b' :
  mu_update (prm c) W [[n1; n2]; [n1'; n2']] [[a; b]; [a'; b']]
  = mu_update (prm c) W [[n1; n2]] [[a; b]]
    ++ mu_update (prm c) W [[n1'; n2']] [[a'; b']].
Proof.
  unfold mu_update, mu_rates. rewrite denom_rows, !denom_row. reflexivity.
Qed.

Lemma upd_A1 c : mu_update (prm c) W [[0; 0]] [[1; 1]] = [[0; 0]].
Proof.
  rewrite update_row by (prm_lra). repeat (f_equal; try (field; lra)); lra.
Qed.

Lemma upd_A2 c : mu_update (prm c) W [[0; 0]] [[0; 0]] = [[0; 0]].
Proof.
  rewrite update_row_floor by (prm_lra). repeat (f_equal; try lra).
Qed.

Lemma upd_B1 c :
  mu_update (prm c) W [[151 / 50; 2]] [[1; 1]] = [[151 / 150; 1]].
Proof.
  rewrite update_row by (prm_lra). repeat (f_equal; try lra).
Qed.

Lemma upd_B2 c :
  mu_update (prm c) W [[151 / 50; 2]] [[151 / 150; 1]]
  = [[151 / 150 * (453 / 452); 300 / 301]].
Proof.
  rewrite update_row by (prm_lra). repeat (f_equal; try lra).
Qed.

Lemma loop_A : mu_loop (prm 1) W 200 [[0; 0]] [[1; 1]] = [[0; 0]].
Proof.
  rewrite mu_loop_go.
  - rewrite upd_A1. rewrite mu_loop_stop; rewrite upd_A2; [reflexivity|].
    apply rel_change_lt_eps; try prm_lra. sumsq_calc.
  - rewrite upd_A1. apply rel_change_ge with (a := 1) (b := 2);
      try prm_lra; sumsq_calc.
Qed.

Lemma loop_B :
  mu_loop (prm 1) W 200 [[151 / 50; 2]] [[1; 1]] = [[151 / 150; 1]].
Proof.
  rewrite mu_loop_stop; rewrite upd_B1; [reflexivity|].
  apply rel_change_lt_norm with (L := 1); try prm_lra; sumsq_calc.
Qed.

Lemma loop_AB :
  mu_loop (prm 2) W 200 [[0; 0]; [151 / 50; 2]] [[1; 1]; [1; 1]]
  = [[0; 0]; [151 / 150 * (453 / 452); 300 / 301]].
Proof.
  rewrite mu_loop_go; rewrite update_rows, upd_A1, upd_B1; simpl app.
  - rewrite mu_loop_stop; rewrite update_rows, upd_A2, upd_B2; simpl app;
      [reflexivity|].
    apply rel_change_lt_norm with (L := 1); try prm_lra; sumsq_calc.
  - apply rel_change_ge with (a := 1) (b := 2); try prm_lra; sumsq_calc.
Qed.

Lemma run_by_row : fit_H_online (prm 1) W 2 X (Some H_init) [] = Some H_by_row.
Proof.
  unfold fit_H_online, init_H. rewrite clamp_H_init. simpl.
  unfold fit_chunk. simpl.
  change (slice 0 1 X) with [[0; 0]].
  change (slice 0 1 H_init) with [[1; 1]].
  rewrite numer_row. replace (0 + 0) with 0 by lra. rewrite loop_A.
  change (assign_slice 0 1 H_init [[0; 0]]) with [[0; 0]; [1; 1]].
  change (slice 1 2 X) with [[51 / 50; 2]].
  change (slice 1 2 [[0; 0]; [1; 1]]) with [[1; 1]].
  rewrite numer_row. replace (51 / 50 + 2) with (151 / 50) by lra.
  rewrite loop_B. reflexivity.
Qed.

Lemma run_one_chunk :
  fit_H_online (prm 2) W 2 X (Some H_init) [] = Some H_one_chunk.
Proof.
  unfold fit_H_online, init_H. rewrite clamp_H_init. simpl.
  unfold fit_chunk. simpl.
  change (slice 0 2 X) with [[0; 0]; [51 / 50; 2]].
  change (slice 0 2 H_init) with [[1; 1]; [1; 1]].
  rewrite numer_rows.
  replace (0 + 0) with 0 by lra. replace (51 / 50 + 2) with (151 / 50) by lra.
  rewrite loop_AB. reflexivity.
Qed.

End ExChunkFacts.

(** ** Updates that raise the reconstruction error *)

Module ExErrorFacts.
Import FitH RelFacts.

Ltac decide_Rltb :=
  repeat match goal with
    | |- context [Rltb ?a ?b] =>
        first [ rewrite (Rltb_true a b) by lra
              | rewrite (Rltb_false a b) by lra ]
    end.

(** Over the one-component basis [[1]]. *)
Lemma recon_error_1x1 a c : recon_error [[1]] [[a]] [[c]] = Rabs (a - c).
Proof.
  unfold recon_error, norm, sumsq, msub, matmul. simpl.
  replace ((a - (c * 1 + 0)) * (a - (c * 1 + 0)) + 0 + 0)
    with (Rsqr (a - c)) by (unfold Rsqr; lra).
  apply sqrt_Rsqr_abs.
Qed.

Ltac tensor_calc :=
  cbv [mu_update mu_rates mu_denom mu_numer WWT matmul transpose
       zero_where_below mdiv mmul madd mscale msub_scalar clamp_min0
       map2 map seq ncols col dot nth length
       l1_reg_H l2_reg_H epsilon
       ExFloor.prm ExFloor.W ExFloor.x ExFloor.h
       ExReg.prm ExReg.W ExReg.x ExReg.h].

Lemma floor_update :
  mu_update ExFloor.prm ExFloor.W
    (mu_numer ExFloor.prm ExFloor.W ExFloor.x) ExFloor.h = [[0]].
Proof.
  tensor_calc. decide_Rltb. repeat (f_equal; try lra).
Qed.

Lemma l1_update :
  mu_update (ExReg.prm (1 / 2) 0) ExReg.W
    (mu_numer (ExReg.prm (1 / 2) 0) ExReg.W ExReg.x) ExReg.h = [[1 / 2]].
Proof.
  tensor_calc. decide_Rltb. unfold clamp0. decide_Rltb.
  repeat (f_equal; try lra).
Qed.

Lemma l2_update :
  mu_update (ExReg.prm 0 1) ExReg.W
    (mu_numer (ExReg.prm 0 1) ExReg.W ExReg.x) ExReg.h = [[1 / 2]].
Proof.
  tensor_calc. decide_Rltb. repeat (f_equal; try lra).
Qed.

End ExErrorFacts.

(** ** The pipeline on [ExDensity] *)

Module ExDensityFacts.
Import ExDensity SortFacts DensityFacts.

Lemma l2_normalize_unit M :
  Forall (fun r => dot r r = 1) M -> l2_normalize M = M.
Proof.
  intro H. unfold l2_normalize. rewrite <- (map_id M) at 2.
  apply map_ext_in. intros r Hr. rewrite Forall_forall in H.
  rewrite (H r Hr), sqrt_1. rewrite <- (map_id r) at 2.
  apply map_ext. intro x. field.
Qed.

Lemma l2_merged : l2_normalize merged = merged.
Proof.
  apply l2_normalize_unit. unfold merged.
  repeat (apply Forall_cons; [simpl; lra|]). constructor.
Qed.

Lemma distance_2d x1 x2 y1 y2 d :
  0 <= d ->
  (x1 - y1) * (x1 - y1) + (x2 - y2) * (x2 - y2) = d * d ->
  distance [x1; x2] [y1; y2] = d.
Proof.
  intros Hd H. unfold distance. cbn [map2 dot].
  replace ((x1 - y1) * (x1 - y1) + ((x2 - y2) * (x2 - y2) + 0)) with (d * d)
    by lra.
  now apply sqrt_square.
Qed.

Lemma dist_merged : euclidean_distances merged = dist.
Proof.
  unfold euclidean_distances, merged, dist. cbn [map].
  rewrite !distance_self.
  repeat first [ rewrite (distance_2d _ _ _ _ 0) by lra
               | rewrite (distance_2d _ _ _ _ (6 / 5)) by lra ].
  reflexivity.
Qed.

Lemma n_neighbors_merged :
  n_neighbors_of (4 / 10) (nrows merged) 1 = Ret 1%Z.
Proof.
  unfold n_neighbors_of. cbn [Nat.eqb nrows merged length].
  rewrite (py_int_floor _ 1); [reflexivity|]. simpl. lra.
Qed.

Lemma density_merged : compute_local_density dist 1 = Ret density.
Proof.
  unfold compute_local_density, dist, density.
  change (partition_count _ _) with (partition_count 3 (Z.of_nat 2)).
  rewrite partition_count_ok by lia.
  unfold sum_smallest, sort_asc. cbn [map fold_right].
  change (insert_asc (6 / 5) []) with [6 / 5].
  change (insert_asc 0 []) with [0].
  repeat first [ rewrite insert_asc_le by lra
               | rewrite insert_asc_gt by lra
               | change (insert_asc (6 / 5) []) with [6 / 5] ].
  cbn [firstn]. unfold vsum. cbn [fold_right].
  f_equal. repeat (f_equal; try lra).
Qed.

(** In normal mode, a threshold in (0, 6/5] drops the third row. *)
Lemma normal_mode_merged thr :
  0 < thr -> thr <= 6 / 5 ->
  spectra_for_clustering 1 thr (4 / 10) false merged []
  = (Ret {| l2_spectra := [[1; 0]; [1; 0]];
            topics_dist := Some dist;
            density_filter := Some [true; true; false];
            local_density := Some density |},
     [(cache_path 1, [[0]; [0]; [6 / 5]])]).
Proof.
  intros H0 H1. unfold spectra_for_clustering, bind.
  rewrite n_neighbors_merged, l2_merged.
  unfold obtain_local_density. cbn [load].
  rewrite dist_merged, density_merged.
  unfold apply_density_filter, save, density. cbn [fst snd map].
  rewrite (Rltb_true 0 thr) by lra. rewrite (Rltb_false (6 / 5) thr) by lra.
  reflexivity.
Qed.

Lemma obtain_merged :
  obtain_local_density 1 (l2_normalize merged) 1 []
  = (Ret (Some dist, density),
     [(cache_path 1, [[0]; [0]; [6 / 5]])]).
Proof.
  unfold obtain_local_density. cbn [load].
  now rewrite l2_merged, dist_merged, density_merged.
Qed.

Lemma stats_mode_merged thr :
  spectra_for_clustering 1 thr (4 / 10) true merged []
  = (Ret {| l2_spectra := merged; topics_dist := None;
            density_filter := None; local_density := None |}, []).
Proof.
  unfold spectra_for_clustering, bind.
  now rewrite n_neighbors_merged, l2_merged.
Qed.

Lemma merged_rows_nonzero : Forall (fun r => dot r r <> 0) merged.
Proof. unfold merged. repeat (apply Forall_cons; [simpl; lra|]). constructor. Qed.


End ExDensityFacts.


Lemma mnonneg_ExChunk :
  mnonneg ExChunk.X /\ mnonneg ExChunk.W /\ mnonneg ExChunk.H_init.
Proof.
  unfold mnonneg, nonneg, ExChunk.X, ExChunk.W, ExChunk.H_init.
  repeat split; repeat (apply Forall_cons; [try lra|]); try constructor.
Qed.


(** * The claims *)

Import FitH FitRows FitHFacts FitRowsFacts ChunkFacts FitEntryFacts ChunkDescent.
Import OLSFacts.
Import SortFacts DensityFacts FilterFacts PipelineFacts ExDensityFacts.

(** C4: for non-negative [X] and [W] of compatible shapes and any
    [H_init] (or none, the random draw being non-negative), the refit
    returns a matrix [H] with one row per row of [X] whose entries are
    all [>= 0]. *)
Theorem fit_H_online_nonneg p W X H_init rnd fuel :
  0 < epsilon p ->
  (0 < chunk_size p)%nat ->
  (nrows X <= fuel)%nat ->
  mnonneg X -> mnonneg W ->
  (H_init = None -> mnonneg rnd) ->
  nrows (init_H H_init rnd) = nrows X ->
  exists H,
    fit_H_online p W fuel X H_init rnd = Some H
    /\ nrows H = nrows X
    /\ mnonneg H
    /\ forall i j, 0 <= entry H i j.
Proof.
  intros He Hc Hf HX HW Hr Hrows. unfold fit_H_online.
  destruct (chunk_loop_rows p W X (init_H H_init rnd) Hrows Hc
              (fun _ => True) (fun _ _ => I) fuel Hf) as (H & E & Hn & _).
  exists H. split; [exact E|]. split; [exact Hn|].
  assert (HH : mnonneg H).
  { apply (chunk_loop_nonneg p W He HW fuel X (init_H H_init rnd) 0%nat H HX);
      [|exact E].
    destruct H_init; simpl; [apply clamp_min0_nonneg | now apply Hr]. }
  split; [exact HH|].
  intros i j. unfold entry. apply nth_nonneg.
  destruct (Nat.lt_ge_cases i (length H)) as [Hi|Hi].
  - unfold mnonneg in HH. rewrite Forall_forall in HH. apply HH.
    now apply nth_In.
  - rewrite nth_overflow by exact Hi. constructor.
Qed.

(** C5: in an inner iteration, an entry whose denominator is below
    [epsilon] gets the ratio [0] and the new coefficient [0]; read over
    floating-point values, the ratio and the new coefficient of such an
    entry are the finite number [0] whatever the numerator is (also where
    the plain quotient is [inf] or [nan]), for a finite coefficient. *)
Theorem sub_epsilon_ratio_is_zero p W numer h i j :
  entry (mu_denom p W h) i j < epsilon p ->
  entry (mu_rates p W numer h) i j = 0
  /\ entry (mu_update p W numer h) i j = 0
  /\ forall (n d : IEEE.fl) (x : R),
       IEEE.flt d (IEEE.Fin (epsilon p)) = true ->
       IEEE.mu_entry (epsilon p) n d (IEEE.Fin x)
       = (IEEE.Fin 0, IEEE.Fin 0).
Proof.
  intro Hd. split; [now apply mu_rates_floor|].
  split; [now apply mu_update_floor|].
  intros n d x Hlt. unfold IEEE.mu_entry. rewrite Hlt. simpl.
  now rewrite Rmult_0_r.
Qed.

(** C10: zero is absorbing.  An entry of [h] that is zero is zero after
    the next update and after every later iteration of the chunk; an
    entry whose numerator is zero (as after the L1 clamp) or whose
    denominator is below [epsilon] is zero after the update; and in the
    returned [H] an entry is zero as soon as it was zero at some
    iteration of its row, the initial one included. *)
Theorem zero_is_absorbing p W X H_init rnd fuel :
  0 < epsilon p ->
  (0 < chunk_size p)%nat ->
  (nrows X <= fuel)%nat ->
  nrows (init_H H_init rnd) = nrows X ->
  (forall numer h i j,
      entry h i j = 0 -> entry (mu_update p W numer h) i j = 0)
  /\ (forall iters numer h i j,
      entry h i j = 0 -> entry (mu_loop p W iters numer h) i j = 0)
  /\ (forall numer h i j,
      entry numer i j = 0 -> entry (mu_update p W numer h) i j = 0)
  /\ (forall numer h i j,
      entry (mu_denom p W h) i j < epsilon p ->
      entry (mu_update p W numer h) i j = 0)
  /\ exists H,
      fit_H_online p W fuel X H_init rnd = Some H
      /\ forall i, (i < nrows X)%nat ->
           exists t, (t <= chunk_max_iter p)%nat
             /\ nth i H []
                = row_iter p W t (nth i X []) (nth i (init_H H_init rnd) [])
             /\ forall s j, (s <= t)%nat ->
                  nth j (row_iter p W s (nth i X [])
                           (nth i (init_H H_init rnd) [])) 0 = 0 ->
                  entry H i j = 0.
Proof.
  intros He Hc Hf Hrows.
  split; [intros; now apply mu_update_zero|].
  split; [intros; now apply mu_loop_zero|].
  split; [intros; now apply mu_update_zero_numer|].
  split; [intros; now apply mu_update_floor|].
  destruct (fit_rows p W X H_init rnd fuel
              (fun t => (t <= chunk_max_iter p)%nat) Hc Hf Hrows)
    as (H & E & Hn & Hrow).
  { intros numer h. apply mu_steps_le. }
  exists H. split; [exact E|].
  intros i Hi. destruct (Hrow i Hi) as (t & Ht & Et).
  exists t. split; [exact Ht|]. split; [exact Et|].
  intros s j Hs Hz. unfold entry. rewrite Et.
  replace t with ((t - s) + s)%nat by lia.
  rewrite row_iter_add. now apply row_iter_zero.
Qed.

(** C6, amended: for every [chunk_size >= 1] the refit returns an [H]
    whose row [i] is row [i] of the initial [H] after some number [t] of
    updates, at most [chunk_max_iter], against row [i] of [X] alone; when
    the convergence test cannot fire ([h_tol <= 0]) that number is
    [chunk_max_iter] for every row, and [H] does not depend on
    [chunk_size]. *)
Theorem chunk_size_only_sets_iteration_count p W X H_init rnd c fuel :
  0 < epsilon p ->
  (0 < c)%nat ->
  (nrows X <= fuel)%nat ->
  nrows (init_H H_init rnd) = nrows X ->
  exists H,
    fit_H_online (with_chunk_size p c) W fuel X H_init rnd = Some H
    /\ nrows H = nrows X
    /\ (forall i, (i < nrows X)%nat ->
          exists t, (t <= chunk_max_iter p)%nat
            /\ nth i H []
               = row_iter p W t (nth i X []) (nth i (init_H H_init rnd) []))
    /\ (h_tol p <= 0 ->
          H = map2 (row_iter p W (chunk_max_iter p)) X (init_H H_init rnd)).
Proof.
  intros He Hc Hf Hrows.
  set (q := with_chunk_size p c).
  destruct (fit_rows q W X H_init rnd fuel
              (fun t => (t <= chunk_max_iter p)%nat
                        /\ (h_tol p <= 0 -> t = chunk_max_iter p))
              Hc Hf Hrows)
    as (H & E & Hn & Hrow).
  { intros numer h. split.
    - apply (mu_steps_le q).
    - intro Ht. now apply (mu_steps_no_stop q). }
  exists H. split; [exact E|]. split; [exact Hn|]. split.
  - intros i Hi. destruct (Hrow i Hi) as (t & [Ht _] & Et).
    exists t. split; [exact Ht | exact Et].
  - intro Htol. unfold nrows in *.
    apply (nth_ext _ _ [] []).
    + rewrite map2_length_same by (symmetry; exact Hrows). exact Hn.
    + intros i Hi.
      assert (Hi' : (i < length X)%nat) by (rewrite <- Hn; exact Hi).
      destruct (Hrow i Hi') as (t & [_ Ht] & Et).
      etransitivity; [exact Et|]. rewrite (Ht Htol).
      symmetry. apply nth_map2; [exact Hi' | now rewrite Hrows].
Qed.

(** C6 as stated fails: with the default tolerance, iteration budget and
    epsilon, the same [X], [W] and [H_init] give different results with
    [chunk_size = 1] and with [chunk_size = 2] (all rows in one chunk).
    Row 1 stops after one update when it is a chunk of its own, and is
    updated a second time when it shares a chunk with row 0. *)
Lemma chunk_size_changes_result :
  fit_H_online (ExChunk.prm 1) ExChunk.W 2 ExChunk.X (Some ExChunk.H_init) []
    = Some ExChunk.H_by_row
  /\ fit_H_online (ExChunk.prm 2) ExChunk.W 2 ExChunk.X (Some ExChunk.H_init) []
    = Some ExChunk.H_one_chunk
  /\ entry ExChunk.H_by_row 1 1 = 1
  /\ entry ExChunk.H_one_chunk 1 1 = 300 / 301
  /\ fit_H_online (ExChunk.prm 1) ExChunk.W 2 ExChunk.X (Some ExChunk.H_init) []
     <> fit_H_online (ExChunk.prm 2) ExChunk.W 2 ExChunk.X (Some ExChunk.H_init) [].
Proof.
  split; [exact ExChunkFacts.run_by_row|].
  split; [exact ExChunkFacts.run_one_chunk|].
  split; [reflexivity|]. split; [reflexivity|].
  rewrite ExChunkFacts.run_by_row, ExChunkFacts.run_one_chunk.
  unfold ExChunk.H_by_row, ExChunk.H_one_chunk. intro E.
  injection E as _ E. lra.
Qed.

(** C8, amended: without L1 and L2 regularisation, an update of a
    non-negative chunk [h] against a non-negative basis [W] in which no
    positive coefficient has a denominator below [epsilon] does not
    increase the reconstruction error of the chunk (for any data [x] of
    matching shape). *)
Theorem mu_update_error_nonincreasing p W x h k f :
  0 < epsilon p ->
  l1_reg_H p <= 0 -> l2_reg_H p <= 0 ->
  (0 < f)%nat ->
  nrows W = k -> has_cols f W ->
  nrows h = nrows x -> has_cols f x -> has_cols k h ->
  mnonneg W -> mnonneg h ->
  (forall i j, 0 < entry h i j -> epsilon p <= entry (mu_denom p W h) i j) ->
  recon_error W x (mu_update p W (mu_numer p W x) h) <= recon_error W x h.
Proof.
  intros He H1 H2 Hf HWr HWc Hrows Hxc Hhc HW Hh Hfloor.
  unfold recon_error, norm. apply sqrt_le_1_alt.
  rewrite !sumsq_recon, mu_update_rowwise, mu_numer_rowwise.
  apply chunk_descent with (k := k) (f := f); auto.
  apply Forall_nth. intros i r Hi j Hj Hpos.
  specialize (Hfloor i j). unfold entry in Hfloor at 1.
  rewrite (nth_indep h [] r) in Hfloor by exact Hi.
  specialize (Hfloor Hpos).
  rewrite entry_mu_denom in Hfloor by exact Hi.
  now rewrite (nth_indep h [] r) in Hfloor by exact Hi.
Qed.

(** C8 as stated fails.  With the default [epsilon = 1e-16], the
    coefficient [h = 5e-17] reproduces [x = 5e-17] over [W = [[1]]]
    exactly; its denominator [5e-17] is below [epsilon], the update
    floors it to zero, and the error rises from [0] to [5e-17].  With
    [l1_reg_H = 1/2], or with [l2_reg_H = 1], the update of the exact
    solution [h = x = 1] gives [1/2], and the error rises from [0] to
    [1/2]. *)
Lemma update_can_increase_error :
  (recon_error ExFloor.W ExFloor.x ExFloor.h = 0
   /\ recon_error ExFloor.W ExFloor.x
        (mu_update ExFloor.prm ExFloor.W
           (mu_numer ExFloor.prm ExFloor.W ExFloor.x) ExFloor.h)
      = 1 / 20000000000000000)
  /\ (recon_error ExReg.W ExReg.x ExReg.h = 0
      /\ recon_error ExReg.W ExReg.x
           (mu_update (ExReg.prm (1 / 2) 0) ExReg.W
              (mu_numer (ExReg.prm (1 / 2) 0) ExReg.W ExReg.x) ExReg.h)
         = 1 / 2)
  /\ recon_error ExReg.W ExReg.x
        (mu_update (ExReg.prm 0 1) ExReg.W
           (mu_numer (ExReg.prm 0 1) ExReg.W ExReg.x) ExReg.h)
      = 1 / 2.
Proof.
  rewrite ExErrorFacts.floor_update, ExErrorFacts.l1_update,
    ExErrorFacts.l2_update.
  unfold ExFloor.W, ExFloor.x, ExFloor.h, ExReg.W, ExReg.x, ExReg.h.
  rewrite !ExErrorFacts.recon_error_1x1.
  repeat split;
    match goal with
    | |- Rabs ?a = _ =>
        first [ replace a with 0 by lra; apply Rabs_R0
              | apply Rabs_pos_eq; lra
              | rewrite Rabs_pos_eq by lra; lra ]
    end.
Qed.

(** C7: for [X] and [Y] with the same number of rows and every batch
    size from 1 upwards, the accumulated sums are [X^T X] and [X^T Y]
    (with [Y] standardised by its global column means and deviations when
    [normalize_y] is set), whatever the batch size; so two batch sizes
    give the same [Beta], and [X^T Y] has one column per column of [Y]:
    the batch size does not change which targets are fit. *)
Theorem ols_independent_of_batch_size
  (lstsq : matrix -> matrix -> matrix) X Y normalize_y (b1 b2 : Z) p t :
  (1 <= b1)%Z -> (1 <= b2)%Z ->
  nrows X = nrows Y -> (0 < nrows X)%nat ->
  has_cols p X -> has_cols t Y ->
  let XtX := matmul (transpose X) X in
  let XtY := matmul (transpose X) (ols_targets normalize_y Y) in
  ols_accumulate X Y normalize_y b1 = Ok (XtX, XtY)
  /\ ols_accumulate X Y normalize_y b2 = Ok (XtX, XtY)
  /\ efficient_ols_all_cols lstsq X Y normalize_y b1 = Ok (lstsq XtX XtY)
  /\ efficient_ols_all_cols lstsq X Y normalize_y b1
     = efficient_ols_all_cols lstsq X Y normalize_y b2
  /\ nrows XtY = p
  /\ has_cols t XtY.
Proof.
  intros Hb1 Hb2 Hrows Hn HX HY XtX XtY.
  assert (Hacc : forall b, (1 <= b)%Z ->
            ols_accumulate X Y normalize_y b = Ok (XtX, XtY)).
  { intros b Hb. rewrite <- (Z2Nat.id b) by lia.
    apply (ols_accumulate_gram X Y normalize_y p t); auto. lia. }
  assert (Hols : forall b, (1 <= b)%Z ->
            efficient_ols_all_cols lstsq X Y normalize_y b
            = Ok (lstsq XtX XtY)).
  { intros b Hb. unfold efficient_ols_all_cols. now rewrite Hacc. }
  repeat split; auto.
  - now rewrite !Hols.
  - unfold XtY. rewrite matmul_transpose_gram. unfold gram, nrows.
    rewrite length_map, length_seq. now apply ncols_has_cols.
  - unfold XtY. rewrite matmul_transpose_gram. unfold gram, has_cols.
    apply Forall_map, Forall_forall. intros i _.
    rewrite length_map, length_seq. apply ncols_has_cols.
    + apply ols_targets_has_cols; [unfold nrows in *; lia | assumption].
    + rewrite ols_targets_length. unfold nrows in *. lia.
Qed.

(** C9: when no density is cached for [k], the LocalDensity of row [i]
    of the L2-normalised spectra is the mean Euclidean distance from
    that row to its [n] nearest other rows, with
    [n = floor(local_neighborhood_size * num_rows / k)]; it is also the
    sum of the [n + 1] smallest entries of row [i] of the pairwise
    distance matrix, divided by [n]. *)
Theorem local_density_is_mean_distance_to_nearest
  (k : nat) (local_neighborhood_size : R) (l2 : matrix) (n i : nat)
  (st : store) :
  (0 < k)%nat ->
  INR n <= local_neighborhood_size * INR (nrows l2) / INR k < INR n + 1 ->
  (1 <= n)%nat -> (n + 1 < nrows l2)%nat -> (i < nrows l2)%nat ->
  load (cache_path k) st = None ->
  n_neighbors_of local_neighborhood_size (nrows l2) k = Ret (Z.of_nat n)
  /\ exists density,
       obtain_local_density k l2 (Z.of_nat n) st
       = (Ret (Some (euclidean_distances l2), density),
          save (cache_path k) (map (fun d => [d]) density) st)
       /\ length density = nrows l2
       /\ nth i density 0 = mean_nearest n i l2
       /\ nth i density 0
          = sum_smallest (n + 1) (nth i (euclidean_distances l2) []) / INR n.
Proof.
  intros Hk Hfloor Hn Hrows Hi Hcache. split.
  - unfold n_neighbors_of.
    destruct (Nat.eqb_spec k 0) as [E|_]; [lia|].
    now rewrite (py_int_floor _ n).
  - exists (map (fun row => sum_smallest (S n) row / INR n)
              (euclidean_distances l2)).
    assert (Hnth : nth i (map (fun row => sum_smallest (S n) row / INR n)
                            (euclidean_distances l2)) 0
                   = sum_smallest (S n) (nth i (euclidean_distances l2) [])
                     / INR n).
    { rewrite (nth_indep _ 0 ((fun row => sum_smallest (S n) row / INR n) []))
        by (rewrite length_map; now rewrite euclidean_distances_rows).
      now rewrite (map_nth (fun row => sum_smallest (S n) row / INR n)). }
    split; [|split; [|split]].
    + unfold obtain_local_density. rewrite Hcache.
      now rewrite compute_local_density_ok.
    + rewrite length_map. apply euclidean_distances_rows.
    + rewrite Hnth, sum_smallest_row by exact Hi. reflexivity.
    + rewrite Hnth. now replace (n + 1)%nat with (S n) by lia.
Qed.


(** C1, amended: in evaluation mode the pipeline normalises the rows
    and goes on to cluster all of them: no LocalDensity is computed or
    loaded and no row is dropped.  When the library calls accept their
    inputs (no zero row in the spectra, [1 <= k <=] the number of rows
    for the clustering, more than one label and fewer labels than rows
    for the silhouette score, medians of non-zero sum, and a valid loss,
    a chunk size of at least 1 and one random start per row of the
    counts for the refit), it aggregates, refits the usages, computes
    the silhouette score of the clustering and the prediction error, the
    squared Frobenius norm of
    [normalized counts - UsageMatrix * MedianSpectrum], and returns the
    ConsensusStats record; the later stages do not run and nothing is
    saved. *)
Theorem stats_mode_skips_density_and_filter lib inp a st :
  let l2 := l2_normalize (merged_spectra inp) in
  let labels := kmeans lib (k a) l2 in
  let medians := groupby_median lib labels l2 in
  let median := row_normalize medians in
  let rnd := torch_rand lib 0 (nrows (norm_counts inp)) (nrows median) in
  skip_density_and_return_after_stats a = true ->
  (0 < k a)%nat ->
  (k a <= nrows (merged_spectra inp))%nat ->
  (1 < length (classes labels) < nrows (merged_spectra inp))%nat ->
  Forall (fun r => dot r r <> 0) (merged_spectra inp) ->
  Forall (fun r => vsum r <> 0) medians ->
  run_beta_loss inp <> other_value ->
  (0 < online_chunk_size inp)%nat ->
  nrows rnd = nrows (norm_counts inp) ->
  spectra_for_clustering (k a) (density_threshold a)
    (local_neighborhood_size a) true (merged_spectra inp) st
  = (Ret {| l2_spectra := l2; topics_dist := None;
            density_filter := None; local_density := None |}, st)
  /\ exists U,
       refit_usage lib inp 0 (norm_counts inp) median = Ret U
       /\ nrows U = nrows (norm_counts inp)
       /\ consensus lib inp a st
          = (Ret (Some {| stats_k := k a;
                          stats_local_density_threshold :=
                            density_threshold a;
                          stats_silhouette := silhouette_score lib l2 labels;
                          stats_prediction_error :=
                            sumsq (msub (norm_counts inp)
                                     (matmul U median)) |}),
             st).
Proof.
  intros l2 labels medians median rnd Hskip Hk Hrows Hlab _ _ Hb Hc Hrnd.
  assert (Hs : spectra_for_clustering (k a) (density_threshold a)
                 (local_neighborhood_size a) true (merged_spectra inp) st
               = (Ret {| l2_spectra := l2; topics_dist := None;
                         density_filter := None; local_density := None |},
                  st)).
  { unfold spectra_for_clustering, bind, n_neighbors_of.
    destruct (Nat.eqb_spec (k a) 0) as [E|_]; [lia | reflexivity]. }
  split; [exact Hs|].
  destruct (refit_usage_returns lib inp 0 (norm_counts inp) median Hb Hc Hrnd)
    as (U & HU & HnU).
  exists U. split; [exact HU|]. split; [exact HnU|].
  assert (Hl2 : nrows l2 = nrows (merged_spectra inp))
    by apply l2_normalize_rows.
  unfold consensus. rewrite Hskip, Hs. unfold bind, cluster_and_fit, bind.
  cbn [l2_spectra]. fold l2 labels medians median.
  assert (E1 : (nrows l2 <? k a)%nat = false)
    by (apply Nat.ltb_ge; rewrite Hl2; exact Hrows).
  rewrite E1, HU, Hskip.
  assert (E2 : silhouette_defined l2 labels = true).
  { unfold silhouette_defined. cbv zeta. rewrite Hl2.
    apply andb_true_iff. split; apply Nat.ltb_lt; lia. }
  rewrite E2. reflexivity.
Qed.



(** C1 as stated fails: the third row has LocalDensity 6/5, above the
    threshold 1/2, and in evaluation mode it is still among the rows
    handed to the clustering; in normal mode it is dropped. *)
Lemma stats_mode_keeps_dense_row :
  compute_local_density
    (euclidean_distances (l2_normalize ExDensity.merged)) 1
  = Ret [0; 0; 6 / 5]
  /\ 1 / 2 <= 6 / 5
  /\ spectra_for_clustering 1 (1 / 2) (4 / 10) true ExDensity.merged []
     = (Ret {| l2_spectra := [[1; 0]; [1; 0]; [7 / 25; 24 / 25]];
               topics_dist := None; density_filter := None;
               local_density := None |}, [])
  /\ fst (spectra_for_clustering 1 (1 / 2) (4 / 10) false ExDensity.merged [])
     = Ret {| l2_spectra := [[1; 0]; [1; 0]];
              topics_dist := Some ExDensity.dist;
              density_filter := Some [true; true; false];
              local_density := Some ExDensity.density |}.
Proof.
  split; [|split; [|split]].
  - rewrite l2_merged, dist_merged. apply density_merged.
  - lra.
  - apply stats_mode_merged.
  - rewrite normal_mode_merged by lra. reflexivity.
Qed.

(** * The theorems at concrete inputs *)

(** C4 at a concrete input: the refit of [ExChunk] with one row per chunk returns a non-negative [H]. *)
Lemma fit_H_online_nonneg_witness :
  exists H,
    fit_H_online (ExChunk.prm 1) ExChunk.W 2 ExChunk.X
      (Some ExChunk.H_init) [] = Some H
    /\ nrows H = nrows ExChunk.X
    /\ mnonneg H
    /\ forall i j, 0 <= entry H i j.
Proof.
  apply (fit_H_online_nonneg (ExChunk.prm 1) ExChunk.W ExChunk.X
           (Some ExChunk.H_init) [] 2).
  - cbv [epsilon ExChunk.prm]. lra.
  - simpl. lia.
  - simpl. lia.
  - apply mnonneg_ExChunk.
  - apply mnonneg_ExChunk.
  - discriminate.
  - reflexivity.
Defined.

(** C5 at a concrete input: the entry of [ExFloor], whose denominator [5e-17] is below [epsilon], gets the ratio [0] and the new value [0]. *)
Lemma sub_epsilon_ratio_is_zero_witness :
  entry (mu_rates ExFloor.prm ExFloor.W
           (mu_numer ExFloor.prm ExFloor.W ExFloor.x) ExFloor.h) 0 0 = 0
  /\ entry (mu_update ExFloor.prm ExFloor.W
             (mu_numer ExFloor.prm ExFloor.W ExFloor.x) ExFloor.h) 0 0 = 0.
Proof.
  destruct (sub_epsilon_ratio_is_zero ExFloor.prm ExFloor.W
              (mu_numer ExFloor.prm ExFloor.W ExFloor.x) ExFloor.h 0 0)
    as (H1 & H2 & _).
  - cbv [entry mu_denom WWT matmul transpose madd mscale
         map2 map seq ncols col dot nth length
         l2_reg_H epsilon ExFloor.prm ExFloor.W ExFloor.h].
    rewrite Rltb_false by lra. lra.
  - split; assumption.
Defined.

(** C10 at a concrete input: an initial [H] with a zero at entry (0, 0) gives a result with a zero there. *)
Lemma zero_is_absorbing_witness :
  exists H,
    fit_H_online (ExChunk.prm 1) ExChunk.W 2 ExChunk.X
      (Some [[0; 1]; [1; 1]]) [] = Some H
    /\ entry H 0 0 = 0.
Proof.
  destruct (zero_is_absorbing (ExChunk.prm 1) ExChunk.W ExChunk.X
              (Some [[0; 1]; [1; 1]]) [] 2)
    as (_ & _ & _ & _ & H & E & Hrow).
  - cbv [epsilon ExChunk.prm]. lra.
  - simpl. lia.
  - simpl. lia.
  - reflexivity.
  - exists H. split; [exact E|].
    destruct (Hrow 0%nat) as (t & _ & _ & Hz); [simpl; lia|].
    apply (Hz 0%nat 0%nat); [lia|].
    cbv [row_iter Nat.iter nat_rect init_H clamp_min0 map nth clamp0].
    rewrite Rltb_false by lra. reflexivity.
Defined.

(** C6 at a concrete input: the refit of [ExChunk] with both rows in one chunk returns an [H] of two rows. *)
Lemma chunk_size_only_sets_iteration_count_witness :
  exists H,
    fit_H_online (with_chunk_size (ExChunk.prm 1) 2) ExChunk.W 2 ExChunk.X
      (Some ExChunk.H_init) [] = Some H
    /\ nrows H = 2%nat.
Proof.
  destruct (chunk_size_only_sets_iteration_count (ExChunk.prm 1) ExChunk.W
              ExChunk.X (Some ExChunk.H_init) [] 2 2)
    as (H & E & Hn & _).
  - cbv [epsilon ExChunk.prm]. lra.
  - lia.
  - simpl. lia.
  - reflexivity.
  - exists H. split; [exact E | exact Hn].
Defined.

(** C8 at a concrete input: the first update of [ExChunk], where no denominator is floored, does not raise the error. *)
Lemma mu_update_error_nonincreasing_witness :
  recon_error ExChunk.W ExChunk.X
    (mu_update (ExChunk.prm 2) ExChunk.W
       (mu_numer (ExChunk.prm 2) ExChunk.W ExChunk.X) ExChunk.H_init)
  <= recon_error ExChunk.W ExChunk.X ExChunk.H_init.
Proof.
  apply (mu_update_error_nonincreasing (ExChunk.prm 2) ExChunk.W ExChunk.X
           ExChunk.H_init 2 2).
  - cbv [epsilon ExChunk.prm]. lra.
  - cbv [l1_reg_H ExChunk.prm]. lra.
  - cbv [l2_reg_H ExChunk.prm]. lra.
  - lia.
  - reflexivity.
  - repeat constructor.
  - reflexivity.
  - repeat constructor.
  - repeat constructor.
  - apply mnonneg_ExChunk.
  - apply mnonneg_ExChunk.
  - intros i j Hpos. unfold ExChunk.H_init in *.
    rewrite ExChunkFacts.denom_rows.
    cbv [epsilon ExChunk.prm].
    destruct i as [|[|i]]; destruct j as [|[|j]];
      cbv [entry nth] in *; try lra;
      try (destruct i; lra); try (destruct j; lra);
      try (destruct i; destruct j; lra).
Defined.

(** C7 at a concrete input: two data rows, batch sizes 1 and 2. *)
Lemma ols_independent_of_batch_size_witness :
  OLS.efficient_ols_all_cols (fun _ B => B) [[1]; [2]] [[1]; [3]] false 1
  = OLS.efficient_ols_all_cols (fun _ B => B) [[1]; [2]] [[1]; [3]] false 2.
Proof.
  apply (ols_independent_of_batch_size (fun _ B => B)
           [[1]; [2]] [[1]; [3]] false 1 2 1 1).
  - lia.
  - lia.
  - reflexivity.
  - simpl. lia.
  - repeat constructor.
  - repeat constructor.
Defined.

(** C9 at a concrete input: the density of the third program of [ExDensity] is its distance to the nearest other program. *)
Lemma local_density_is_mean_distance_to_nearest_witness :
  exists density,
    obtain_local_density 1 ExDensity.merged 1 []
    = (Ret (Some (euclidean_distances ExDensity.merged), density),
       save (cache_path 1) (map (fun d => [d]) density) [])
    /\ nth 2 density 0 = mean_nearest 1 2 ExDensity.merged.
Proof.
  destruct (local_density_is_mean_distance_to_nearest 1 (4 / 10)
              ExDensity.merged 1 2 [])
    as (_ & density & E & _ & Hm & _).
  - lia.
  - simpl. lra.
  - lia.
  - simpl. lia.
  - simpl. lia.
  - reflexivity.
  - exists density. split; [exact E | exact Hm].
Defined.


(** C1 at a concrete input: evaluation mode on [ExDensity] with two clusters returns the statistics and leaves the store empty. *)
Lemma stats_mode_skips_density_and_filter_witness :
  exists stats,
    consensus ExStats.lib ExPipeline.inp ExStats.args [] = (Ret (Some stats), [])
    /\ stats_k stats = 2%nat
    /\ stats_local_density_threshold stats = 1 / 2
    /\ stats_silhouette stats = 2 / 3.
Proof.
  pose proof (stats_mode_skips_density_and_filter ExStats.lib ExPipeline.inp
                ExStats.args []) as T.
  cbv zeta in T.
  change (merged_spectra ExPipeline.inp) with ExDensity.merged in T.
  rewrite l2_merged in T.
  destruct T as (_ & U & _ & _ & E).
  - reflexivity.
  - simpl. lia.
  - simpl. lia.
  - simpl. lia.
  - exact merged_rows_nonzero.
  - simpl. repeat (apply Forall_cons; [simpl; lra|]). constructor.
  - discriminate.
  - simpl. lia.
  - reflexivity.
  - eexists. split; [exact E|]. repeat split.
Defined.

(** * Further properties *)

Import SumFacts RowDescent.

(** ** The refit at its edges *)

Module FitExtraFacts.

Lemma chunk_loop_stuck p W fuel X_t H_t idx :
  chunk_size p = 0%nat -> (idx < nrows X_t)%nat ->
  chunk_loop p W fuel X_t H_t idx = None.
Proof.
  intros Hc Hi. revert H_t.
  induction fuel as [|fuel IH]; intro H_t; simpl;
    destruct (Nat.leb_spec (nrows X_t) idx) as [E|_]; try lia;
    [reflexivity|].
  rewrite Hc, Nat.add_0_r. apply IH.
Qed.

Lemma clamp0_nonpos a : a <= 0 -> clamp0 a = 0.
Proof.
  intro H. unfold clamp0, Rltb. destruct (Rlt_dec a 0); lra.
Qed.

Lemma entry_clamp_min0 M i j : entry (clamp_min0 M) i j = clamp0 (entry M i j).
Proof.
  unfold entry, clamp_min0.
  assert (E0 : clamp0 0 = 0) by (apply clamp0_id; lra).
  revert M; induction i as [|i IH]; intros [|r M]; simpl;
    try (destruct j; now rewrite E0).
  - revert r; induction j as [|j IHj]; intros [|a r]; simpl;
      try (now rewrite E0); auto.
  - apply IH.
Qed.

End FitExtraFacts.
Import FitExtraFacts.

(** ** Stationary points of the update *)

Module StationaryFacts.

Lemma row_matmul_length a B : length (row_matmul a B) = ncols B.
Proof. unfold row_matmul. now rewrite length_map, length_seq. Qed.

Lemma clamp_min0_fixes M : mnonneg M -> clamp_min0 M = M.
Proof.
  unfold clamp_min0, mnonneg, nonneg. intro H.
  rewrite <- (map_id M) at 2. apply map_ext_in. intros r Hr.
  rewrite Forall_forall in H. specialize (H r Hr).
  rewrite <- (map_id r) at 2. apply map_ext_in. intros a Ha.
  rewrite Forall_forall in H. apply clamp0_id. now apply H.
Qed.

Section Row.

Variable p : params.
Variable W : matrix.
Variables k f : nat.
Hypothesis W_rows : length W = k.
Hypothesis W_cols : has_cols f W.
Hypothesis k_pos : (0 < k)%nat.
Hypothesis f_pos : (0 < f)%nat.

Lemma row_numer_length x : length (row_numer p W x) = k.
Proof.
  unfold row_numer.
  destruct (Rltb 0 (l1_reg_H p)); rewrite ?length_map, row_matmul_length;
    now apply ncols_transpose with (f := f).
Qed.

Lemma row_denom_length h : length h = k -> length (row_denom p W h) = k.
Proof.
  intro Hh. unfold row_denom.
  destruct (Rltb 0 (l2_reg_H p));
    rewrite ?map2_length, ?length_map, row_matmul_length,
      (ncols_WWT W k f W_rows W_cols k_pos f_pos); lia.
Qed.

Lemma row_update_stationary x h :
  length h = k ->
  (forall j, (j < k)%nat ->
     nth j h 0 = 0
     \/ (0 < nth j (row_denom p W h) 0
         /\ epsilon p <= nth j (row_denom p W h) 0
         /\ nth j (row_numer p W x) 0 = nth j (row_denom p W h) 0)) ->
  row_update p W (row_numer p W x) h = h.
Proof.
  intros Hh Hst.
  pose proof (row_numer_length x) as Ln.
  pose proof (row_denom_length h Hh) as Ld.
  assert (Lr : length (row_rates p W (row_numer p W x) h) = k).
  { unfold row_rates. rewrite !map2_length. lia. }
  apply (nth_ext _ _ 0 0).
  - unfold row_update. rewrite map2_length. lia.
  - intros j Hj. unfold row_update in *. rewrite map2_length in Hj.
    rewrite nth_map2_mult by lia.
    destruct (Hst j) as [E | (Hpos & Hge & E)]; [lia | rewrite E; lra |].
    unfold row_rates.
    rewrite (nth_map2 _ _ _ j 0 0 0) by (rewrite ?map2_length; lia).
    rewrite (nth_map2 _ _ _ j 0 0 0) by lia.
    rewrite Rltb_false by lra. rewrite E. field. lra.
Qed.

Lemma row_iter_stationary t x h :
  row_update p W (row_numer p W x) h = h -> row_iter p W t x h = h.
Proof.
  intro E. unfold row_iter. induction t as [|t IH]; simpl; [reflexivity|].
  now rewrite IH.
Qed.

End Row.

Lemma nth_map_rows (F : vec -> vec) (M : matrix) i :
  (i < length M)%nat -> nth i (map F M) [] = F (nth i M []).
Proof.
  intro Hi. rewrite (nth_indep _ [] (F [])) by (now rewrite length_map).
  apply map_nth.
Qed.

End StationaryFacts.
Import StationaryFacts.

(** ** Standardised targets *)

Module StandardizeFacts.

Lemma var_floor_pos : 0 < var_floor.
Proof. unfold var_floor. lra. Qed.

Lemma sqrt_var_floor : sqrt var_floor = 1 / 1000000.
Proof.
  replace var_floor with ((1 / 1000000) * (1 / 1000000))
    by (unfold var_floor; field).
  apply sqrt_square. lra.
Qed.

Lemma nth_std_of_var varY j :
  (j < length varY)%nat ->
  nth j (std_of_var varY) 0
  = sqrt (if Rltb (nth j varY 0) var_floor then var_floor else nth j varY 0).
Proof.
  intro Hj. unfold std_of_var. rewrite map_map.
  rewrite (nth_indep _ 0 (sqrt (if Rltb 0 var_floor then var_floor else 0)))
    by (now rewrite length_map).
  exact (map_nth (fun v => sqrt (if Rltb v var_floor then var_floor else v))
           varY 0 j).
Qed.

Lemma std_of_var_floor varY :
  Forall (fun s => 1 / 1000000 <= s) (std_of_var varY).
Proof.
  unfold std_of_var. rewrite map_map. apply Forall_map, Forall_forall.
  intros v _. rewrite <- sqrt_var_floor. apply sqrt_le_1_alt.
  unfold Rltb. destruct (Rlt_dec v var_floor); lra.
Qed.

Lemma vsum_affine c s l :
  vsum (map (fun y => (y - c) / s) l) = (vsum l - INR (length l) * c) / s.
Proof.
  induction l as [|y l IH].
  - simpl. unfold Rdiv. lra.
  - cbn [map vsum fold_right length]. fold (vsum (map (fun y => (y - c) / s) l)).
    fold (vsum l). rewrite IH, S_INR. unfold Rdiv. lra.
Qed.

Lemma vsum_scaled_squares c s l :
  vsum (map (fun y => ((y - c) / s - 0) * ((y - c) / s - 0)) l)
  = vsum (map (fun y => (y - c) * (y - c)) l) * (/ s * / s).
Proof.
  induction l as [|y l IH].
  - simpl. lra.
  - cbn [map vsum fold_right].
    fold (vsum (map (fun y => ((y - c) / s - 0) * ((y - c) / s - 0)) l)).
    fold (vsum (map (fun y => (y - c) * (y - c)) l)).
    rewrite IH. unfold Rdiv. lra.
Qed.

Lemma col_standardize m sd Y t j :
  has_cols t Y -> length m = t -> length sd = t -> (j < t)%nat ->
  col j (standardize m sd Y)
  = map (fun y => (y - nth j m 0) / nth j sd 0) (col j Y).
Proof.
  intros HY Hm Hsd Hj. unfold col, standardize. rewrite !map_map.
  apply map_ext_in. intros r Hr.
  unfold has_cols in HY. rewrite Forall_forall in HY. specialize (HY r Hr).
  rewrite (nth_map2 _ _ _ j 0 0 0) by (rewrite ?map2_length; lia).
  rewrite (nth_map2 _ _ _ j 0 0 0) by lia.
  reflexivity.
Qed.

End StandardizeFacts.
Import StandardizeFacts.

(** ** The solver at its edges *)

Module OLSEdgeFacts.

Lemma dot_comm a b : dot a b = dot b a.
Proof.
  revert b; induction a as [|x a IH]; intros [|y b]; simpl;
    try reflexivity.
  rewrite IH. lra.
Qed.

Lemma entry_gram p t A C i j :
  (i < p)%nat -> (j < t)%nat ->
  entry (gram p t A C) i j = dot (col i A) (col j C).
Proof.
  intros Hi Hj. unfold entry, gram.
  rewrite (nth_indep _ [] ((fun i => map (fun j => dot (col i A) (col j C))
                                       (seq 0 t)) O))
    by (now rewrite length_map, length_seq).
  rewrite (map_nth (fun i => map (fun j => dot (col i A) (col j C)) (seq 0 t))).
  rewrite seq_nth by exact Hi. cbn [Nat.add].
  now rewrite nth_map_seq.
Qed.

End OLSEdgeFacts.
Import OLSEdgeFacts.

(** ** Rescaled rows and distances *)

Module NormalizeFacts.

Lemma dot_map_div r c :
  dot (map (fun a => a / c) r) (map (fun a => a / c) r)
  = dot r r * (/ c * / c).
Proof.
  induction r as [|x r IH]; simpl; [lra|]. rewrite IH. unfold Rdiv. lra.
Qed.

Lemma l2_row_unit r :
  dot r r <> 0 ->
  dot (map (fun a => a / sqrt (dot r r)) r)
      (map (fun a => a / sqrt (dot r r)) r) = 1.
Proof.
  intro H. rewrite dot_map_div.
  pose proof (dot_self_nonneg r) as Hn.
  assert (Hs : 0 < sqrt (dot r r)) by (apply sqrt_lt_R0; lra).
  rewrite <- (sqrt_sqrt (dot r r)) at 1 by exact Hn.
  field. lra.
Qed.

Lemma vsum_map_div r c : vsum (map (fun a => a / c) r) = vsum r / c.
Proof.
  induction r as [|x r IH].
  - simpl. unfold Rdiv. lra.
  - cbn [map vsum fold_right]. fold (vsum (map (fun a => a / c) r)).
    fold (vsum r). rewrite IH. unfold Rdiv. lra.
Qed.

Lemma vsum_map_mult r c : vsum (map (fun x => x * c) r) = vsum r * c.
Proof.
  induction r as [|x r IH].
  - simpl. lra.
  - cbn [map vsum fold_right]. fold (vsum (map (fun x => x * c) r)).
    fold (vsum r). rewrite IH. lra.
Qed.

Lemma dot_sub_expand a b :
  length a = length b ->
  dot (map2 Rminus a b) (map2 Rminus a b)
  = dot a a + dot b b - 2 * dot a b.
Proof.
  revert b; induction a as [|x a IH]; intros [|y b] H; simpl in *;
    try discriminate; [lra|].
  rewrite IH by (now injection H). lra.
Qed.

Lemma dot_sub_sym a b :
  dot (map2 Rminus a b) (map2 Rminus a b)
  = dot (map2 Rminus b a) (map2 Rminus b a).
Proof.
  revert b; induction a as [|x a IH]; intros [|y b]; simpl;
    try reflexivity.
  rewrite IH. lra.
Qed.

Lemma distance_sym a b : distance a b = distance b a.
Proof. unfold distance. cbv zeta. now rewrite dot_sub_sym. Qed.

Lemma nonneg_map_div r c : 0 < c -> nonneg r -> nonneg (map (fun a => a / c) r).
Proof.
  intros Hc Hr. apply Forall_map. eapply Forall_impl; [|exact Hr].
  intros a Ha. cbv beta. apply Rmult_le_pos; [exact Ha|].
  left. now apply Rinv_0_lt_compat.
Qed.

Lemma sqrt2_lt_2 : sqrt 2 < 2.
Proof.
  replace 2 with (sqrt (2 * 2)) at 2 by (apply sqrt_square; lra).
  apply sqrt_lt_1_alt. lra.
Qed.

(** Two non-negative unit vectors are at most [sqrt 2] apart. *)
Lemma distance_unit_nonneg a b :
  length a = length b -> nonneg a -> nonneg b ->
  dot a a = 1 -> dot b b = 1 -> distance a b <= sqrt 2.
Proof.
  intros Hl Ha Hb Ea Eb. unfold distance. cbv zeta.
  apply sqrt_le_1_alt. rewrite dot_sub_expand, Ea, Eb by exact Hl.
  pose proof (dot_nonneg a b Ha Hb). lra.
Qed.

Lemma insert_asc_Forall (P : R -> Prop) a l :
  P a -> Forall P l -> Forall P (insert_asc a l).
Proof.
  intros Ha Hl. induction Hl as [|b l Hb Hl IH]; simpl.
  - apply Forall_cons; [assumption | constructor].
  - destruct (Rleb a b).
    + apply Forall_cons; [assumption|]. now apply Forall_cons.
    + now apply Forall_cons.
Qed.

Lemma sort_asc_Forall (P : R -> Prop) l : Forall P l -> Forall P (sort_asc l).
Proof.
  induction 1 as [|a l Ha Hl IH]; simpl; [constructor|].
  now apply insert_asc_Forall.
Qed.

Lemma vsum_bounded c l :
  Forall (fun d => d <= c) l -> vsum l <= INR (length l) * c.
Proof.
  induction 1 as [|d l Hd Hl IH].
  - simpl. lra.
  - cbn [vsum fold_right length]. fold (vsum l). rewrite S_INR. lra.
Qed.

End NormalizeFacts.
Import NormalizeFacts.

(** ** Densities of unit rows *)

Module UnitRowFacts.

Lemma l2_normalize_unit_rows f M :
  mnonneg M -> has_cols f M -> Forall (fun r => dot r r <> 0) M ->
  Forall (unit_row f) (l2_normalize M).
Proof.
  intros Hn Hc Hz. unfold l2_normalize. apply Forall_map.
  unfold mnonneg, has_cols in *. rewrite Forall_forall in *.
  intros r Hr. specialize (Hn r Hr). specialize (Hc r Hr).
  specialize (Hz r Hr). cbv beta in *.
  pose proof (dot_self_nonneg r) as Hp.
  assert (Hs : 0 < sqrt (dot r r)) by (apply sqrt_lt_R0; lra).
  repeat split.
  - now rewrite length_map.
  - now apply nonneg_map_div.
  - now apply l2_row_unit.
Qed.

Lemma In_others {T} i (M : list T) x :
  In x (firstn i M ++ skipn (S i) M) -> In x M.
Proof.
  intro H. apply in_app_or in H. destruct H as [H|H].
  - rewrite <- (firstn_skipn i M). apply in_or_app. now left.
  - rewrite <- (firstn_skipn (S i) M). apply in_or_app. now right.
Qed.

Lemma distances_to_others_bounded f M i :
  Forall (unit_row f) M -> (i < nrows M)%nat ->
  Forall (fun d => d <= sqrt 2) (distances_to_others i M).
Proof.
  intros HM Hi. unfold distances_to_others. apply Forall_map.
  rewrite Forall_forall in *. intros v Hv. apply In_others in Hv.
  destruct (HM (nth i M []) (nth_In _ _ Hi)) as (La & Na & Ea).
  destruct (HM v Hv) as (Lb & Nb & Eb).
  apply distance_unit_nonneg; try assumption. now rewrite La, Lb.
Qed.

Lemma mean_nearest_bounded f M n i :
  Forall (unit_row f) M -> (i < nrows M)%nat -> (1 <= n)%nat ->
  mean_nearest n i M <= sqrt 2.
Proof.
  intros HM Hi Hn. unfold mean_nearest.
  set (l := firstn n (sort_asc (distances_to_others i M))).
  assert (Hb : Forall (fun d => d <= sqrt 2) l).
  { apply Forall_firstn, sort_asc_Forall.
    now apply distances_to_others_bounded with (f := f). }
  pose proof (vsum_bounded _ _ Hb) as Hs.
  assert (Hl : (length l <= n)%nat) by (unfold l; apply firstn_le_length).
  assert (HnR : 0 < INR n) by (apply lt_0_INR; lia).
  assert (HlR : INR (length l) <= INR n) by (now apply le_INR).
  pose proof (sqrt_pos 2) as H2.
  apply Rmult_le_reg_r with (INR n); [exact HnR|].
  unfold Rdiv. rewrite Rmult_assoc, Rinv_l, Rmult_1_r by lra.
  apply Rle_trans with (INR (length l) * sqrt 2); [exact Hs|].
  rewrite (Rmult_comm (sqrt 2)). apply Rmult_le_compat_r; assumption.
Qed.

Lemma density_bounded f M n :
  Forall (unit_row f) M -> (1 <= n)%nat ->
  Forall (fun d => d <= sqrt 2)
    (map (fun row => sum_smallest (S n) row / INR n) (euclidean_distances M)).
Proof.
  intros HM Hn. rewrite Forall_forall. intros d Hd.
  apply (In_nth _ _ 0) in Hd. destruct Hd as (i & Hi & <-).
  rewrite length_map in Hi.
  assert (Hi' : (i < nrows M)%nat)
    by (rewrite <- euclidean_distances_rows; exact Hi).
  rewrite (nth_indep _ 0 ((fun row => sum_smallest (S n) row / INR n) []))
    by (now rewrite length_map).
  rewrite (map_nth (fun row => sum_smallest (S n) row / INR n)).
  rewrite sum_smallest_row by exact Hi'.
  now apply (mean_nearest_bounded f M n i).
Qed.

End UnitRowFacts.
Import UnitRowFacts.

(** ** The density cache *)

Module StoreFacts.

Lemma slot_eqb_refl s : slot_eqb s s = true.
Proof. now destruct s. Qed.

Lemma path_eqb_refl f : path_eqb f f = true.
Proof.
  unfold path_eqb. now rewrite slot_eqb_refl, Nat.eqb_refl, String.eqb_refl.
Qed.

Lemma load_save_same f data st : load f (save f data st) = Some data.
Proof. unfold save. simpl. now rewrite path_eqb_refl. Qed.

Lemma cache_path_eqb k k' :
  path_eqb (cache_path k') (cache_path k) = (k' =? k)%nat.
Proof. unfold path_eqb, cache_path. simpl. now rewrite andb_true_r. Qed.

Lemma col_singletons (density : vec) :
  col 0 (map (fun d => [d]) density) = density.
Proof.
  unfold col. rewrite map_map. simpl. apply map_id.
Qed.


End StoreFacts.
Import StoreFacts.

(** ** The saved outputs *)

Module OutputFacts.

Lemma slot_eqb_neq s s' : s <> s' -> slot_eqb s s' = false.
Proof. destruct s, s'; intro H; try reflexivity; now contradiction H. Qed.

Lemma load_out_same lib a s d st :
  load (out lib a s) (save (out lib a s) d st) = Some d.
Proof. apply load_save_same. Qed.

Lemma load_out_other lib a s s' d st :
  s <> s' -> load (out lib a s) (save (out lib a s') d st)
             = load (out lib a s) st.
Proof.
  intro H. unfold save, out, out_path, path_eqb. cbn [load path_slot].
  unfold path_eqb. cbn [path_slot]. now rewrite (slot_eqb_neq s s' H).
Qed.

End OutputFacts.
Import OutputFacts.

(** ** The split of the jobs among the workers *)

Import Jobs.

Module WorkerFacts.

Lemma mod_zero_small x t : (- t < x < t)%Z -> (x mod t = 0)%Z -> x = 0%Z.
Proof.
  intros Hx Hm. destruct (Z.neg_nonneg_cases x) as [Hn|Hn].
  - assert (E : ((x + 1 * t) mod t = x + t)%Z)
      by (rewrite Z.mod_small; lia).
    rewrite Z_mod_plus_full in E. lia.
  - rewrite Z.mod_small in Hm; lia.
Qed.

(** Among the workers [0 .. t-1] the job at position [i] goes to the
    worker [i mod t] and to no other. *)
Lemma owner_iff i w t :
  (0 <= w < t)%Z -> ((i - w) mod t = 0 <-> w = i mod t)%Z.
Proof.
  intro Hw.
  assert (Ht : (0 < t)%Z) by lia.
  pose proof (Z.mod_pos_bound i t Ht) as Hi.
  split; intro H.
  - rewrite Zminus_mod, (Z.mod_small w t) in H by lia.
    apply mod_zero_small in H; lia.
  - rewrite Zminus_mod, (Z.mod_small w t), <- H, Z.sub_diag by lia.
    apply Z.mod_0_l. lia.
Qed.

Lemma worker_filter_from_seq a n w t :
  worker_filter_from (Z.of_nat a) (seq a n) w t
  = filter (fun i => ((Z.of_nat i - w) mod t =? 0)%Z) (seq a n).
Proof.
  revert a; induction n as [|n IH]; intro a; [reflexivity|].
  cbn [seq worker_filter_from filter].
  replace (Z.of_nat a + 1)%Z with (Z.of_nat (S a)) by lia.
  rewrite IH. reflexivity.
Qed.

Lemma concat_one_more {A} (p : A) (f : nat -> list A) w0 n a :
  (a <= w0 < a + n)%nat ->
  Permutation
    (concat (map (fun w => if (w =? w0)%nat then p :: f w else f w)
               (seq a n)))
    (p :: concat (map f (seq a n))).
Proof.
  revert a; induction n as [|n IH]; intros a Hw; [lia|].
  cbn [seq map concat].
  destruct (Nat.eqb_spec a w0) as [E|E].
  - subst. cbn [app]. apply perm_skip. apply Permutation_app_head.
    apply Permutation_refl'. f_equal. apply map_ext_in.
    intros w Hin. apply in_seq in Hin.
    destruct (Nat.eqb_spec w w0); [lia | reflexivity].
  - rewrite (IH (S a)) by lia. apply Permutation_sym, Permutation_middle.
Qed.

Lemma worker_filter_from_partition {A} (l : list A) i t :
  (0 < t)%nat ->
  Permutation
    (concat (map (fun w => worker_filter_from i l (Z.of_nat w) (Z.of_nat t))
               (seq 0 t)))
    l.
Proof.
  intro Ht. revert i; induction l as [|p l IH]; intro i.
  - cbn [worker_filter_from].
    induction (seq 0 t) as [|w ws IHw]; [constructor | exact IHw].
  - set (w0 := Z.to_nat (i mod Z.of_nat t)).
    assert (Hw0 : (0 <= i mod Z.of_nat t < Z.of_nat t)%Z)
      by (apply Z.mod_pos_bound; lia).
    assert (E : map (fun w => worker_filter_from i (p :: l) (Z.of_nat w)
                               (Z.of_nat t)) (seq 0 t)
                = map (fun w => if (w =? w0)%nat
                                then p :: worker_filter_from (i + 1) l
                                            (Z.of_nat w) (Z.of_nat t)
                                else worker_filter_from (i + 1) l
                                       (Z.of_nat w) (Z.of_nat t))
                    (seq 0 t)).
    { apply map_ext_in. intros w Hin. apply in_seq in Hin.
      cbn [worker_filter_from].
      destruct (Z.eqb_spec ((i - Z.of_nat w) mod Z.of_nat t) 0) as [H|H];
        destruct (Nat.eqb_spec w w0) as [H'|H']; try reflexivity.
      - apply owner_iff in H; [|lia]. unfold w0 in H'. lia.
      - exfalso. apply H. apply owner_iff; [lia|]. unfold w0 in H'. lia. }
    rewrite E. rewrite concat_one_more by (unfold w0; lia).
    apply perm_skip, IH.
Qed.

Lemma worker_filter_from_period {A} (l : list A) i w c t :
  worker_filter_from i l (w + c * t) t = worker_filter_from i l w t.
Proof.
  revert i; induction l as [|p l IH]; intro i; [reflexivity|].
  cbn [worker_filter_from]. rewrite IH.
  replace (i - (w + c * t))%Z with (i - w + (- c) * t)%Z by lia.
  now rewrite Z_mod_plus_full.
Qed.

Lemma worker_filter_from_all {A} (l : list A) i w t :
  (t = 1 \/ t = -1)%Z -> worker_filter_from i l w t = l.
Proof.
  intro Ht. revert i; induction l as [|p l IH]; intro i; [reflexivity|].
  cbn [worker_filter_from]. rewrite IH.
  assert (E : ((i - w) mod t = 0)%Z).
  { destruct Ht as [-> | ->]; [apply Z.mod_1_r|].
    replace (i - w)%Z with ((w - i) * -1)%Z by lia. apply Z_mod_mult. }
  now rewrite E.
Qed.

End WorkerFacts.
Import WorkerFacts.

(** ** The ledger *)

Module LedgerFacts.

Lemma insert_uniq_In k l x : In x (insert_uniq k l) <-> x = k \/ In x l.
Proof.
  induction l as [|y l IH]; simpl; [intuition|].
  destruct (Nat.ltb_spec k y) as [H|H]; simpl; [intuition|].
  destruct (Nat.eqb_spec k y) as [E|E]; simpl.
  - subst. intuition.
  - rewrite IH. intuition.
Qed.

Lemma sorted_set_In ks x : In x (sorted_set ks) <-> In x ks.
Proof.
  induction ks as [|k ks IH]; simpl; [reflexivity|].
  rewrite insert_uniq_In, IH. intuition.
Qed.

Lemma insert_uniq_HdRel a k l :
  (a < k)%nat -> HdRel lt a l -> HdRel lt a (insert_uniq k l).
Proof.
  intros Hk Hl. destruct l as [|y l]; simpl; [now constructor|].
  destruct (Nat.ltb_spec k y); [now constructor|].
  destruct (Nat.eqb_spec k y); [assumption|].
  constructor. now inversion Hl.
Qed.

Lemma insert_uniq_sorted k l : Sorted lt l -> Sorted lt (insert_uniq k l).
Proof.
  induction 1 as [|y l Hs IH Hh]; simpl; [repeat constructor|].
  destruct (Nat.ltb_spec k y) as [H|H].
  - constructor; [now constructor | now constructor].
  - destruct (Nat.eqb_spec k y) as [E|E]; [now constructor|].
    constructor; [exact IH|]. apply insert_uniq_HdRel; [lia | exact Hh].
Qed.

Lemma sorted_set_sorted ks : Sorted lt (sorted_set ks).
Proof.
  induction ks as [|k ks IH]; simpl; [constructor|].
  now apply insert_uniq_sorted.
Qed.

Lemma sorted_lt_NoDup l : Sorted lt l -> NoDup l.
Proof.
  intro H. apply Sorted_StronglySorted in H; [|intros x y z; lia].
  induction H as [|a l Hs IH Ha]; constructor; [|exact IH].
  intro Hin. rewrite Forall_forall in Ha. specialize (Ha a Hin). lia.
Qed.

Lemma insert_uniq_length k l : (length (insert_uniq k l) <= S (length l))%nat.
Proof.
  induction l as [|y l IH]; simpl; [lia|].
  destruct (k <? y)%nat; simpl; [lia|].
  destruct (k =? y)%nat; simpl; lia.
Qed.

Lemma sorted_set_length ks : (length (sorted_set ks) <= length ks)%nat.
Proof.
  induction ks as [|k ks IH]; simpl; [lia|].
  pose proof (insert_uniq_length k (sorted_set ks)). lia.
Qed.

(** A list that is already strictly ascending is its own sorted set. *)
Lemma insert_uniq_below k l :
  HdRel lt k l -> insert_uniq k l = k :: l.
Proof.
  intro H. destruct l as [|y l]; [reflexivity|]. simpl.
  inversion H; subst. destruct (Nat.ltb_spec k y); [reflexivity | lia].
Qed.

Lemma sorted_set_fixes l : Sorted lt l -> sorted_set l = l.
Proof.
  induction 1 as [|k l Hs IH Hh]; simpl; [reflexivity|].
  rewrite IH. now apply insert_uniq_below.
Qed.

Lemma NoDup_map_pair {A B} (x : A) (l : list B) :
  NoDup l -> NoDup (map (pair x) l).
Proof.
  induction 1 as [|y l Hy Hl IH]; simpl; constructor; [|exact IH].
  intro H. apply in_map_iff in H. destruct H as (z & E & Hz).
  injection E as ->. contradiction.
Qed.

Lemma NoDup_list_prod {A B} (l : list A) (l' : list B) :
  NoDup l -> NoDup l' -> NoDup (list_prod l l').
Proof.
  intros Hl Hl'. induction Hl as [|x l Hx Hl IH]; simpl; [constructor|].
  apply NoDup_app.
  - now apply NoDup_map_pair.
  - exact IH.
  - intros [a b] H1 H2. apply in_map_iff in H1.
    destruct H1 as (y & E & _). injection E as <- <-.
    apply in_prod_iff in H2. now destruct H2.
Qed.

(** The rows written for a list of jobs when the seeds reach far
    enough. *)
Lemma replicate_rows_done fs seeds jobs i :
  (i + length jobs <= length seeds)%nat ->
  exists rows,
    replicate_rows fs seeds i jobs = Done rows
    /\ map (fun p => (n_components p, iter p)) rows = jobs
    /\ map nmf_seed rows = firstn (length jobs) (skipn i seeds)
    /\ Forall (fun p => completed p
                        = exists_iter (n_components p) (iter p) fs) rows.
Proof.
  revert i; induction jobs as [|[k r] jobs IH]; intros i Hl.
  - exists []. repeat split. constructor.
  - cbn [length] in Hl. cbn [replicate_rows].
    destruct (nth_error seeds i) as [s|] eqn:Es.
    2:{ apply nth_error_None in Es. lia. }
    destruct (IH (S i)) as (rows & E & Hj & Hs & Hc); [lia|].
    rewrite E. eexists. split; [reflexivity|].
    cbn [map n_components iter nmf_seed length firstn].
    split; [now rewrite Hj|]. split.
    + rewrite Hs.
      assert (Esk : skipn i seeds = s :: skipn (S i) seeds).
      { clear - Es. revert seeds Es; induction i as [|i IHi];
          intros [|x seeds] Es; simpl in *; try discriminate.
        - now injection Es as ->.
        - now apply IHi. }
      now rewrite Esk.
    + constructor; [reflexivity | exact Hc].
Qed.

(** The pairs [(k, iteration)] of the rows of a built ledger. *)
Lemma ledger_keys fs randint ks n_iter args rows kw :
  get_nmf_iter_params fs randint ks n_iter args = Done (rows, kw) ->
  map (fun p => (n_components p, iter p)) rows
  = list_prod (sorted_set (ks_list ks)) (seq 0 n_iter).
Proof.
  unfold get_nmf_iter_params. cbv zeta.
  set (jobs := list_prod (sorted_set (ks_list ks)) (seq 0 n_iter)).
  set (seeds := randint _).
  destruct (replicate_rows fs seeds 0 jobs) as [rows'|e] eqn:E;
    [|discriminate].
  intro H. injection H as -> _.
  clear - E. revert rows E. generalize 0%nat as i.
  induction jobs as [|[k r] jobs IH]; intros i rows E; simpl in E.
  - now injection E as <-.
  - destruct (nth_error seeds i); [|discriminate].
    destruct (replicate_rows fs seeds (S i) jobs) as [rows'|] eqn:E';
      [|discriminate].
    injection E as <-. simpl. f_equal. now apply (IH (S i)).
Qed.

Lemma ledger_keys_NoDup fs randint ks n_iter args rows kw :
  get_nmf_iter_params fs randint ks n_iter args = Done (rows, kw) ->
  NoDup (map (fun p => (n_components p, iter p)) rows).
Proof.
  intro H. rewrite (ledger_keys _ _ _ _ _ _ _ H).
  apply NoDup_list_prod; [|apply seq_NoDup].
  apply sorted_lt_NoDup, sorted_set_sorted.
Qed.

End LedgerFacts.
Import LedgerFacts.

(** ** Running the jobs *)

Module FactorizeFacts.

Lemma load_iter_save_same k r m fs : load_iter k r (save_iter k r m fs) = Some m.
Proof. unfold save_iter. simpl. now rewrite !Nat.eqb_refl. Qed.

Lemma load_iter_save_other k r k' r' m fs :
  (k, r) <> (k', r') ->
  load_iter k r (save_iter k' r' m fs) = load_iter k r fs.
Proof.
  intro H. unfold save_iter. simpl.
  destruct (Nat.eqb_spec k k') as [E1|E1];
    destruct (Nat.eqb_spec r r') as [E2|E2]; try reflexivity.
  subst. now contradiction H.
Qed.

Lemma exists_iter_save k r k' r' m fs :
  exists_iter k r fs = true -> exists_iter k r (save_iter k' r' m fs) = true.
Proof.
  unfold exists_iter, save_iter. simpl.
  destruct ((k =? k')%nat && (r =? r')%nat); [reflexivity | auto].
Qed.

Lemma worker_filter_from_incl {A} (l : list A) i w t x :
  In x (worker_filter_from i l w t) -> In x l.
Proof.
  revert i; induction l as [|p l IH]; intro i; simpl; [auto|].
  destruct (_ =? 0)%Z; simpl; intros H.
  - destruct H; [now left | right; eauto].
  - right; eauto.
Qed.

Lemma worker_filter_incl {A} (l : list A) w t js x :
  worker_filter l w t = Done js -> In x js -> In x l.
Proof.
  unfold worker_filter. destruct l as [|p l].
  - intro E. injection E as <-. auto.
  - destruct (t =? 0)%Z; [discriminate|]. intros E Hin.
    apply (worker_filter_from_incl (p :: l) 0 w t).
    replace (worker_filter_from 0 (p :: l) w t) with js by congruence.
    exact Hin.
Qed.

Lemma worker_filter_done {A} (l : list A) w t :
  t <> 0%Z -> worker_filter l w t = Done (worker_filter_from 0 l w t).
Proof.
  intro Ht. unfold worker_filter. destruct l as [|p l]; [reflexivity|].
  destruct (Z.eqb_spec t 0); [contradiction | reflexivity].
Qed.

Section Runs.

Variable run_nmf : nat -> Z -> matrix.
Variable run_params : list replicate.

Lemma incomplete_In idx :
  In idx (incomplete run_params)
  <-> exists p, nth_error run_params idx = Some p /\ completed p = false.
Proof.
  unfold incomplete. rewrite filter_In, in_seq. split.
  - intros (_ & H). destruct (nth_error run_params idx) as [p|];
      [|discriminate].
    exists p. split; [reflexivity|]. now destruct (completed p).
  - intros (p & E & Hc). split.
    + assert (idx < length run_params)%nat
        by (apply nth_error_Some; congruence).
      lia.
    + now rewrite E, Hc.
Qed.

(** Jobs that are rows of the ledger all run; the files that were there
    stay, and every job leaves its file. *)
Lemma run_jobs_done jobs fs :
  Forall (fun idx => (idx < length run_params)%nat) jobs ->
  exists fs',
    run_jobs run_nmf run_params fs jobs = Done fs'
    /\ (forall k r, exists_iter k r fs = true -> exists_iter k r fs' = true)
    /\ (forall idx p, In idx jobs -> nth_error run_params idx = Some p ->
          exists_iter (n_components p) (iter p) fs' = true).
Proof.
  intro Hj. revert fs. induction Hj as [|idx jobs Hi Hj IH]; intro fs.
  - exists fs. repeat split; auto.
  - cbn [run_jobs]. unfold run_job.
    destruct (nth_error run_params idx) as [q|] eqn:Eq.
    2:{ apply nth_error_None in Eq. lia. }
    destruct (IH (save_iter (n_components q) (iter q)
                    (run_nmf (n_components q) (nmf_seed q)) fs))
      as (fs' & E & Hmono & Hjobs).
    exists fs'. split; [exact E|]. split.
    + intros k r H. apply Hmono. now apply exists_iter_save.
    + intros i p [<- | Hin] Hp.
      * rewrite Eq in Hp. injection Hp as <-. apply Hmono.
        unfold exists_iter. now rewrite load_iter_save_same.
      * now apply (Hjobs i).
Qed.

Lemma jobs_in_range (skip : bool) :
  Forall (fun idx => (idx < length run_params)%nat)
    (if skip then incomplete run_params else seq 0 (length run_params)).
Proof.
  apply Forall_forall. intros idx H. destruct skip.
  - apply incomplete_In in H. destruct H as (p & E & _).
    apply nth_error_Some. congruence.
  - apply in_seq in H. lia.
Qed.

End Runs.

End FactorizeFacts.
Import FactorizeFacts.

(** ** Merging the replicates *)

Module CombineFacts.

Lemma insert_by_iter_perm p l : Permutation (insert_by_iter p l) (p :: l).
Proof.
  induction l as [|q l IH]; simpl; [reflexivity|].
  destruct (iter p <=? iter q)%nat; [reflexivity|].
  rewrite IH. apply perm_swap.
Qed.

Lemma sort_by_iter_perm l : Permutation (sort_by_iter l) l.
Proof.
  induction l as [|p l IH]; simpl; [reflexivity|].
  rewrite insert_by_iter_perm. now apply perm_skip.
Qed.

Lemma sort_by_iter_In p l : In p (sort_by_iter l) <-> In p l.
Proof.
  split; apply Permutation_in;
    [apply sort_by_iter_perm | symmetry; apply sort_by_iter_perm].
Qed.

(** Rows whose iterations count up are in order already. *)
Lemma sort_by_iter_seq l a n : map iter l = seq a n -> sort_by_iter l = l.
Proof.
  revert a n; induction l as [|p l IH]; intros a n H; [reflexivity|].
  destruct n as [|n]; [discriminate|]. simpl in H. injection H as Hp Hl.
  simpl. rewrite (IH _ _ Hl). destruct l as [|q l]; [reflexivity|].
  simpl. destruct n as [|n]; [discriminate|]. simpl in Hl.
  injection Hl as Hq _.
  destruct (Nat.leb_spec (iter p) (iter q)); [reflexivity | lia].
Qed.

Lemma collect_spectra_fails fs rows e :
  collect_spectra fs false rows = Fail e
  <-> e = FileNotFoundError
      /\ exists p, In p rows /\ load_iter (n_components p) (iter p) fs = None.
Proof.
  induction rows as [|p rows IH]; simpl.
  - split; [discriminate | intros (_ & q & [] & _)].
  - destruct (load_iter (n_components p) (iter p) fs) as [m|] eqn:E.
    + destruct (collect_spectra fs false rows) as [l|e'].
      * split; [discriminate|]. intros (He & q & [<- | Hq] & Hn);
          [congruence|].
        assert (H : Fail e = @Fail (list matrix) e) by reflexivity.
        assert (H' : @Done (list matrix) l = Fail e)
          by (apply IH; eauto).
        discriminate.
      * split.
        -- intro H. injection H as <-.
           destruct (proj1 IH eq_refl) as (He & q & Hq & Hn).
           split; [exact He|]. exists q. auto.
        -- intros (He & q & [<- | Hq] & Hn); [congruence|].
           f_equal. symmetry.
           assert (H : @Fail (list matrix) e' = Fail e)
             by (apply IH; eauto).
           now injection H.
    + split.
      * intro H. injection H as <-. split; [reflexivity|]. exists p. auto.
      * intros (-> & _). reflexivity.
Qed.

Lemma collect_spectra_skips fs rows :
  exists l, collect_spectra fs true rows = Done l.
Proof.
  induction rows as [|p rows (l & IH)]; simpl; [now exists []|].
  rewrite IH. destruct (load_iter _ _ fs); eauto.
Qed.

Lemma collect_spectra_present fs skip rows (spectra : replicate -> matrix) :
  (forall p, In p rows ->
     load_iter (n_components p) (iter p) fs = Some (spectra p)) ->
  collect_spectra fs skip rows = Done (map spectra rows).
Proof.
  induction rows as [|p rows IH]; intro H; simpl; [reflexivity|].
  rewrite (H p) by (now left). rewrite IH; [reflexivity|].
  intros q Hq. apply H. now right.
Qed.

Lemma filter_pair_same {B} (k : nat) (l' : list B) :
  filter (fun kr : nat * B => (fst kr =? k)%nat) (map (pair k) l')
  = map (pair k) l'.
Proof.
  induction l' as [|y l' IH]; simpl; [reflexivity|].
  now rewrite Nat.eqb_refl, IH.
Qed.

Lemma filter_pair_other {B} (k x : nat) (l' : list B) :
  x <> k ->
  filter (fun kr : nat * B => (fst kr =? k)%nat) (map (pair x) l') = [].
Proof.
  intro E. induction l' as [|y l' IH]; simpl; [reflexivity|].
  destruct (Nat.eqb_spec x k); [contradiction | exact IH].
Qed.

Lemma filter_prod_none {B} (k : nat) (l : list nat) (l' : list B) :
  ~ In k l ->
  filter (fun kr : nat * B => (fst kr =? k)%nat) (list_prod l l') = [].
Proof.
  induction l as [|x l IH]; intro Hn; simpl; [reflexivity|].
  rewrite filter_app, IH by (simpl in Hn; tauto).
  rewrite filter_pair_other; [reflexivity|].
  intro E. apply Hn. now left.
Qed.

Lemma filter_prod_block {B} (k : nat) (l : list nat) (l' : list B) :
  NoDup l -> In k l ->
  filter (fun kr : nat * B => (fst kr =? k)%nat) (list_prod l l')
  = map (pair k) l'.
Proof.
  induction 1 as [|x l Hx Hl IH]; intro Hin; [destruct Hin|].
  simpl. rewrite filter_app.
  destruct (Nat.eq_dec x k) as [E|E].
  - subst x. rewrite filter_pair_same, filter_prod_none by exact Hx.
    apply app_nil_r.
  - destruct Hin as [Hin|Hin]; [contradiction|].
    now rewrite filter_pair_other, IH.
Qed.

Section Saved.

Variable run_nmf : nat -> Z -> matrix.

Lemma run_jobs_rows done todo fs :
  run_jobs run_nmf (done ++ todo) fs (seq (length done) (length todo))
  = Done (fold_left (save_row run_nmf) todo fs).
Proof.
  revert done fs; induction todo as [|p todo IH]; intros done fs;
    [reflexivity|].
  cbn [length seq run_jobs]. unfold run_job.
  rewrite nth_error_app2, Nat.sub_diag by lia. cbn [nth_error].
  replace (done ++ p :: todo) with ((done ++ [p]) ++ todo)
    by (now rewrite <- app_assoc).
  replace (S (length done)) with (length (done ++ [p]))
    by (rewrite length_app; simpl; lia).
  apply IH.
Qed.

Lemma load_after_other_rows k r rows fs :
  ~ In (k, r) (map (fun p => (n_components p, iter p)) rows) ->
  load_iter k r (fold_left (save_row run_nmf) rows fs) = load_iter k r fs.
Proof.
  revert fs; induction rows as [|q rows IH]; intros fs Hn; [reflexivity|].
  simpl in *. rewrite IH by tauto.
  apply load_iter_save_other. intro E. apply Hn. left. now symmetry.
Qed.

(** With distinct pairs [(k, iteration)] the file of a row holds the
    spectra of that row. *)
Lemma load_after_rows rows fs p :
  NoDup (map (fun p => (n_components p, iter p)) rows) ->
  In p rows ->
  load_iter (n_components p) (iter p) (fold_left (save_row run_nmf) rows fs)
  = Some (spectra_of run_nmf p).
Proof.
  revert fs; induction rows as [|q rows IH]; intros fs Hd Hin;
    [destruct Hin|].
  simpl in Hd. inversion Hd as [|? ? Hq Hd']; subst.
  destruct Hin as [<- | Hin].
  - simpl. rewrite load_after_other_rows by exact Hq.
    apply load_iter_save_same.
  - simpl. now apply IH.
Qed.

End Saved.

(** The merged spectra for [k] after every job of a built ledger has
    run. *)
Lemma merged_after_all_jobs
  run_nmf fs0 fs1 randint ks n_iter args rows kw k skip fs :
  get_nmf_iter_params fs0 randint ks n_iter args = Done (rows, kw) ->
  In k (ks_list ks) -> (0 < n_iter)%nat ->
  factorize run_nmf rows 0 1 false fs1 = Done fs ->
  let subset := filter (fun p => (n_components p =? k)%nat) rows in
  map (fun p => (n_components p, iter p)) subset
  = map (pair k) (seq 0 n_iter)
  /\ combine_nmf rows fs k skip
     = Done (Some (concat (map (fun p => run_nmf k (nmf_seed p)) subset))).
Proof.
  intros Hled Hk Hn Hfac subset.
  pose proof (ledger_keys_NoDup _ _ _ _ _ _ _ Hled) as Hnd.
  pose proof (ledger_keys _ _ _ _ _ _ _ Hled) as Hkeys.
  assert (Hsub : map (fun p => (n_components p, iter p)) subset
                 = map (pair k) (seq 0 n_iter)).
  { unfold subset.
    assert (Hcomm : forall l,
              map (fun p => (n_components p, iter p))
                (filter (fun p => (n_components p =? k)%nat) l)
              = filter (fun kr => (fst kr =? k)%nat)
                  (map (fun p => (n_components p, iter p)) l)).
    { induction l as [|p l IH]; simpl; [reflexivity|].
      destruct (n_components p =? k)%nat; simpl; now rewrite IH. }
    rewrite Hcomm, Hkeys. apply filter_prod_block.
    - apply sorted_lt_NoDup, sorted_set_sorted.
    - now apply sorted_set_In. }
  split; [exact Hsub|].
  assert (Hfs : fs = fold_left (save_row run_nmf) rows fs1).
  { revert Hfac. unfold factorize. cbv zeta.
    rewrite worker_filter_done by lia.
    rewrite worker_filter_from_all by (now left).
    pose proof (run_jobs_rows run_nmf [] rows fs1) as Hr.
    cbn [app length] in Hr. rewrite Hr. congruence. }
  unfold combine_nmf. cbv zeta. fold subset.
  assert (Hiter : map iter subset = seq 0 n_iter).
  { assert (E : map iter subset
                = map snd (map (fun p => (n_components p, iter p)) subset))
      by (rewrite map_map; reflexivity).
    rewrite E, Hsub, map_map. simpl. apply map_id. }
  rewrite (sort_by_iter_seq subset 0 n_iter Hiter).
  rewrite (collect_spectra_present fs skip subset (spectra_of run_nmf)).
  - assert (Hmap : map (spectra_of run_nmf) subset
                   = map (fun p => run_nmf k (nmf_seed p)) subset).
    { apply map_ext_in. intros p Hp. unfold subset in Hp.
      apply filter_In in Hp. destruct Hp as (_ & Hp).
      apply Nat.eqb_eq in Hp. unfold spectra_of. now rewrite Hp. }
    rewrite Hmap.
    destruct subset as [|p subset'].
    + destruct n_iter; [lia | discriminate].
    + reflexivity.
  - intros p Hp. rewrite Hfs. apply load_after_rows; [exact Hnd|].
    unfold subset in Hp. apply filter_In in Hp. tauto.
Qed.

End CombineFacts.
Import CombineFacts.

(** ** Merging for every k *)

Module CombineAllFacts.

Lemma sorted_lt_unique l1 l2 :
  Sorted lt l1 -> Sorted lt l2 ->
  (forall x, In x l1 <-> In x l2) -> l1 = l2.
Proof.
  intros H1 H2.
  apply Sorted_StronglySorted in H1; [|intros x y z; lia].
  apply Sorted_StronglySorted in H2; [|intros x y z; lia].
  revert l2 H2. induction H1 as [|a l1 Hs1 IH Ha]; intros l2 H2 Hin.
  - destruct l2 as [|b l2]; [reflexivity|].
    exfalso. apply (proj2 (Hin b)). now left.
  - destruct H2 as [|b l2 Hs2 Hb].
    + exfalso. apply (proj1 (Hin a)). now left.
    + rewrite Forall_forall in Ha, Hb.
      assert (Eab : a = b).
      { destruct (proj1 (Hin a) (or_introl eq_refl)) as [E|Hab];
          [now symmetry|].
        destruct (proj2 (Hin b) (or_introl eq_refl)) as [E|Hba];
          [exact E|].
        specialize (Ha b Hba). specialize (Hb a Hab). lia. }
      subst b. f_equal. apply IH; [exact Hs2|].
      intro x. split; intro Hx.
      * destruct (proj1 (Hin x) (or_intror Hx)) as [E|Hx']; [|exact Hx'].
        specialize (Ha x Hx). lia.
      * destruct (proj2 (Hin x) (or_intror Hx)) as [E|Hx']; [|exact Hx'].
        specialize (Hb x Hx). lia.
Qed.

(** The values of [k] read back from a built ledger are the distinct
    requested ones. *)
Lemma ledger_components fs0 randint ks n_iter args rows kw :
  get_nmf_iter_params fs0 randint ks n_iter args = Done (rows, kw) ->
  (0 < n_iter)%nat ->
  sorted_set (map n_components rows) = sorted_set (ks_list ks).
Proof.
  intros Hled Hn.
  assert (Hin : forall k r,
            In (k, r) (map (fun p => (n_components p, iter p)) rows)
            <-> In k (ks_list ks) /\ (r < n_iter)%nat).
  { intros k r. rewrite (ledger_keys _ _ _ _ _ _ _ Hled).
    rewrite in_prod_iff, sorted_set_In, in_seq. intuition lia. }
  apply sorted_lt_unique; try apply sorted_set_sorted.
  intro x. rewrite !sorted_set_In. split.
  - intro Hx. apply in_map_iff in Hx. destruct Hx as (p & <- & Hp).
    apply (Hin (n_components p) (iter p)).
    apply in_map_iff. exists p. auto.
  - intro Hx.
    assert (H : In (x, 0%nat) (map (fun p => (n_components p, iter p)) rows))
      by (apply Hin; split; [exact Hx | lia]).
    apply in_map_iff in H. destruct H as (p & E & Hp).
    injection E as <- _. now apply in_map.
Qed.

Lemma combine_each_all rows fs skip (M : nat -> matrix) ks ms :
  (forall k, In k ks -> combine_nmf rows fs k skip = Done (Some (M k))) ->
  combine_each rows fs skip ks ms
  = (None, rev (map (fun k => (k, M k)) ks) ++ ms).
Proof.
  revert ms; induction ks as [|k ks IH]; intros ms H; [reflexivity|].
  cbn [combine_each]. rewrite (H k) by (now left).
  rewrite IH by (intros k' Hk'; apply H; now right).
  cbn [map rev]. now rewrite <- app_assoc.
Qed.

Lemma load_merged_all (M : nat -> matrix) ks k ms :
  In k ks ->
  load_merged k (rev (map (fun k => (k, M k)) ks) ++ ms) = Some (M k).
Proof.
  induction ks as [|x ks IH] using rev_ind; intro Hin; [destruct Hin|].
  rewrite map_app, rev_app_distr. cbn [map rev app load_merged].
  destruct (Nat.eqb_spec k x) as [->|E]; [reflexivity|].
  apply IH. apply in_app_or in Hin. destruct Hin as [H|[H|[]]];
    [exact H | now contradiction E].
Qed.

End CombineAllFacts.
Import CombineAllFacts.

(** ** The statistics per k *)

Module SelectionFacts.

Lemma refit_usage_not_density_stage lib inp draw X spectra e :
  refit_usage lib inp draw X spectra = Err e ->
  e <> ZeroComponents /\ e <> KthOutOfBounds /\ e <> Unalignable.
Proof.
  intro E. apply refit_usage_error in E.
  destruct E; subst e; repeat split; discriminate.
Qed.

(** What a call of [consensus] in evaluation mode can come to. *)
Lemma stats_mode_outcome lib inp a st :
  skip_density_and_return_after_stats a = true ->
  snd (consensus lib inp a st) = st
  /\ match fst (consensus lib inp a st) with
     | Ret (Some row) =>
         stats_k row = k a
         /\ stats_local_density_threshold row = density_threshold a
     | Ret None => False
     | Err e => e <> ZeroComponents /\ e <> KthOutOfBounds /\ e <> Unalignable
     end.
Proof.
  intro Hskip. unfold consensus, spectra_for_clustering, bind.
  rewrite Hskip. unfold n_neighbors_of.
  destruct (k a =? 0)%nat;
    [simpl; split; [reflexivity | repeat split; discriminate]|].
  unfold cluster_and_fit, bind. cbn [l2_spectra].
  destruct (_ <? k a)%nat;
    [simpl; split; [reflexivity | repeat split; discriminate]|].
  destruct (refit_usage lib inp 0 _ _) as [U|e] eqn:E.
  - rewrite Hskip. destruct (silhouette_defined _ _); simpl.
    + auto.
    + split; [reflexivity | repeat split; discriminate].
  - simpl. split; [reflexivity|].
    now apply refit_usage_not_density_stage in E.
Qed.

Lemma collect_stats_outcome lib inp_of ks st :
  snd (collect_stats lib inp_of ks st) = st
  /\ match fst (collect_stats lib inp_of ks st) with
     | Stats rows =>
         map stats_k rows = ks
         /\ Forall (fun row => stats_local_density_threshold row = 1 / 2) rows
     | Raised e =>
         e <> ZeroComponents /\ e <> KthOutOfBounds /\ e <> Unalignable
     | AttributeError => False
     end.
Proof.
  induction ks as [|k ks IH]; [simpl; auto|].
  cbn [collect_stats].
  destruct (stats_mode_outcome lib (inp_of k) (stats_arguments k) st eq_refl)
    as (Hst & Hout).
  destruct (consensus lib (inp_of k) (stats_arguments k) st)
    as [[[row|]|e] st1]; cbn [fst snd] in *; subst st1;
    [|contradiction | auto].
  destruct IH as (Hst' & Hrows).
  destruct (collect_stats lib inp_of ks st) as [[rows|e|] st2];
    cbn [fst snd] in *; subst st2; [|auto | contradiction].
  split; [reflexivity|]. destruct Hout as (Hk & Hd).
  destruct Hrows as (Hks & Hds). split.
  - simpl. now rewrite Hk, Hks.
  - constructor; assumption.
Qed.

End SelectionFacts.
Import SelectionFacts.
(** * Further properties of the code *)

(** X1: With [chunk_size = 0] and at least one data row the loop
    [while idx < n] never advances: the refit returns for no amount of
    fuel. *)
Theorem chunk_size_zero_never_returns p W X H_init rnd fuel :
  chunk_size p = 0%nat -> (0 < nrows X)%nat ->
  fit_H_online p W fuel X H_init rnd = None.
Proof.
  intros Hc Hn. unfold fit_H_online. now apply chunk_loop_stuck.
Qed.

(** X2: With [chunk_max_iter = 0] no update runs: the refit returns the
    initial matrix, clamped at zero when it was given. *)
Theorem zero_iterations_return_clamped_init p W X H_init rnd fuel :
  chunk_max_iter p = 0%nat ->
  (0 < chunk_size p)%nat -> (nrows X <= fuel)%nat ->
  nrows (init_H H_init rnd) = nrows X ->
  fit_H_online p W fuel X H_init rnd = Some (init_H H_init rnd).
Proof.
  intros Hm Hc Hf Hrows.
  destruct (fit_rows p W X H_init rnd fuel (fun t => t = 0%nat) Hc Hf Hrows)
    as (H & E & Hn & Hrow).
  { intros numer h. rewrite Hm. reflexivity. }
  rewrite E. f_equal. apply (nth_ext _ _ [] []).
  - transitivity (nrows X); [exact Hn | symmetry; exact Hrows].
  - intros i Hi. destruct (Hrow i) as (t & -> & Et).
    + fold (nrows H) in Hi. rewrite <- Hn. exact Hi.
    + exact Et.
Qed.

(** X3: An entry of the given [H_init] that is zero or negative is zero in
    the result: the clamp sets it to zero and no update moves it. *)
Theorem nonpositive_init_entries_end_at_zero p W X H0 rnd fuel i j :
  0 < epsilon p ->
  (0 < chunk_size p)%nat -> (nrows X <= fuel)%nat ->
  nrows H0 = nrows X ->
  entry H0 i j <= 0 ->
  exists H, fit_H_online p W fuel X (Some H0) rnd = Some H
            /\ entry H i j = 0.
Proof.
  intros _ Hc Hf Hrows Hneg.
  assert (Hrows' : nrows (init_H (Some H0) rnd) = nrows X).
  { simpl. unfold clamp_min0, nrows in *. now rewrite length_map. }
  destruct (fit_rows p W X (Some H0) rnd fuel (fun _ => True) Hc Hf Hrows')
    as (H & E & Hn & Hrow); [intros; exact I|].
  exists H. split; [exact E|].
  destruct (Nat.lt_ge_cases i (nrows X)) as [Hi|Hi].
  - destruct (Hrow i Hi) as (t & _ & Et). unfold entry. rewrite Et.
    apply row_iter_zero.
    change (entry (clamp_min0 H0) i j = 0).
    rewrite entry_clamp_min0. now apply clamp0_nonpos.
  - unfold entry. rewrite (nth_overflow H).
    + now destruct j.
    + fold (nrows H). rewrite Hn. exact Hi.
Qed.

(** X4: A non-negative [H_init] that satisfies the normal equations
    [X W^T = H W W^T] at every entry that is not zero, with no
    denominator below [epsilon], is returned unchanged, whatever the
    chunk size and the tolerance. *)
Theorem stationary_point_is_returned p W X H0 rnd fuel k f :
  length W = k -> has_cols f W -> (0 < k)%nat -> (0 < f)%nat ->
  has_cols k H0 -> mnonneg H0 -> nrows H0 = nrows X ->
  0 < epsilon p ->
  (0 < chunk_size p)%nat -> (nrows X <= fuel)%nat ->
  (forall i j, (i < nrows X)%nat -> (j < k)%nat ->
     entry H0 i j = 0
     \/ (epsilon p <= entry (mu_denom p W H0) i j
         /\ entry (mu_numer p W X) i j = entry (mu_denom p W H0) i j)) ->
  fit_H_online p W fuel X (Some H0) rnd = Some H0.
Proof.
  intros HW Hc Hk Hf Hcols Hnn Hrows Heps Hcs Hfuel Hst.
  assert (Ei : init_H (Some H0) rnd = H0) by (now apply clamp_min0_fixes).
  assert (Hrows' : nrows (init_H (Some H0) rnd) = nrows X)
    by (now rewrite Ei).
  destruct (fit_rows p W X (Some H0) rnd fuel (fun _ => True) Hcs Hfuel Hrows')
    as (H & E & Hn & Hrow); [intros; exact I|].
  rewrite E. f_equal. apply (nth_ext _ _ [] []).
  - transitivity (nrows X); [exact Hn | now symmetry].
  - intros i Hi.
    assert (Hi' : (i < nrows X)%nat) by (rewrite <- Hn; exact Hi).
    destruct (Hrow i Hi') as (t & _ & Et).
    etransitivity; [exact Et|]. rewrite Ei.
    apply row_iter_stationary.
    assert (HiH : (i < length H0)%nat) by (fold (nrows H0); now rewrite Hrows).
    apply (row_update_stationary p W k f HW Hc Hk Hf).
    + unfold has_cols in Hcols. rewrite Forall_forall in Hcols.
      apply Hcols. now apply nth_In.
    + intros j Hj. specialize (Hst i j Hi' Hj).
      unfold entry in Hst.
      rewrite mu_numer_rowwise, mu_denom_rowwise in Hst.
      rewrite !nth_map_rows in Hst by assumption.
      destruct Hst as [E0 | (Hge & En)]; [now left | right].
      repeat split; try assumption.
      apply Rlt_le_trans with (epsilon p); assumption.
Qed.

(** X5: The solver raises exactly when the row counts differ or the batch
    size is zero. *)
Theorem ols_raises_iff lstsq X Y normalize_y batch_size :
  (exists e, efficient_ols_all_cols lstsq X Y normalize_y batch_size = Raise e)
  <-> (nrows X <> nrows Y \/ batch_size = 0%Z).
Proof.
  unfold efficient_ols_all_cols, ols_accumulate, py_range.
  destruct (Nat.eqb_spec (nrows X) (nrows Y)) as [E|E]; cbn [negb].
  - destruct (Z.eqb_spec batch_size 0) as [E0|E0].
    + split; [now right | intros _; now exists RangeStepZero].
    + destruct (batch_size <? 0)%Z.
      * split; [|intros [H|H]; contradiction].
        intros [e He].
        destruct (fold_left _ _ _); discriminate.
      * split; [|intros [H|H]; contradiction].
        intros [e He].
        destruct (fold_left _ _ _); discriminate.
  - split; [now left | intros _; now exists RowsMismatch].
Qed.

(** X6: A negative batch size is not rejected: no batch is read and the
    solver is handed two zero matrices. *)
Theorem ols_negative_batch_ignores_data lstsq X Y normalize_y batch_size :
  nrows X = nrows Y -> (batch_size < 0)%Z ->
  efficient_ols_all_cols lstsq X Y normalize_y batch_size
  = Ok (lstsq (zeros (ncols X) (ncols X)) (zeros (ncols X) (ncols Y))).
Proof.
  intros E Hb. unfold efficient_ols_all_cols, ols_accumulate, py_range.
  rewrite E, Nat.eqb_refl. cbn [negb].
  destruct (Z.eqb_spec batch_size 0) as [E0|_]; [lia|].
  destruct (Z.ltb_spec batch_size 0) as [_|H]; [reflexivity | lia].
Qed.

(** X7: For a batch size of at least 1 the accumulation succeeds and the
    accumulated [XtX] is symmetric. *)
Theorem accumulated_XtX_is_symmetric X Y normalize_y p t s :
  nrows X = nrows Y -> has_cols p X -> has_cols t Y ->
  (0 < s)%nat -> (0 < nrows X)%nat ->
  exists XtX XtY,
    ols_accumulate X Y normalize_y (Z.of_nat s) = Ok (XtX, XtY)
    /\ forall i j, (i < p)%nat -> (j < p)%nat ->
         entry XtX i j = entry XtX j i.
Proof.
  intros Hr HX HY Hs Hn.
  rewrite (ols_accumulate_gram X Y normalize_y p t s Hr HX HY Hs Hn).
  do 2 eexists. split; [reflexivity|]. intros i j Hi Hj.
  rewrite matmul_transpose_gram, (ncols_has_cols p X HX Hn).
  rewrite !entry_gram by assumption. apply dot_comm.
Qed.

(** X8: With [normalize_y] every column of the regression target gets mean
    zero, and variance one when its variance is not below the floor. *)
Theorem standardized_columns_are_centred_and_scaled Y t j :
  has_cols t Y -> (0 < nrows Y)%nat -> (j < t)%nat ->
  let Y' := standardize (fst (get_mean_var Y))
              (std_of_var (snd (get_mean_var Y))) Y in
  col_mean Y' j = 0
  /\ (var_floor <= col_var Y j -> col_var Y' j = 1).
Proof.
  intros HY Hn Hj Y'.
  assert (Hc : ncols Y = t) by (now apply ncols_has_cols).
  assert (Hm : length (fst (get_mean_var Y)) = t)
    by (cbn [get_mean_var fst]; now rewrite length_map, length_seq).
  assert (Hv : length (snd (get_mean_var Y)) = t)
    by (cbn [get_mean_var snd]; now rewrite length_map, length_seq).
  assert (Hsd : length (std_of_var (snd (get_mean_var Y))) = t)
    by (unfold std_of_var; now rewrite !length_map).
  assert (Ecol := col_standardize _ _ Y t j HY Hm Hsd Hj).
  fold Y' in Ecol.
  assert (Em : nth j (fst (get_mean_var Y)) 0 = col_mean Y j).
  { cbn [get_mean_var fst]. rewrite Hc. now apply nth_map_seq. }
  assert (Ev : nth j (snd (get_mean_var Y)) 0 = col_var Y j).
  { cbn [get_mean_var snd]. rewrite Hc. now apply nth_map_seq. }
  assert (En : nrows Y' = nrows Y) by (apply standardize_length).
  assert (HnR : INR (nrows Y) <> 0) by (apply not_0_INR; lia).
  assert (Emean : col_mean Y' j = 0).
  { unfold col_mean at 1. rewrite Ecol, vsum_affine, En, col_length, Em.
    unfold col_mean. fold (nrows Y).
    pose proof (std_of_var_floor (snd (get_mean_var Y))) as Hfl.
    rewrite Forall_forall in Hfl.
    assert (1 / 1000000 <= nth j (std_of_var (snd (get_mean_var Y))) 0)
      by (apply Hfl, nth_In; lia).
    field. split; [exact HnR | lra]. }
  split; [exact Emean|].
  intro Hfloor. unfold col_var at 1. rewrite Emean, Ecol, map_map.
  rewrite vsum_scaled_squares, En, Em.
  rewrite nth_std_of_var by lia. rewrite Ev.
  rewrite Rltb_false by lra.
  pose proof var_floor_pos as Hp.
  assert (Hs : 0 < sqrt (col_var Y j)) by (apply sqrt_lt_R0; lra).
  assert (Hsq : sqrt (col_var Y j) * sqrt (col_var Y j) = col_var Y j)
    by (apply sqrt_sqrt; lra).
  unfold col_var in Hsq at 3. unfold col_var in Hfloor.
  set (S := vsum (map (fun y => (y - col_mean Y j) * (y - col_mean Y j))
                    (col j Y))) in *.
  set (q := sqrt (col_var Y j)) in *.
  assert (ES : S = q * q * INR (nrows Y)).
  { rewrite Hsq. field. exact HnR. }
  rewrite ES. field. split; [lra | exact HnR].
Qed.

(** X9: A constant column of [Y] is standardised to zeros: the floor on the
    variance keeps the division defined. *)
Theorem constant_column_standardizes_to_zero Y t j c :
  has_cols t Y -> (0 < nrows Y)%nat -> (j < t)%nat ->
  Forall (fun y => y = c) (col j Y) ->
  let Y' := standardize (fst (get_mean_var Y))
              (std_of_var (snd (get_mean_var Y))) Y in
  Forall (fun y => y = 0) (col j Y').
Proof.
  intros HY Hn Hj Hconst Y'.
  assert (Hc : ncols Y = t) by (now apply ncols_has_cols).
  assert (Hm : length (fst (get_mean_var Y)) = t)
    by (cbn [get_mean_var fst]; now rewrite length_map, length_seq).
  assert (Hsd : length (std_of_var (snd (get_mean_var Y))) = t)
    by (unfold std_of_var; cbn [get_mean_var snd];
        now rewrite !length_map, length_seq).
  unfold Y'. rewrite (col_standardize _ _ Y t j HY Hm Hsd Hj).
  assert (Em : nth j (fst (get_mean_var Y)) 0 = c).
  { cbn [get_mean_var fst]. rewrite Hc, nth_map_seq by exact Hj.
    unfold col_mean.
    assert (Es : forall l, Forall (fun y => y = c) l ->
                           vsum l = INR (length l) * c).
    { induction l as [|y l IH]; intro H.
      - simpl. lra.
      - cbn [vsum fold_right length]. fold (vsum l). rewrite S_INR.
        rewrite IH by (now apply Forall_inv_tail in H).
        apply Forall_inv in H. subst. lra. }
    rewrite (Es _ Hconst), col_length. fold (nrows Y). field.
    apply not_0_INR. lia. }
  apply Forall_map. eapply Forall_impl; [|exact Hconst].
  intros y Hy. cbv beta in *. rewrite Em, Hy. unfold Rdiv. lra.
Qed.

(** X10: Every row of non-zero norm has norm 1 after the rescaling. *)
Theorem l2_normalize_gives_unit_rows M :
  Forall (fun r => dot r r <> 0) M ->
  Forall (fun r => dot r r = 1) (l2_normalize M).
Proof.
  intro H. unfold l2_normalize. apply Forall_map.
  eapply Forall_impl; [|exact H]. intros r Hr. now apply l2_row_unit.
Qed.

(** X11: The rows of a matrix divided by its row sums add up to 1, and to a
    million after the scaling of [normalize_tpm_spectra]. *)
Theorem row_normalize_rows_sum_to_one M :
  Forall (fun r => vsum r <> 0) M ->
  Forall (fun r => vsum r = 1) (row_normalize M)
  /\ Forall (fun r => vsum r = 1000000)
       (map (map (fun x => x * 1000000)) (row_normalize M)).
Proof.
  intro H. unfold row_normalize. split.
  - apply Forall_map. eapply Forall_impl; [|exact H].
    intros r Hr. cbv beta. rewrite vsum_map_div. now field.
  - rewrite map_map. apply Forall_map. eapply Forall_impl; [|exact H].
    intros r Hr. cbv beta. rewrite vsum_map_mult, vsum_map_div. now field.
Qed.

(** X12: The matrix of pairwise distances is symmetric with a zero diagonal
    and no negative entry. *)
Theorem euclidean_distances_symmetric M i j :
  (i < nrows M)%nat -> (j < nrows M)%nat ->
  entry (euclidean_distances M) i j = entry (euclidean_distances M) j i
  /\ entry (euclidean_distances M) i i = 0
  /\ 0 <= entry (euclidean_distances M) i j.
Proof.
  intros Hi Hj.
  assert (E : forall a b, (a < nrows M)%nat -> (b < nrows M)%nat ->
            entry (euclidean_distances M) a b
            = distance (nth a M []) (nth b M [])).
  { intros a b Ha Hb. unfold entry.
    rewrite euclidean_distances_row by exact Ha.
    rewrite (nth_indep _ 0 (distance (nth a M []) []))
      by (now rewrite length_map).
    apply (map_nth (distance (nth a M []))). }
  rewrite !E by assumption. split; [apply distance_sym|].
  split; [apply distance_self | apply distance_nonneg].
Qed.

(** X13: For non-negative spectra with no zero row every LocalDensity is at
    most [sqrt 2], so a threshold of 2 or more drops no row. *)
Theorem threshold_two_applies_no_filter k thr lns merged f n st :
  mnonneg merged -> has_cols f merged ->
  Forall (fun r => dot r r <> 0) merged ->
  n_neighbors_of lns (nrows merged) k = Ret (Z.of_nat n) ->
  (1 <= n)%nat -> (n + 1 < nrows merged)%nat ->
  load (cache_path k) st = None ->
  2 <= thr ->
  exists density,
    Forall (fun d => d <= sqrt 2) density
    /\ spectra_for_clustering k thr lns false merged st
       = (Ret {| l2_spectra := l2_normalize merged;
                 topics_dist := Some (euclidean_distances (l2_normalize merged));
                 density_filter := Some (map (fun _ => true) density);
                 local_density := Some density |},
          save (cache_path k) (map (fun d => [d]) density) st).
Proof.
  intros Hnn Hc Hz Hnb Hn Hrows Hcache Hthr.
  set (l2 := l2_normalize merged).
  set (density := map (fun row => sum_smallest (S n) row / INR n)
                    (euclidean_distances l2)).
  assert (Hl2 : nrows l2 = nrows merged) by apply l2_normalize_rows.
  assert (Hb : Forall (fun d => d <= sqrt 2) density).
  { apply density_bounded with (f := f); [|exact Hn].
    now apply l2_normalize_unit_rows. }
  exists density. split; [exact Hb|].
  unfold spectra_for_clustering, bind. rewrite Hnb.
  unfold obtain_local_density. rewrite Hcache.
  fold l2. rewrite compute_local_density_ok by (now rewrite Hl2).
  fold density. cbn [fst snd].
  assert (Hlen : length density = nrows l2).
  { unfold density. rewrite length_map. apply euclidean_distances_rows. }
  rewrite apply_density_filter_all; [reflexivity | exact Hlen | |].
  - rewrite Hl2. lia.
  - eapply Forall_impl; [|exact Hb]. intros d Hd. cbv beta in *.
    pose proof sqrt2_lt_2. lra.
Qed.

(** X14: The density cache is keyed by [k] alone: once a run has computed and
    cached the density, a later call for the same [k] returns that density
    whatever spectra and neighbourhood size it is given, and computes no
    distances; the cache of another [k] is untouched. *)
Theorem density_cache_is_keyed_by_k k l2 n st dist density st' :
  obtain_local_density k l2 n st = (Ret (Some dist, density), st') ->
  (forall l2' n',
     obtain_local_density k l2' n' st' = (Ret (None, density), st'))
  /\ (forall k', k' <> k ->
        load (cache_path k') st' = load (cache_path k') st).
Proof.
  unfold obtain_local_density.
  destruct (load (cache_path k) st) eqn:Hc; [discriminate|].
  destruct (compute_local_density _ n) as [d|e]; [|discriminate].
  intro E. injection E as _ <- <-. split.
  - intros l2' n'. unfold obtain_local_density.
    now rewrite load_save_same, col_singletons.
  - intros k' Hk. unfold save. cbn [load]. rewrite cache_path_eqb.
    destruct (Nat.eqb_spec k' k); [contradiction | reflexivity].
Qed.


(** X16: A cached density with fewer rows than there are replicate spectra
    cannot be aligned with them, some spectrum has no density under its
    label: the run fails before any clustering. *)
Theorem shorter_stale_cache_fails k thr lns merged st cached :
  k <> 0%nat ->
  load (cache_path k) st = Some cached ->
  (nrows cached < nrows merged)%nat ->
  spectra_for_clustering k thr lns false merged st = (Err Unalignable, st).
Proof.
  intros Hk Hc Hl. unfold spectra_for_clustering, bind, n_neighbors_of.
  destruct (Nat.eqb_spec k 0) as [E|_]; [contradiction|].
  unfold obtain_local_density. rewrite Hc. cbn [fst snd].
  unfold apply_density_filter. rewrite length_map.
  unfold col. rewrite length_map, l2_normalize_rows.
  match goal with |- context [negb ?b] => destruct b eqn:E end;
    [|reflexivity].
  apply Nat.eqb_eq in E.
  assert (E' : nrows cached = nrows merged) by exact E.
  rewrite E' in Hl. now apply Nat.lt_irrefl in Hl.
Qed.

(** X17: A normal-mode run that completes returns no statistics and leaves
    the consensus spectra, the usages, the TPM spectra and the score
    spectra in the store, each under its binary and its text name with
    the same content. *)
Theorem normal_mode_saves_outputs lib inp a st r st' :
  skip_density_and_return_after_stats a = false ->
  build_ref a = false ->
  consensus lib inp a st = (Ret r, st') ->
  r = None
  /\ exists spectra usages spectra_tpm score,
       load (out lib a consensus_spectra) st' = Some spectra
       /\ load (out lib a consensus_spectra__txt) st' = Some spectra
       /\ load (out lib a consensus_usages) st' = Some usages
       /\ load (out lib a consensus_usages__txt) st' = Some usages
       /\ load (out lib a gene_spectra_tpm) st' = Some spectra_tpm
       /\ load (out lib a gene_spectra_tpm__txt) st' = Some spectra_tpm
       /\ load (out lib a gene_spectra_score) st' = Some score
       /\ load (out lib a gene_spectra_score__txt) st' = Some score.
Proof.
  intros Hskip Href. unfold consensus, bind.
  destruct (spectra_for_clustering _ _ _ _ _ st) as [[sg|e] st1];
    [|discriminate].
  unfold cluster_and_fit, bind.
  destruct (_ <? k a)%nat; [discriminate|].
  destruct (refit_usage lib inp 0 _ _) as [U|e]; [|discriminate].
  rewrite Hskip. unfold finish, bind.
  destruct (refit_spectra lib inp 1 _ _) as [T|e]; [|discriminate].
  destruct (OLS.efficient_ols_all_cols _ _ _ _ _) as [B|e]; [|discriminate].
  rewrite Href.
  match goal with
  | |- context [if refit_usage_flag a then ?x else ?y] =>
      destruct (if refit_usage_flag a then x else y) as [U'|e];
        [|discriminate]
  end.
  cbv zeta. intro E. injection E as <- <-. split; [reflexivity|].
  do 4 eexists.
  destruct (show_clustering a);
    repeat split;
    repeat first [ apply load_out_same
                 | rewrite load_out_other by discriminate ].
Qed.

(** X18: With a valid [beta_loss], a chunk size of at least 1 and
    non-negative data, spectra and random start, [refit_usage] returns,
    with one row of non-negative usages per row of the data. *)
Theorem refit_usage_returns_nonneg_usages lib inp draw X spectra :
  run_beta_loss inp <> other_value ->
  (0 < online_chunk_size inp)%nat ->
  mnonneg X -> mnonneg spectra ->
  mnonneg (torch_rand lib draw (nrows X) (nrows spectra)) ->
  nrows (torch_rand lib draw (nrows X) (nrows spectra)) = nrows X ->
  exists H,
    refit_usage lib inp draw X spectra = Ret H
    /\ nrows H = nrows X /\ mnonneg H.
Proof.
  intros Hb Hc HX HW Hr Hrows.
  set (p := refit_params inp).
  set (rnd := torch_rand lib draw (nrows X) (nrows spectra)) in *.
  assert (He : 0 < epsilon p) by (simpl; lra).
  destruct (chunk_loop_rows p spectra X (init_H None rnd) Hrows Hc
              (fun _ => True) (fun _ _ => I) (nrows X) (Nat.le_refl _))
    as (H & E & Hn & _).
  exists H.
  assert (HH : mnonneg H).
  { apply (chunk_loop_nonneg p spectra He HW (nrows X) X (init_H None rnd)
             0%nat H HX); [exact Hr | exact E]. }
  split; [|split; assumption].
  unfold refit_usage. fold p. fold rnd. unfold fit_H_online. rewrite E.
  destruct (run_beta_loss inp); try reflexivity. now contradiction Hb.
Qed.

(** X19: [beta_loss] is checked and then not used: two runs that differ only
    in a valid [beta_loss] refit the same usages. *)
Theorem refit_usage_ignores_beta_loss lib inp inp' draw X spectra :
  run_beta_loss inp <> other_value ->
  run_beta_loss inp' <> other_value ->
  online_chunk_size inp' = online_chunk_size inp ->
  online_chunk_max_iter inp' = online_chunk_max_iter inp ->
  l1_ratio_H inp' = l1_ratio_H inp ->
  refit_usage lib inp' draw X spectra = refit_usage lib inp draw X spectra.
Proof.
  intros Hb Hb' E1 E2 E3. unfold refit_usage, refit_params.
  rewrite E1, E2, E3.
  destruct (run_beta_loss inp), (run_beta_loss inp');
    try reflexivity; try (now contradiction Hb); now contradiction Hb'.
Qed.

(** X20: The jobs of the workers [0 .. t-1] are a partition of the jobs:
    together they hold every element of the iterable exactly once. *)
Theorem worker_filter_partitions_jobs {A} (jobs : list A) (t : nat) :
  (0 < t)%nat ->
  exists parts,
    Forall2 (fun w part =>
               worker_filter jobs (Z.of_nat w) (Z.of_nat t) = Done part)
            (seq 0 t) parts
    /\ Permutation (concat parts) jobs.
Proof.
  intro Ht.
  exists (map (fun w => worker_filter_from 0 jobs (Z.of_nat w) (Z.of_nat t))
            (seq 0 t)).
  split; [|now apply worker_filter_from_partition].
  induction (seq 0 t) as [|w ws IH]; cbn [map]; constructor; [|exact IH].
  unfold worker_filter. destruct jobs as [|p jobs]; [reflexivity|].
  destruct (Z.eqb_spec (Z.of_nat t) 0); [lia | reflexivity].
Qed.

(** X21: A worker index is only read modulo the number of workers: an index
    out of range is not rejected and repeats the jobs of another worker. *)
Theorem worker_index_is_read_modulo_total {A} (jobs : list A) w c t :
  worker_filter jobs (w + c * t) t = worker_filter jobs w t.
Proof.
  unfold worker_filter. destruct jobs as [|p jobs]; [reflexivity|].
  destruct (t =? 0)%Z; [reflexivity|].
  now rewrite worker_filter_from_period.
Qed.

(** X22: When the random draw has the size it was asked for, the ledger is
    built without an index error: one row per pair of a distinct [k] and
    an iteration, in the order of [k] then of the iteration, with the
    first seeds of the draw; repeated values of [k] only make the draw
    longer than the ledger.  The saved run parameters carry no L1
    penalty, and [max_iter] and [batch_size] as the chunk settings. *)
Theorem ledger_is_built_without_index_error
  fs randint ks n_iter args :
  (forall n, length (randint n) = n) ->
  exists rows kw,
    get_nmf_iter_params fs randint ks n_iter args = Done (rows, kw)
    /\ map (fun p => (n_components p, iter p)) rows
       = list_prod (sorted_set (ks_list ks)) (seq 0 n_iter)
    /\ length rows = (length (sorted_set (ks_list ks)) * n_iter)%nat
    /\ (length rows <= length (ks_list ks) * n_iter)%nat
    /\ map nmf_seed rows
       = firstn (length rows) (randint (length (ks_list ks) * n_iter)%nat)
    /\ kw_l1_ratio_H kw = 0%R
    /\ kw_online_chunk_size kw = batch_size args
    /\ kw_online_chunk_max_iter kw = max_iter args.
Proof.
  intro Hr. unfold get_nmf_iter_params. cbv zeta.
  set (jobs := list_prod (sorted_set (ks_list ks)) (seq 0 n_iter)).
  assert (Hlen : length jobs = (length (sorted_set (ks_list ks)) * n_iter)%nat)
    by (unfold jobs; now rewrite length_prod, length_seq).
  pose proof (sorted_set_length (ks_list ks)) as Hle.
  destruct (replicate_rows_done fs
              (randint (length (ks_list ks) * n_iter)%nat) jobs 0)
    as (rows & E & Hj & Hs & _).
  { rewrite Hr, Hlen. cbn [Nat.add]. now apply Nat.mul_le_mono_r. }
  rewrite E.
  assert (Hrows : length rows = length jobs)
    by (rewrite <- Hj; now rewrite length_map).
  do 2 eexists. split; [reflexivity|].
  split; [exact Hj|]. split; [now rewrite Hrows|].
  split; [rewrite Hrows, Hlen; now apply Nat.mul_le_mono_r|].
  split; [now rewrite Hrows|]. repeat split.
Qed.

(** X23: A ledger that was built lists every replicate once: the pairs
    [(k, iteration)] of its rows are distinct, and they are the pairs of
    a requested [k] and an iteration below [n_iter]. *)
Theorem ledger_lists_each_replicate_once
  fs randint ks n_iter args rows kw :
  get_nmf_iter_params fs randint ks n_iter args = Done (rows, kw) ->
  NoDup (map (fun p => (n_components p, iter p)) rows)
  /\ (forall k r,
        In (k, r) (map (fun p => (n_components p, iter p)) rows)
        <-> In k (ks_list ks) /\ (r < n_iter)%nat).
Proof.
  intro H. split; [now apply ledger_keys_NoDup with (1 := H)|].
  intros k r. rewrite (ledger_keys _ _ _ _ _ _ _ H).
  rewrite in_prod_iff, sorted_set_In, in_seq. intuition lia.
Qed.

(** X24: With a number of workers other than zero [factorize] runs to the
    end, for any worker index and in either mode: no job is out of the
    ledger, and no file that was there is lost.  With zero workers and a
    ledger that is not empty it raises before any job has run. *)
Theorem factorize_completes run_nmf run_params w t skip fs :
  (t <> 0%Z ->
   exists fs',
     factorize run_nmf run_params w t skip fs = Done fs'
     /\ forall k r, exists_iter k r fs = true -> exists_iter k r fs' = true)
  /\ (t = 0%Z -> run_params <> [] ->
      factorize run_nmf run_params w t false fs = Fail ZeroDivisionError).
Proof.
  split.
  - intro Ht. unfold factorize. cbv zeta.
    rewrite worker_filter_done by exact Ht.
    destruct (run_jobs_done run_nmf run_params
                (worker_filter_from 0
                   (if skip then incomplete run_params
                    else seq 0 (length run_params)) w t) fs)
      as (fs' & E & Hmono & _).
    { pose proof (jobs_in_range run_params skip) as Hr.
      rewrite Forall_forall in *. intros idx Hin.
      apply Hr. eapply worker_filter_from_incl; eauto. }
    exists fs'. split; assumption.
  - intros -> Hne. unfold factorize. cbv zeta.
    destruct run_params as [|p ps]; [contradiction|]. reflexivity.
Qed.

(** X25: With [t] workers the job at position [idx] of the ledger is run by
    the worker [idx mod t], which leaves its file, and by no other
    worker. *)
Theorem every_job_has_one_worker run_nmf run_params (t : nat) idx p :
  (0 < t)%nat ->
  nth_error run_params idx = Some p ->
  let w := (Z.of_nat idx mod Z.of_nat t)%Z in
  (0 <= w < Z.of_nat t)%Z
  /\ (forall fs, exists fs',
        factorize run_nmf run_params w (Z.of_nat t) false fs = Done fs'
        /\ exists_iter (n_components p) (iter p) fs' = true)
  /\ (forall w' jobs,
        (0 <= w' < Z.of_nat t)%Z -> w' <> w ->
        worker_filter (seq 0 (length run_params)) w' (Z.of_nat t) = Done jobs ->
        ~ In idx jobs).
Proof.
  intros Ht Hp w.
  assert (Hw : (0 <= w < Z.of_nat t)%Z) by (apply Z.mod_pos_bound; lia).
  assert (Hidx : (idx < length run_params)%nat)
    by (apply nth_error_Some; congruence).
  split; [exact Hw|]. split.
  - intro fs. unfold factorize. cbv zeta.
    rewrite worker_filter_done by lia.
    destruct (run_jobs_done run_nmf run_params
                (worker_filter_from 0 (seq 0 (length run_params)) w
                   (Z.of_nat t)) fs)
      as (fs' & E & _ & Hjobs).
    { pose proof (jobs_in_range run_params false) as Hr.
      rewrite Forall_forall in *. intros i Hin.
      apply Hr. eapply worker_filter_from_incl; eauto. }
    exists fs'. split; [exact E|]. apply (Hjobs idx p); [|exact Hp].
    rewrite (worker_filter_from_seq 0). apply filter_In.
    split; [apply in_seq; lia|].
    apply Z.eqb_eq. now apply owner_iff.
  - intros w' jobs Hw' Hne E Hin.
    rewrite worker_filter_done in E by lia. injection E as <-.
    rewrite (worker_filter_from_seq 0) in Hin. apply filter_In in Hin.
    destruct Hin as (_ & H). apply Z.eqb_eq in H.
    apply owner_iff in H; [|exact Hw']. contradiction.
Qed.

(** X26: Resuming: once the ledger has been updated from the files that
    exist, one worker with [skip_completed_runs] runs what is missing,
    and afterwards every row of the ledger has its file. *)
Theorem resume_completes_ledger run_nmf run_params fs :
  exists fs',
    factorize run_nmf (update_nmf_iter_params fs run_params) 0 1 true fs
    = Done fs'
    /\ forall p, In p run_params ->
         exists_iter (n_components p) (iter p) fs' = true.
Proof.
  set (ledger := update_nmf_iter_params fs run_params).
  unfold factorize. cbv zeta.
  rewrite worker_filter_done by lia.
  rewrite worker_filter_from_all by (now left).
  destruct (run_jobs_done run_nmf ledger (incomplete ledger) fs)
    as (fs' & E & Hmono & Hjobs); [apply (jobs_in_range ledger true)|].
  exists fs'. split; [exact E|].
  intros p Hin. apply (In_nth_error run_params) in Hin.
  destruct Hin as (idx & Hidx).
  set (q := {| n_components := n_components p; iter := iter p;
               nmf_seed := nmf_seed p;
               completed := exists_iter (n_components p) (iter p) fs |}).
  assert (Hq : nth_error ledger idx = Some q).
  { unfold ledger, update_nmf_iter_params.
    rewrite nth_error_map, Hidx. reflexivity. }
  destruct (exists_iter (n_components p) (iter p) fs) eqn:Ex.
  - now apply Hmono.
  - apply (Hjobs idx q); [|exact Hq].
    apply incomplete_In. exists q. split; [exact Hq | reflexivity].
Qed.

(** X27: [combine_nmf] raises only for a missing file and only when missing
    files are not skipped: it raises exactly when some row of the ledger
    for [k] has no file. *)
Theorem combine_raises_iff_missing run_params fs k skip e :
  combine_nmf run_params fs k skip = Fail e
  <-> e = FileNotFoundError
      /\ skip = false
      /\ exists p, In p run_params /\ n_components p = k
                   /\ exists_iter k (iter p) fs = false.
Proof.
  unfold combine_nmf. cbv zeta.
  set (rows := sort_by_iter (filter (fun p => (n_components p =? k)%nat)
                               run_params)).
  assert (Hrows : forall p, In p rows
                   <-> In p run_params /\ n_components p = k).
  { intro p. unfold rows. rewrite sort_by_iter_In, filter_In.
    now rewrite Nat.eqb_eq. }
  destruct skip.
  - destruct (collect_spectra_skips fs rows) as (l & ->).
    split; [destruct l; discriminate | intros (_ & H & _); discriminate].
  - pose proof (collect_spectra_fails fs rows e) as Hf.
    destruct (collect_spectra fs false rows) as [l|e'] eqn:El.
    + split; [destruct l; discriminate|].
      intros (He & _ & p & Hp & Hk & Hx).
      assert (H : @Done (list matrix) l = Fail e).
      { apply Hf. split; [exact He|]. exists p.
        split; [apply Hrows; auto|].
        unfold exists_iter in Hx. rewrite Hk.
        destruct (load_iter k (iter p) fs); [discriminate | reflexivity]. }
      discriminate.
    + split.
      * intro H. injection H as ->.
        destruct (proj1 Hf eq_refl) as (He & p & Hp & Hn).
        apply Hrows in Hp. destruct Hp as (Hp & Hk).
        split; [exact He|]. split; [reflexivity|]. exists p.
        repeat split; try assumption.
        unfold exists_iter. rewrite <- Hk. now rewrite Hn.
      * intros (He & _ & p & Hp & Hk & Hx). f_equal.
        assert (H : @Fail (list matrix) e' = Fail e).
        { apply Hf. split; [exact He|]. exists p.
          split; [apply Hrows; auto|].
          unfold exists_iter in Hx. rewrite Hk.
          destruct (load_iter k (iter p) fs); [discriminate | reflexivity]. }
        now injection H.
Qed.

(** X28: From the ledger to the merged spectra: after one worker has run
    every job of a ledger built for [ks] and [n_iter], the merged spectra
    for a requested [k] are the [n_iter] replicate spectra for [k], in
    the order of the iterations, each computed with the seed of its
    row. *)
Theorem factorized_replicates_are_merged_in_order
  run_nmf fs0 fs1 randint ks n_iter args rows kw k skip fs :
  get_nmf_iter_params fs0 randint ks n_iter args = Done (rows, kw) ->
  In k (ks_list ks) -> (0 < n_iter)%nat ->
  factorize run_nmf rows 0 1 false fs1 = Done fs ->
  exists subset,
    map (fun p => (n_components p, iter p)) subset
    = map (pair k) (seq 0 n_iter)
    /\ (forall p, In p subset -> In p rows)
    /\ combine_nmf rows fs k skip
       = Done (Some (concat (map (fun p => run_nmf k (nmf_seed p)) subset))).
Proof.
  intros Hled Hk Hn Hfac.
  destruct (merged_after_all_jobs run_nmf fs0 fs1 randint ks n_iter args
              rows kw k skip fs Hled Hk Hn Hfac) as (Hsub & Hc).
  exists (filter (fun p => (n_components p =? k)%nat) rows).
  split; [exact Hsub|]. split; [|exact Hc].
  intros p Hp. apply filter_In in Hp. tauto.
Qed.

(** X29: From the ledger to every merged file: after one worker has run every
    job of a built ledger, [combine] with its default components
    completes and leaves one merged file for each distinct requested
    [k], written in ascending order of [k], the file of [k] being what
    [combine_nmf] merges for [k]. *)
Theorem combine_merges_every_k
  run_nmf fs0 fs1 randint ks n_iter args rows kw skip fs :
  get_nmf_iter_params fs0 randint ks n_iter args = Done (rows, kw) ->
  (0 < n_iter)%nat ->
  factorize run_nmf rows 0 1 false fs1 = Done fs ->
  exists ms,
    combine rows fs all_components skip [] = (None, ms)
    /\ map fst ms = rev (sorted_set (ks_list ks))
    /\ forall k, In k (ks_list ks) ->
         exists merged,
           load_merged k ms = Some merged
           /\ combine_nmf rows fs k skip = Done (Some merged).
Proof.
  intros Hled Hn Hfac.
  set (M := fun k => concat (map (fun p => run_nmf k (nmf_seed p))
                               (filter (fun p => (n_components p =? k)%nat)
                                  rows))).
  assert (HM : forall k, In k (ks_list ks) ->
                 combine_nmf rows fs k skip = Done (Some (M k))).
  { intros k Hk.
    apply (merged_after_all_jobs run_nmf fs0 fs1 randint ks n_iter args
             rows kw k skip fs Hled Hk Hn Hfac). }
  exists (rev (map (fun k => (k, M k)) (sorted_set (ks_list ks))) ++ []).
  split; [|split].
  - unfold combine. cbv zeta.
    rewrite (ledger_components fs0 randint ks n_iter args rows kw Hled Hn).
    apply combine_each_all. intros k Hk. apply HM.
    now apply sorted_set_In.
  - rewrite app_nil_r, map_rev, map_map. cbn [fst]. now rewrite map_id.
  - intros k Hk. exists (M k). split; [|now apply HM].
    apply load_merged_all. now apply sorted_set_In.
Qed.

(** X30: [k_selection_plot] changes no saved artifact: no density is cached
    and no output of [consensus] is written.  When it completes, its
    statistics have one row for each distinct [k] of the ledger, in
    ascending order, each labelled with the default threshold 0.5; when
    it raises, the error is none of the density stage: not the zero
    components of the filter, not the partition, not the alignment of a
    cached density. *)
Theorem k_selection_plot_leaves_artifacts lib inp_of run_params st :
  snd (k_selection_plot lib inp_of run_params st) = st
  /\ match fst (k_selection_plot lib inp_of run_params st) with
     | Stats rows =>
         map stats_k rows = sorted_set (map n_components run_params)
         /\ Forall (fun row => stats_local_density_threshold row = 1 / 2) rows
     | Raised e =>
         e <> ZeroComponents /\ e <> KthOutOfBounds /\ e <> Unalignable
     | AttributeError => False
     end.
Proof. unfold k_selection_plot. apply collect_stats_outcome. Qed.
(** * The further properties at concrete inputs *)

Import ExDensityFacts.

(** X1 at a concrete input: the refit of [ExChunk] with a chunk size of zero does not return. *)
Lemma chunk_size_zero_never_returns_witness :
  fit_H_online (ExChunk.prm 0) ExChunk.W 5 ExChunk.X None ExChunk.H_init
  = None.
Proof.
  apply (chunk_size_zero_never_returns (ExChunk.prm 0) ExChunk.W ExChunk.X
           None ExChunk.H_init 5).
  - reflexivity.
  - simpl. lia.
Defined.

(** X2 at a concrete input: with no iteration allowed the refit of [ExStationary] returns its clamped start. *)
Lemma zero_iterations_return_clamped_init_witness :
  fit_H_online (ExStationary.prm 0) ExStationary.W 1 ExStationary.X
    (Some [[-1]]) []
  = Some (init_H (Some [[-1]]) []).
Proof.
  apply (zero_iterations_return_clamped_init (ExStationary.prm 0)
           ExStationary.W ExStationary.X (Some [[-1]]) [] 1).
  - reflexivity.
  - simpl. lia.
  - simpl. lia.
  - reflexivity.
Defined.

(** X3 at a concrete input: a start of [ExChunk] with a negative entry (0, 0) gives a result with a zero there. *)
Lemma nonpositive_init_entries_end_at_zero_witness :
  exists H,
    fit_H_online (ExChunk.prm 1) ExChunk.W 2 ExChunk.X
      (Some [[-1; 1]; [1; 1]]) [] = Some H
    /\ entry H 0 0 = 0.
Proof.
  apply (nonpositive_init_entries_end_at_zero (ExChunk.prm 1) ExChunk.W
           ExChunk.X [[-1; 1]; [1; 1]] [] 2 0 0).
  - cbv [epsilon ExChunk.prm]. lra.
  - simpl. lia.
  - simpl. lia.
  - reflexivity.
  - cbv [entry nth]. lra.
Defined.

(** X4 at a concrete input: the exact solution of [ExStationary] is returned unchanged. *)
Lemma stationary_point_is_returned_witness :
  fit_H_online (ExStationary.prm 200) ExStationary.W 1 ExStationary.X
    (Some ExStationary.H) []
  = Some ExStationary.H.
Proof.
  apply (stationary_point_is_returned (ExStationary.prm 200) ExStationary.W
           ExStationary.X ExStationary.H [] 1 1 1).
  - reflexivity.
  - repeat constructor.
  - lia.
  - lia.
  - repeat constructor.
  - unfold mnonneg, nonneg, ExStationary.H.
    repeat (apply Forall_cons; [try lra|]); try constructor.
  - reflexivity.
  - cbv [epsilon ExStationary.prm]. lra.
  - simpl. lia.
  - simpl. lia.
  - intros i j Hi Hj. right.
    assert (i = 0%nat) by (simpl in Hi; lia).
    assert (j = 0%nat) by lia. subst.
    cbv [entry mu_denom mu_numer WWT matmul transpose madd mscale
         map2 map seq ncols col dot nth length
         l1_reg_H l2_reg_H epsilon ExStationary.prm ExStationary.W
         ExStationary.X ExStationary.H].
    rewrite !Rltb_false by lra. lra.
Defined.

(** X5 at a concrete input: data of one row against targets of two rows raise. *)
Lemma ols_raises_iff_witness :
  exists e,
    efficient_ols_all_cols (fun _ B => B) [[1]] [[1]; [3]] false 1 = Raise e.
Proof.
  apply (proj2 (ols_raises_iff (fun _ B => B) [[1]] [[1]; [3]] false 1)).
  left. simpl. lia.
Defined.

(** X6 at a concrete input: with a batch size of -1 the solver gets zero matrices. *)
Lemma ols_negative_batch_ignores_data_witness :
  efficient_ols_all_cols (fun _ B => B) [[1]; [2]] [[1]; [3]] false (-1)
  = Ok (zeros 1 1).
Proof.
  apply (ols_negative_batch_ignores_data (fun _ B => B)
           [[1]; [2]] [[1]; [3]] false (-1)).
  - reflexivity.
  - lia.
Defined.

(** X7 at a concrete input: two rows of two predictors. *)
Lemma accumulated_XtX_is_symmetric_witness :
  exists XtX XtY,
    ols_accumulate [[1; 2]; [3; 4]] [[1]; [3]] false 1 = Ok (XtX, XtY)
    /\ forall i j, (i < 2)%nat -> (j < 2)%nat ->
         entry XtX i j = entry XtX j i.
Proof.
  apply (accumulated_XtX_is_symmetric [[1; 2]; [3; 4]] [[1]; [3]] false
           2 1 1).
  - reflexivity.
  - repeat constructor.
  - repeat constructor.
  - lia.
  - simpl. lia.
Defined.

(** X8 at a concrete input: the standardised column of the targets 1 and 3 has mean zero. *)
Lemma standardized_columns_are_centred_and_scaled_witness :
  col_mean (standardize (fst (get_mean_var [[1]; [3]]))
              (std_of_var (snd (get_mean_var [[1]; [3]]))) [[1]; [3]]) 0
  = 0.
Proof.
  apply (standardized_columns_are_centred_and_scaled [[1]; [3]] 1 0).
  - repeat constructor.
  - simpl. lia.
  - lia.
Defined.

(** X9 at a concrete input: a column that is 5 in both rows is standardised to zeros. *)
Lemma constant_column_standardizes_to_zero_witness :
  Forall (fun y => y = 0)
    (col 0 (standardize (fst (get_mean_var [[5]; [5]]))
              (std_of_var (snd (get_mean_var [[5]; [5]]))) [[5]; [5]])).
Proof.
  apply (constant_column_standardizes_to_zero [[5]; [5]] 1 0 5).
  - repeat constructor.
  - simpl. lia.
  - lia.
  - repeat constructor.
Defined.

(** X10 at a concrete input: the rescaled programs of [ExDensity] have norm 1. *)
Lemma l2_normalize_gives_unit_rows_witness :
  Forall (fun r => dot r r = 1) (l2_normalize ExDensity.merged).
Proof.
  apply (l2_normalize_gives_unit_rows ExDensity.merged).
  unfold ExDensity.merged.
  repeat (apply Forall_cons; [cbv [dot]; lra|]). constructor.
Defined.

(** X11 at a concrete input: the row (1, 3) divided by its sum adds up to 1. *)
Lemma row_normalize_rows_sum_to_one_witness :
  Forall (fun r => vsum r = 1) (row_normalize [[1; 3]]).
Proof.
  apply (row_normalize_rows_sum_to_one [[1; 3]]).
  repeat (apply Forall_cons; [cbv [vsum fold_right]; lra|]). constructor.
Defined.

(** X12 at a concrete input: the distance between the first and the third program of [ExDensity]. *)
Lemma euclidean_distances_symmetric_witness :
  entry (euclidean_distances ExDensity.merged) 0 2
  = entry (euclidean_distances ExDensity.merged) 2 0.
Proof.
  apply (euclidean_distances_symmetric ExDensity.merged 0 2).
  - simpl. lia.
  - simpl. lia.
Defined.

(** X13 at a concrete input: with the threshold 2 no program of [ExDensity] is dropped. *)
Lemma threshold_two_applies_no_filter_witness :
  exists density,
    Forall (fun d => d <= sqrt 2) density
    /\ spectra_for_clustering 1 2 (4 / 10) false ExDensity.merged []
       = (Ret {| l2_spectra := l2_normalize ExDensity.merged;
                 topics_dist :=
                   Some (euclidean_distances (l2_normalize ExDensity.merged));
                 density_filter := Some (map (fun _ => true) density);
                 local_density := Some density |},
          save (cache_path 1) (map (fun d => [d]) density) []).
Proof.
  apply (threshold_two_applies_no_filter 1 2 (4 / 10) ExDensity.merged 2 1 []).
  - unfold mnonneg, nonneg, ExDensity.merged.
    repeat (apply Forall_cons;
            [repeat (apply Forall_cons; [lra|]); constructor|]).
    constructor.
  - repeat constructor.
  - unfold ExDensity.merged.
    repeat (apply Forall_cons; [cbv [dot]; lra|]). constructor.
  - exact n_neighbors_merged.
  - lia.
  - simpl. lia.
  - reflexivity.
  - lra.
Defined.

(** X14 at a concrete input: after the density of [ExDensity] has been cached for [k = 1], a call with no spectra at all returns it. *)
Lemma density_cache_is_keyed_by_k_witness :
  obtain_local_density 1 [] 0 [(cache_path 1, [[0]; [0]; [6 / 5]])]
  = (Ret (None, ExDensity.density), [(cache_path 1, [[0]; [0]; [6 / 5]])]).
Proof.
  apply (proj1 (density_cache_is_keyed_by_k 1 (l2_normalize ExDensity.merged)
                  1 [] ExDensity.dist ExDensity.density
                  [(cache_path 1, [[0]; [0]; [6 / 5]])] obtain_merged)).
Defined.


(** X16 at a concrete input: a cache of one density against the three programs of [ExDensity] is too short. *)
Lemma shorter_stale_cache_fails_witness :
  spectra_for_clustering 1 (1 / 2) (4 / 10) false ExDensity.merged
    [(cache_path 1, [[0]])]
  = (Err Unalignable, [(cache_path 1, [[0]])]).
Proof.
  apply (shorter_stale_cache_fails 1 (1 / 2) (4 / 10)
           ExDensity.merged [(cache_path 1, [[0]])] [[0]]).
  - discriminate.
  - reflexivity.
  - simpl. lia.
Defined.

(** X17 at a concrete input: the normal-mode run of [ExPipeline] with the threshold 1 returns no statistics and leaves its consensus spectra under both names. *)
Lemma normal_mode_saves_outputs_witness :
  fst (consensus ExPipeline.lib ExPipeline.inp ExOutputs.args []) = Ret None
  /\ exists spectra,
       load (out ExPipeline.lib ExOutputs.args consensus_spectra)
         (snd (consensus ExPipeline.lib ExPipeline.inp ExOutputs.args []))
       = Some spectra
       /\ load (out ExPipeline.lib ExOutputs.args consensus_spectra__txt)
            (snd (consensus ExPipeline.lib ExPipeline.inp ExOutputs.args []))
          = Some spectra.
Proof.
  assert (E : fst (consensus ExPipeline.lib ExPipeline.inp ExOutputs.args [])
              = Ret None).
  { unfold consensus.
    change (spectra_for_clustering _ _ _ _ _ [])
      with (spectra_for_clustering 1 1 (4 / 10) false ExDensity.merged []).
    rewrite normal_mode_merged by lra. reflexivity. }
  split; [exact E|].
  destruct (normal_mode_saves_outputs ExPipeline.lib ExPipeline.inp
              ExOutputs.args [] None
              (snd (consensus ExPipeline.lib ExPipeline.inp ExOutputs.args [])))
    as (_ & spectra & usages & spectra_tpm & score & H1 & H2 & _).
  - reflexivity.
  - reflexivity.
  - rewrite <- E. apply surjective_pairing.
  - exists spectra. split; assumption.
Defined.

(** X18 at a concrete input: the first refit of [ExPipeline] returns one row of non-negative usages. *)
Lemma refit_usage_returns_nonneg_usages_witness :
  exists H,
    refit_usage ExPipeline.lib ExPipeline.inp 0 [[1; 1]] [[1; 0]] = Ret H
    /\ nrows H = 1%nat /\ mnonneg H.
Proof.
  apply (refit_usage_returns_nonneg_usages ExPipeline.lib ExPipeline.inp 0
           [[1; 1]] [[1; 0]]).
  - discriminate.
  - simpl. lia.
  - repeat (apply Forall_cons;
            [repeat (apply Forall_cons; [lra|]); constructor|]).
    constructor.
  - repeat (apply Forall_cons;
            [repeat (apply Forall_cons; [lra|]); constructor|]).
    constructor.
  - cbv [ExPipeline.lib torch_rand nrows length repeat].
    repeat (apply Forall_cons;
            [repeat (apply Forall_cons; [lra|]); constructor|]).
    constructor.
  - reflexivity.
Defined.

(** X19 at a concrete input: the refit of [ExPipeline] under the Kullback-Leibler loss is the refit under the Frobenius loss. *)
Lemma refit_usage_ignores_beta_loss_witness :
  refit_usage ExPipeline.lib ExOutputs.inp_kl 0 [[1; 1]] [[1; 0]]
  = refit_usage ExPipeline.lib ExPipeline.inp 0 [[1; 1]] [[1; 0]].
Proof.
  apply (refit_usage_ignores_beta_loss ExPipeline.lib ExPipeline.inp
           ExOutputs.inp_kl 0 [[1; 1]] [[1; 0]]);
    try discriminate; reflexivity.
Defined.

(** X20 at a concrete input: three jobs and two workers. *)
Lemma worker_filter_partitions_jobs_witness :
  exists parts,
    Forall2 (fun w part => worker_filter [10; 20; 30]%nat (Z.of_nat w) 2
                           = Done part)
            [0; 1]%nat parts
    /\ Permutation (concat parts) [10; 20; 30]%nat.
Proof.
  apply (worker_filter_partitions_jobs [10; 20; 30]%nat 2). lia.
Defined.

(** X22 at a concrete input: the ledger of [ExLedger] has four rows for a draw of six seeds. *)
Lemma ledger_is_built_without_index_error_witness :
  exists rows kw,
    get_nmf_iter_params [] ExLedger.randint ExLedger.ks 2 ExLedger.args
    = Done (rows, kw)
    /\ length rows = 4%nat.
Proof.
  destruct (ledger_is_built_without_index_error [] ExLedger.randint
              ExLedger.ks 2 ExLedger.args)
    as (rows & kw & E & _ & Hl & _).
  - intro n. apply repeat_length.
  - exists rows, kw. split; [exact E | exact Hl].
Defined.

(** X23 at a concrete input: the four rows of the ledger of [ExLedger] are four distinct replicates. *)
Lemma ledger_lists_each_replicate_once_witness :
  NoDup (map (fun p => (n_components p, iter p)) ExLedger.rows).
Proof.
  refine (proj1 (ledger_lists_each_replicate_once [] ExLedger.randint
                   ExLedger.ks 2 ExLedger.args ExLedger.rows _ _)).
  reflexivity.
Defined.

(** X24 at a concrete input: the second of two workers runs its jobs of the ledger of [ExLedger]. *)
Lemma factorize_completes_witness :
  exists fs',
    factorize ExLedger.run_nmf ExLedger.rows 1 2 false [] = Done fs'
    /\ forall k r, exists_iter k r [] = true -> exists_iter k r fs' = true.
Proof.
  apply (proj1 (factorize_completes ExLedger.run_nmf ExLedger.rows 1 2
                  false [])).
  lia.
Defined.

(** X25 at a concrete input: with two workers the fourth job of [ExLedger] belongs to the second worker. *)
Lemma every_job_has_one_worker_witness :
  exists fs',
    factorize ExLedger.run_nmf ExLedger.rows 1 2 false [] = Done fs'
    /\ exists_iter 2 1 fs' = true.
Proof.
  destruct (every_job_has_one_worker ExLedger.run_nmf ExLedger.rows 2 3
              (ExLedger.row 2 1)) as (_ & H & _).
  - lia.
  - reflexivity.
  - exact (H []).
Defined.

(** X27 at a concrete input: with no file at all, merging the replicates of [k = 1] raises. *)
Lemma combine_raises_iff_missing_witness :
  combine_nmf ExLedger.rows [] 1 false = Fail FileNotFoundError.
Proof.
  apply (proj2 (combine_raises_iff_missing ExLedger.rows [] 1 false
                  FileNotFoundError)).
  split; [reflexivity|]. split; [reflexivity|].
  exists (ExLedger.row 1 0). repeat split. now left.
Defined.

(** X28 at a concrete input: after the four jobs of [ExLedger], the merged spectra for [k = 2] are its two replicates. *)
Lemma factorized_replicates_are_merged_in_order_witness :
  exists fs subset,
    factorize ExLedger.run_nmf ExLedger.rows 0 1 false [] = Done fs
    /\ map (fun p => (n_components p, iter p)) subset
       = [(2, 0); (2, 1)]%nat
    /\ combine_nmf ExLedger.rows fs 2 false
       = Done (Some (concat (map (fun p => ExLedger.run_nmf 2 (nmf_seed p))
                               subset))).
Proof.
  set (fs := fold_left (save_row ExLedger.run_nmf) ExLedger.rows []).
  assert (Efs : factorize ExLedger.run_nmf ExLedger.rows 0 1 false []
                = Done fs) by reflexivity.
  exists fs.
  destruct (factorized_replicates_are_merged_in_order ExLedger.run_nmf
              [] [] ExLedger.randint ExLedger.ks 2 ExLedger.args
              ExLedger.rows
              {| alpha_W := 0; alpha_H := 0; kw_l1_ratio_H := 0;
                 kw_l1_ratio_W := 0; kw_beta_loss := frobenius;
                 tol := 1 / 10000; kw_online_chunk_max_iter := 1000;
                 kw_online_chunk_size := 5000; n_jobs := (-1)%Z;
                 use_gpu := false |}
              2%nat false fs)
    as (subset & Hk & _ & Hc).
  - reflexivity.
  - simpl. now left.
  - lia.
  - exact Efs.
  - exists subset. split; [exact Efs|]. split; [exact Hk | exact Hc].
Defined.

(** X29 at a concrete input: after the four jobs of [ExLedger], [combine] leaves the merged files of [k = 2] and [k = 1]. *)
Lemma combine_merges_every_k_witness :
  exists fs ms,
    factorize ExLedger.run_nmf ExLedger.rows 0 1 false [] = Done fs
    /\ combine ExLedger.rows fs all_components false [] = (None, ms)
    /\ map fst ms = [2; 1]%nat.
Proof.
  set (fs := fold_left (save_row ExLedger.run_nmf) ExLedger.rows []).
  assert (Efs : factorize ExLedger.run_nmf ExLedger.rows 0 1 false []
                = Done fs) by reflexivity.
  exists fs.
  destruct (combine_merges_every_k ExLedger.run_nmf
              [] [] ExLedger.randint ExLedger.ks 2 ExLedger.args
              ExLedger.rows
              {| alpha_W := 0; alpha_H := 0; kw_l1_ratio_H := 0;
                 kw_l1_ratio_W := 0; kw_beta_loss := frobenius;
                 tol := 1 / 10000; kw_online_chunk_max_iter := 1000;
                 kw_online_chunk_size := 5000; n_jobs := (-1)%Z;
                 use_gpu := false |}
              false fs)
    as (ms & Hc & Hk & _).
  - reflexivity.
  - lia.
  - exact Efs.
  - exists ms. split; [exact Efs|]. split; [exact Hc | exact Hk].
Defined.
